(** * Random-forest classifier, prediction aggregator and model registry

    A shallow embedding of the framework-free part of the image-classifier
    demo: [Predictor] (src/unnamed/part_001), [ModelManager] and
    [RandomForestTrainer] (src/js/app.js).

    Conventions of the embedding.
    - A JavaScript number is the rational it denotes ([Q]); counts and
      indices are [nat] or [Z].  Sums and products of counts are exact in
      doubles below 2^53 and are computed exactly here.  Every other
      floating-point operation of the source goes through [fl], the rounding
      of the exact result to a double (class [JsNumber]).
    - An object used as a dictionary is a [gmap]; a numeric-keyed object is
      enumerated in ascending key order, as [Object.keys] does for array
      indices.
    - A [throw] is the [Throw] outcome of the [completion] type.
    - [Math.random], the image decoder, [performance.now] and [new Date]
      are inputs of the functions that use them. *)

From Stdlib Require Import QArith Qabs Lia Lqa.
From stdpp Require Import base numbers list sorting gmap strings pretty.

Local Open Scope Z_scope.

(** ** JavaScript numbers *)

Definition unit_roundoff : Q := Eval vm_compute in 1 # (2 ^ 53).

(** [fl x] is the double nearest to [x]; [log2] is [Math.log2].  The error
    bound is the one IEEE 754 gives for a quotient of two integers of
    magnitude at most 2^53, which never underflows. *)
Class JsNumber := {
  fl : Q → Q;
  log2 : Q → Q;
  fl_proper : ∀ x y, (x == y)%Q → (fl x == fl y)%Q;
  fl_int : ∀ z : Z, Z.abs z ≤ 2 ^ 53 → (fl (inject_Z z) == inject_Z z)%Q;
  fl_rel : ∀ a b : Z, Z.abs a ≤ 2 ^ 53 → 0 < b ≤ 2 ^ 53 →
    (Qabs (fl (inject_Z a / inject_Z b) - inject_Z a / inject_Z b)
       <= unit_roundoff * Qabs (inject_Z a / inject_Z b))%Q
}.

(** Arithmetic without rounding is one instance. *)
Lemma exact_rel (a b : Z) :
  (Qabs (inject_Z a / inject_Z b - inject_Z a / inject_Z b)
     <= unit_roundoff * Qabs (inject_Z a / inject_Z b))%Q.
Proof.
  assert (E : (inject_Z a / inject_Z b - inject_Z a / inject_Z b == 0)%Q) by ring.
  rewrite E. change (Qabs 0) with 0%Q.
  apply Qmult_le_0_compat; [discriminate | apply Qabs_nonneg].
Qed.

(** The integer part of the base-2 logarithm of a positive rational, which is
    the logarithm itself on the powers of two. *)
Definition log2_floor (x : Q) : Q :=
  let r := Qred x in
  inject_Z (Z.log2 (Qnum r) - Z.log2 (Z.pos (Qden r))).

Definition exactNumber : JsNumber :=
  {| fl := λ x, x; log2 := log2_floor;
     fl_proper := λ _ _ E, E;
     fl_int := λ z _, Qeq_refl (inject_Z z);
     fl_rel := λ a b _ _, exact_rel a b |}.

(** [a / b] on two integer-valued numbers. *)
Definition jsdiv `{JsNumber} (a b : Z) : Q := fl (inject_Z a / inject_Z b).
(** The binary operators on numbers that are not integer counts. *)
Definition fdiv `{JsNumber} (x y : Q) : Q := fl (x / y).
Definition fmul `{JsNumber} (x y : Q) : Q := fl (x * y).
Definition fadd `{JsNumber} (x y : Q) : Q := fl (x + y).
Definition fsub `{JsNumber} (x y : Q) : Q := fl (x - y).

(** [x < y] on numbers. *)
Definition Qltb (x y : Q) : bool := negb (Qle_bool y x).

(** ** Errors *)

Inductive exn :=
  | Error (message : string)
  | TypeError (message : string).

Inductive completion (A : Type) :=
  | Return (a : A)
  | Throw (e : exn).
Arguments Return {A} a.
Arguments Throw {A} e.

(** ** Evaluation metrics: [Predictor.calculateMetrics] *)

Module Metrics.

(** A confusion matrix: an array of rows of integer counts. *)
Definition matrix := list (list Z).

(** [confusionMatrix[i][j] || 0]: a missing cell reads as 0. *)
Definition cell (m : matrix) (i j : nat) : Z :=
  default 0 (m !! i ≫= (λ row, row !! j)).

Record metrics := {
  accuracy : Q;
  precision : list Q;
  recall : list Q;
  f1Score : list Q;
  support : list Z
}.

Section Metrics.
Context `{JsNumber}.

(** The inner loop over [j], accumulating (falsePositives, falseNegatives). *)
Definition countErrors (m : matrix) (numClasses i : nat) : Z * Z :=
  foldl (λ '(falsePositives, falseNegatives) j,
           if decide (i ≠ j)
           then (falsePositives + cell m j i, falseNegatives + cell m i j)
           else (falsePositives, falseNegatives))
        (0, 0) (seq 0 numClasses).

(** The loop state of the outer loop. *)
Record acc := {
  correctPredictions : Z;
  totalPredictions : Z;
  out : metrics
}.

Definition classStep (m : matrix) (numClasses : nat) (a : acc) (i : nat) : acc :=
  let truePositives := cell m i i in
  let '(falsePositives, falseNegatives) := countErrors m numClasses i in
  let precision_i :=
    if 0 <? truePositives + falsePositives
    then jsdiv truePositives (truePositives + falsePositives) else 0%Q in
  let recall_i :=
    if 0 <? truePositives + falseNegatives
    then jsdiv truePositives (truePositives + falseNegatives) else 0%Q in
  let f1 :=
    if Qltb 0 (fadd precision_i recall_i)
    then fdiv (fmul 2 (fmul precision_i recall_i)) (fadd precision_i recall_i)
    else 0%Q in
  {| correctPredictions := correctPredictions a + truePositives;
     totalPredictions :=
       totalPredictions a + (truePositives + falsePositives + falseNegatives);
     out := {| accuracy := accuracy (out a);
               precision := precision (out a) ++ [precision_i];
               recall := recall (out a) ++ [recall_i];
               f1Score := f1Score (out a) ++ [f1];
               support := support (out a) ++ [truePositives + falseNegatives] |} |}.

Definition calculateMetrics (confusionMatrix : matrix) : metrics :=
  let numClasses := length confusionMatrix in
  let start :=
    {| correctPredictions := 0; totalPredictions := 0;
       out := {| accuracy := 0%Q; precision := []; recall := [];
                 f1Score := []; support := [] |} |} in
  let a := foldl (classStep confusionMatrix numClasses) start (seq 0 numClasses) in
  {| accuracy :=
       if 0 <? totalPredictions a
       then jsdiv (correctPredictions a) (totalPredictions a) else 0%Q;
     precision := precision (out a);
     recall := recall (out a);
     f1Score := f1Score (out a);
     support := support (out a) |}.

(** The formula of the specification, written with sums. *)
Definition sumZ (l : list Z) : Z := foldr Z.add 0 l.

Definition TP (m : matrix) (i : nat) : Z := cell m i i.
Definition FP (m : matrix) (i : nat) : Z :=
  sumZ ((λ j, cell m j i) <$> filter (λ j, j ≠ i) (seq 0 (length m))).
Definition FN (m : matrix) (i : nat) : Z :=
  sumZ ((λ j, cell m i j) <$> filter (λ j, j ≠ i) (seq 0 (length m))).

Definition accuracy_formula (m : matrix) : Q :=
  let classes := seq 0 (length m) in
  let numerator := sumZ (TP m <$> classes) in
  let denominator := sumZ ((λ i, TP m i + FP m i + FN m i) <$> classes) in
  if denominator =? 0 then 0%Q else jsdiv numerator denominator.

(** The per-class formulas, written with the same sums. *)
Definition precision_formula (m : matrix) (i : nat) : Q :=
  if 0 <? TP m i + FP m i then jsdiv (TP m i) (TP m i + FP m i) else 0%Q.
Definition recall_formula (m : matrix) (i : nat) : Q :=
  if 0 <? TP m i + FN m i then jsdiv (TP m i) (TP m i + FN m i) else 0%Q.
Definition f1_formula (m : matrix) (i : nat) : Q :=
  let p := precision_formula m i in
  let r := recall_formula m i in
  if Qltb 0 (fadd p r) then fdiv (fmul 2 (fmul p r)) (fadd p r) else 0%Q.

Definition square (m : matrix) : Prop :=
  Forall (λ row, length row = length m) m.
Definition nonneg (m : matrix) : Prop :=
  Forall (Forall (λ x, 0 ≤ x)) m.

End Metrics.
End Metrics.

(** ** The random forest: [RandomForestTrainer] *)

Module RandomForestTrainer.

Definition featureVector := list Q.

(** [x <= y] where either side may be [undefined] (an index past the end of
    an array): a comparison with [undefined] is false. *)
Definition jsle (x y : option Q) : bool :=
  match x, y with
  | Some a, Some b => Qle_bool a b
  | _, _ => false
  end.

(** Equality of two array elements as a [Set] sees it. *)
Definition sameValue (x y : option Q) : bool :=
  match x, y with
  | Some a, Some b => Qeq_bool a b
  | None, None => true
  | _, _ => false
  end.

(** [[...new Set(l)]]: the distinct elements, in order of first occurrence. *)
Definition unique {A} (same : A → A → bool) (l : list A) : list A :=
  foldl (λ seen x, if existsb (same x) seen then seen else seen ++ [x]) [] l.

(** [Array.prototype.reduce] without an initial value. *)
Definition reduce {A} (f : A → A → A) (l : list A) : completion A :=
  match l with
  | [] => Throw (TypeError "Reduce of empty array with no initial value")
  | x :: rest => Return (foldl f x rest)
  end.

(** An object whose keys are class labels and whose values are counts. *)
Abbreviation counter := (gmap nat nat).

(** [counts[k] || 0] *)
Definition count (counts : counter) (k : nat) : nat := default 0%nat (counts !! k).

(** [counts[label] = (counts[label] || 0) + 1] *)
Definition increment (counts : counter) (label : nat) : counter :=
  <[label := (count counts label + 1)%nat]> counts.

Definition tally (labels : list nat) : counter := foldl increment ∅ labels.

(** [Object.keys]: class labels are array indices (integers from 0, far
    below 2^32), and such keys are enumerated in ascending numeric order
    whatever the order of insertion. *)
Definition keys (counts : counter) : list nat :=
  merge_sort Nat.le (elements (dom counts)).

(** [Object.values] *)
Definition values (counts : counter) : list nat := count counts <$> keys counts.

Inductive tree :=
  | Leaf (value : nat) (count : nat) (distribution : option counter)
  | Node (featureIndex : nat) (threshold : option Q) (left_ right_ : tree).

Fixpoint traverseTree (features : featureVector) (t : tree) : nat :=
  match t with
  | Leaf value _ _ => value
  | Node featureIndex threshold left_ right_ =>
      if jsle (features !! featureIndex) threshold
      then traverseTree features left_
      else traverseTree features right_
  end.

Definition createLeafNode (labels : list nat) : completion tree :=
  let counts := tally labels in
  match reduce (λ a b, if (count counts b <? count counts a)%nat then a else b)
               (keys counts) with
  | Throw e => Throw e
  | Return majorityLabel => Return (Leaf majorityLabel (length labels) (Some counts))
  end.

(** The accumulator of the vote reduction: it starts as a property key (a
    string) and becomes a number once [parseInt] has been applied. *)
Inductive keyOrNumber :=
  | Key (k : nat)
  | Number (n : nat).

(** [parseInt(a)], also the index [votes[a]] reads. *)
Definition parseInt (a : keyOrNumber) : nat :=
  match a with Key k => k | Number n => n end.

Definition castVotes (features : featureVector) (trees : list tree) : counter :=
  foldl (λ votes t, increment votes (traverseTree features t)) ∅ trees.

(** [(a, b) => votes[a] > votes[b] ? parseInt(a) : parseInt(b)] *)
Definition majority (votes : counter) (a b : keyOrNumber) : keyOrNumber :=
  if (count votes (parseInt b) <? count votes (parseInt a))%nat
  then Number (parseInt a) else Number (parseInt b).

Definition predictInstance (features : featureVector) (trees : list tree)
  : completion keyOrNumber :=
  let votes := castVotes features trees in
  reduce (majority votes) (Key <$> keys votes).

(** [prediction === label] *)
Definition strictEq (prediction : keyOrNumber) (label : nat) : bool :=
  match prediction with
  | Number n => (n =? label)%nat
  | Key _ => false
  end.

(** [Math.max(...labels) + 1] as a loop bound: for an empty array it is
    [-Infinity], under which no index lies. *)
Definition numClassesOf (labels : list nat) : nat :=
  match labels with
  | [] => 0%nat
  | _ => S (max_list labels)
  end.

(** The number of trees that send [features] to class [c]. *)
Definition votesFor (features : featureVector) (trees : list tree) (c : nat) : nat :=
  length (filter (λ t, traverseTree features t = c) trees).

(** The values at the leaves of a tree. *)
Fixpoint leafValues (t : tree) : list nat :=
  match t with
  | Leaf value _ _ => [value]
  | Node _ _ left_ right_ => leafValues left_ ++ leafValues right_
  end.

(** The number of edges on the longest path from the root to a leaf. *)
Fixpoint height (t : tree) : nat :=
  match t with
  | Leaf _ _ _ => 0%nat
  | Node _ _ left_ right_ => S (Nat.max (height left_) (height right_))
  end.

(** The [count] fields of the leaves, added up. *)
Fixpoint leafCount (t : tree) : nat :=
  match t with
  | Leaf _ count _ => count
  | Node _ _ left_ right_ => (leafCount left_ + leafCount right_)%nat
  end.

(** Every count stored in a tally is positive. *)
Definition positive (votes : counter) : Prop :=
  ∀ c n, votes !! c = Some n → (0 < n)%nat.

(** The exact sum of a vector of numbers. *)
Definition sumQ (l : list Q) : Q := foldr Qplus 0%Q l.

(** *** Feature extraction *)

(** [hist[Math.floor(v / 64)]++] on a four-bin histogram.  [v] is an element
    of a [Uint8ClampedArray], between 0 and 255, so the bin exists. *)
Definition bump (hist : list Z) (v : Z) : list Z :=
  alter Z.succ (Z.to_nat (v / 64)) hist.

(** The loop over the RGBA buffer, four bytes a pixel.  The buffer of a canvas
    holds whole pixels. *)
Fixpoint histograms (data : list Z) (rHist gHist bHist : list Z)
  : list Z * list Z * list Z :=
  match data with
  | r :: g :: b :: _ :: rest => histograms rest (bump rHist r) (bump gHist g) (bump bHist b)
  | _ => (rHist, gHist, bHist)
  end.

(** [hist.reduce((sum, val, idx) => sum + val * (idx * 64 + 32), 0)] *)
Definition weightedSum (hist : list Z) : Z :=
  foldl Z.add 0 (imap (λ idx val, val * (Z.of_nat idx * 64 + 32)) hist).

Record split := {
  featureIndex : nat;
  threshold : option Q;
  gain : Q
}.

Record forest := {
  trees : list tree;
  accuracy : Q
}.

Record dataset := {
  images : list string;
  labels : list nat
}.

Record trainer := {
  model : option forest;
  isTrained : bool;
  t_features : list featureVector;
  t_labels : list nat;
  numTrees : nat;
  classNames : list string
}.

Definition new : trainer :=
  {| model := None; isTrained := false; t_features := []; t_labels := [];
     numTrees := 50; classNames := [] |}.

Record trainResult := {
  r_accuracy : Q;
  r_trees : nat
}.

(** [`Class ${i}`] *)
Definition className (i : nat) : string := "Class " +:+ pretty i.

(** The counting loop of [evaluate], from index [i] on.  A label past the end
    of [testLabels] is [undefined] and equals no prediction. *)
Fixpoint countCorrect (trees : list tree) (testLabels : list nat) (i : nat)
    (rest : list featureVector) (correct : Z) : completion Z :=
  match rest with
  | [] => Return correct
  | f :: rest' =>
      match predictInstance f trees with
      | Throw e => Throw e
      | Return prediction =>
          countCorrect trees testLabels (S i) rest'
            (match testLabels !! i with
             | Some label => if strictEq prediction label then correct + 1 else correct
             | None => correct
             end)
      end
  end.

(** What [evaluate] returns; [e_accuracy] is [None] for [NaN], the quotient
    0 / 0 of an empty test set. *)
Record evaluateResult := {
  e_accuracy : option Q;
  e_trees : nat
}.

Section Trainer.
Context `{JsNumber}.
(** The image collaborator: the 16x16 RGBA buffer of a decoded data URL, or
    nothing when the image fails to load. *)
Context (getImageData : string → option (list Z)).
(** The random source: [randomIndex n] is [Math.floor(Math.random() * n)]. *)
Context {rng : Type} (randomIndex : nat → rng → nat * rng).

(** [totalPixels] is 256 for the 16x16 canvas the extractor draws on. *)
Definition computeImageFeatures (data : list Z) : featureVector :=
  let '(rHist, gHist, bHist) :=
    histograms data [0; 0; 0; 0] [0; 0; 0; 0] [0; 0; 0; 0] in
  let totalPixels := (Z.of_nat (length data) # 4)%Q in
  let normalize := λ val : Z, fdiv (inject_Z val) totalPixels in
  let mean := λ hist, fdiv (fdiv (inject_Z (weightedSum hist)) totalPixels) 255 in
  (normalize <$> rHist) ++ (normalize <$> gHist) ++ (normalize <$> bHist)
  ++ [mean rHist; mean gHist; mean bHist].

Definition extractImageFeatures (imageDataUrl : string) : completion featureVector :=
  match getImageData imageDataUrl with
  | Some data => Return (computeImageFeatures data)
  | None => Throw (Error "Failed to load image")
  end.

(** The progress callback is taken to return normally. *)
Definition extractFeatures (images : list string) : list featureVector :=
  foldl (λ features imageDataUrl,
           match extractImageFeatures imageDataUrl with
           | Return feature => features ++ [feature]
           | Throw _ => features ++ [replicate 24 0%Q]
           end) [] images.

(** *** Entropy and information gain *)

Definition calculateEntropy (labels : list nat) : Q :=
  match labels with
  | [] => 0%Q
  | _ =>
      foldl (λ entropy count,
               let probability := jsdiv (Z.of_nat count) (Z.of_nat (length labels)) in
               fsub entropy (fmul probability (log2 probability)))
            0%Q (values (tally labels))
  end.

(** The two passes that split parallel arrays on
    [features[i][featureIndex] <= threshold]. *)
Fixpoint splitLabels (features : list featureVector) (labels : list nat)
    (featureIndex : nat) (threshold : option Q) : list nat * list nat :=
  match features, labels with
  | f :: features', l :: labels' =>
      let '(leftLabels, rightLabels) :=
        splitLabels features' labels' featureIndex threshold in
      if jsle (f !! featureIndex) threshold
      then (l :: leftLabels, rightLabels)
      else (leftLabels, l :: rightLabels)
  | _, _ => ([], [])
  end.

Fixpoint splitFeatures (features : list featureVector)
    (featureIndex : nat) (threshold : option Q)
  : list featureVector * list featureVector :=
  match features with
  | f :: features' =>
      let '(leftFeatures, rightFeatures) :=
        splitFeatures features' featureIndex threshold in
      if jsle (f !! featureIndex) threshold
      then (f :: leftFeatures, rightFeatures)
      else (leftFeatures, f :: rightFeatures)
  | [] => ([], [])
  end.

Definition calculateInformationGain (features : list featureVector)
    (labels : list nat) (featureIndex : nat) (threshold : option Q) : Q :=
  let '(leftLabels, rightLabels) :=
    splitLabels features labels featureIndex threshold in
  let total := Z.of_nat (length labels) in
  let leftEntropy := calculateEntropy leftLabels in
  let rightEntropy := calculateEntropy rightLabels in
  fsub (fsub (calculateEntropy labels)
             (fmul (jsdiv (Z.of_nat (length leftLabels)) total) leftEntropy))
       (fmul (jsdiv (Z.of_nat (length rightLabels)) total) rightEntropy).

(** *** Computations that draw random numbers, may throw, and may loop

    [None] is a run that has not finished within the given number of loop
    iterations. *)
Definition M (A : Type) : Type := rng → option (completion A * rng).

Definition ret {A} (a : A) : M A := λ g, Some (Return a, g).
Definition raise {A} (e : exn) : M A := λ g, Some (Throw e, g).
Definition bind {A B} (k : A → M B) (m : M A) : M B :=
  λ g, match m g with
       | None => None
       | Some (Throw e, g') => Some (Throw e, g')
       | Some (Return a, g') => k a g'
       end.
Definition lift {A} (c : completion A) : M A := λ g, Some (c, g).
Definition draw (n : nat) : M nat :=
  λ g, let '(i, g') := randomIndex n g in Some (Return i, g').

#[local] Instance M_bind : MBind M := @bind.

(** The [for] loop over five candidate thresholds of one feature. *)
Fixpoint tryThresholds (n : nat) (features : list featureVector) (labels : list nat)
    (featureIndex : nat) (uniqueValues : list (option Q))
    (bestGain : Q) (bestSplit : option split) : M (Q * option split) :=
  match n with
  | O => ret (bestGain, bestSplit)
  | S n' =>
      i ← draw (length uniqueValues) ;
      let threshold := mjoin (uniqueValues !! i) in
      let gain := calculateInformationGain features labels featureIndex threshold in
      if Qltb bestGain gain
      then tryThresholds n' features labels featureIndex uniqueValues gain
             (Some {| featureIndex := featureIndex; threshold := threshold; gain := gain |})
      else tryThresholds n' features labels featureIndex uniqueValues bestGain bestSplit
  end.

(** The [while] loop of [findBestSplit]; [fuel] bounds its iterations. *)
Fixpoint searchFeatures (fuel : nat) (features : list featureVector) (labels : list nat)
    (numFeatures numFeaturesToTry : nat) (triedFeatures : gset nat)
    (bestGain : Q) (bestSplit : option split) : M (option split) :=
  if (size triedFeatures <? numFeaturesToTry)%nat then
    match fuel with
    | O => λ _, None
    | S fuel' =>
        featureIndex ← draw numFeatures ;
        if decide (featureIndex ∈ triedFeatures)
        then searchFeatures fuel' features labels numFeatures numFeaturesToTry
               triedFeatures bestGain bestSplit
        else
          let triedFeatures := {[featureIndex]} ∪ triedFeatures in
          let values := (λ f : featureVector, f !! featureIndex) <$> features in
          let uniqueValues := unique sameValue values in
          if (length uniqueValues <=? 1)%nat
          then searchFeatures fuel' features labels numFeatures numFeaturesToTry
                 triedFeatures bestGain bestSplit
          else
            best ← tryThresholds 5 features labels featureIndex uniqueValues
                     bestGain bestSplit ;
            searchFeatures fuel' features labels numFeatures numFeaturesToTry
              triedFeatures (fst best) (snd best)
    end
  else ret bestSplit.

Definition findBestSplit (fuel : nat) (features : list featureVector)
    (labels : list nat) : M (option split) :=
  match features with
  | [] => ret None
  | first :: _ =>
      let numFeatures := length first in
      let numFeaturesToTry := Nat.max 1 (Nat.sqrt numFeatures) in
      searchFeatures fuel features labels numFeatures numFeaturesToTry ∅ (-1)%Q None
  end.

(** *** Tree induction

    [growTree] is [trainDecisionTree] with the two depth arguments replaced
    by their difference [maxDepth - depth], which each recursive call
    decreases by one and whose reaching 0 is [depth >= maxDepth]. *)
Fixpoint growTree (fuel : nat) (remaining : nat)
    (features : list featureVector) (labels : list nat) : M tree :=
  match remaining with
  | O => lift (createLeafNode labels)
  | S remaining' =>
      match features with
      | [] => lift (createLeafNode labels)
      | _ =>
          match unique Nat.eqb labels with
          | [only] => ret (Leaf only (length labels) None)
          | _ =>
              bestSplit ← findBestSplit fuel features labels ;
              match bestSplit with
              | None => lift (createLeafNode labels)
              | Some s =>
                  let '(leftFeatures, rightFeatures) :=
                    splitFeatures features (featureIndex s) (threshold s) in
                  let '(leftLabels, rightLabels) :=
                    splitLabels features labels (featureIndex s) (threshold s) in
                  left_ ← growTree fuel remaining' leftFeatures leftLabels ;
                  right_ ← growTree fuel remaining' rightFeatures rightLabels ;
                  ret (Node (featureIndex s) (threshold s) left_ right_)
              end
          end
      end
  end.

Definition trainDecisionTree (fuel : nat) (features : list featureVector)
    (labels : list nat) (depth maxDepth : nat) : M tree :=
  growTree fuel (maxDepth - depth) features labels.

(** The bootstrap loop: [numSamples] draws with replacement.  The two arrays
    are parallel, so the label read at a drawn index exists. *)
Fixpoint bootstrap (n : nat) (features : list featureVector) (labels : list nat)
    (sampleFeatures : list featureVector) (sampleLabels : list nat)
  : M (list featureVector * list nat) :=
  match n with
  | O => ret (sampleFeatures, sampleLabels)
  | S n' =>
      randomIndex ← draw (length features) ;
      bootstrap n' features labels
        (sampleFeatures ++ [features !!! randomIndex])
        (sampleLabels ++ [labels !!! randomIndex])
  end.

Definition calculateAccuracy (features : list featureVector) (labels : list nat)
    (trees : list tree) : completion Q :=
  let fix loop (i : nat) (rest : list featureVector) (correct : Z) : completion Z :=
    match rest with
    | [] => Return correct
    | f :: rest' =>
        match predictInstance f trees with
        | Throw e => Throw e
        | Return prediction =>
            loop (S i) rest'
              (if strictEq prediction (labels !!! i) then correct + 1 else correct)
        end
    end in
  match loop 0%nat features 0 with
  | Throw e => Throw e
  | Return correct => Return (jsdiv correct (Z.of_nat (length features)))
  end.

(** The loop over [numTrees] trees. *)
Fixpoint growForest (fuel : nat) (n : nat) (features : list featureVector)
    (labels : list nat) (trees : list tree) : M (list tree) :=
  match n with
  | O => ret trees
  | S n' =>
      sample ← bootstrap (length features) features labels [] [] ;
      tree ← trainDecisionTree fuel (fst sample) (snd sample) 0 10 ;
      growForest fuel n' features labels (trees ++ [tree])
  end.

Definition trainRandomForest (fuel : nat) (numTrees : nat)
    (features : list featureVector) (labels : list nat) : M forest :=
  trees ← growForest fuel numTrees features labels [] ;
  accuracy ← lift (calculateAccuracy features labels trees) ;
  ret {| trees := trees; accuracy := accuracy |}.

(** [train]: the trainer after the call, and how the call completed. *)
Definition train (fuel : nat) (t : trainer) (d : dataset) (g : rng)
  : option (trainer * completion trainResult * rng) :=
  match images d with
  | [] => Some (t, Throw (Error "No training data available"), g)
  | _ =>
      let numClasses := numClassesOf (labels d) in
      let features := extractFeatures (images d) in
      let t1 := {| model := model t; isTrained := isTrained t;
                   t_features := features; t_labels := labels d;
                   numTrees := numTrees t;
                   classNames := className <$> seq 0 numClasses |} in
      match trainRandomForest fuel (numTrees t) features (labels d) g with
      | None => None
      | Some (Throw e, g') => Some (t1, Throw e, g')
      | Some (Return m, g') =>
          Some ({| model := Some m; isTrained := true;
                   t_features := features; t_labels := labels d;
                   numTrees := numTrees t; classNames := classNames t1 |},
                Return {| r_accuracy := accuracy m; r_trees := numTrees t |}, g')
      end
  end.

(** [predict] *)
Definition predict (t : trainer) (imageDataUrl : string) : completion (list Q) :=
  if negb (isTrained t) then Throw (Error "Model not trained yet")
  else
    match extractImageFeatures imageDataUrl with
    | Throw e => Throw e
    | Return features =>
        match model t with
        | None => Throw (TypeError "Cannot read properties of null (reading 'trees')")
        | Some m =>
            let votes := castVotes features (trees m) in
            let totalTrees := length (trees m) in
            let numClasses := numClassesOf (t_labels t) in
            Return ((λ i, jsdiv (Z.of_nat (count votes i)) (Z.of_nat totalTrees))
                      <$> seq 0 numClasses)
        end
    end.

(** [evaluate].  The trees are read inside the loop only, so a trainer
    without a model fails on a non-empty test set only. *)
Definition evaluate (t : trainer) (testImages : list string) (testLabels : list nat)
  : completion evaluateResult :=
  if negb (isTrained t) then Throw (Error "Model not trained yet")
  else
    let testFeatures := extractFeatures testImages in
    let counted :=
      match model t, testFeatures with
      | None, [] => Return 0
      | None, _ :: _ =>
          Throw (TypeError "Cannot read properties of null (reading 'trees')")
      | Some m, _ => countCorrect (trees m) testLabels 0 testFeatures 0
      end in
    match counted with
    | Throw e => Throw e
    | Return correct =>
        Return {| e_accuracy :=
                    match testFeatures with
                    | [] => None
                    | _ => Some (jsdiv correct (Z.of_nat (length testFeatures)))
                    end;
                  e_trees := numTrees t |}
    end.

End Trainer.
End RandomForestTrainer.

(** ** Objects with ordered keys

    A JavaScript object whose property order is observed (through
    [Object.entries]) is an association list without duplicate keys:
    assigning to an existing key replaces its value in place, assigning to a
    new key appends it. *)

Definition object (V : Type) : Type := list (string * V).

Fixpoint assign {V} (key : string) (v : V) (o : object V) : object V :=
  match o with
  | [] => [(key, v)]
  | (k, w) :: o' =>
      if decide (key = k) then (key, v) :: o' else (k, w) :: assign key v o'
  end.

Fixpoint get {V} (key : string) (o : object V) : option V :=
  match o with
  | [] => None
  | (k, w) :: o' => if decide (key = k) then Some w else get key o'
  end.

(** A trained or untrained model held in a slot of the manager, as far as
    the manager and the predictor read it.  The three trainer classes keep
    [isTrained] a boolean. *)
Record modelObject := {
  isTrained : bool
}.

(** ** The model registry: [ModelManager] *)

Module ModelManager.

Inductive value :=
  | Num (q : Q)
  | Str (s : string)
  | Shape (dims : list Z).

(** A model descriptor, the plain object a trainer's [saveModel] returns. *)
Abbreviation descriptor := (gmap string value).

(** Descriptors are objects with identity: the ledger holds references into
    [store], and [loc] is a position in it. *)
Definition loc := nat.

Record manager := {
  models : object (option modelObject);
  evaluationResults : gmap string (gmap string value);
  savedModels : list loc;
  isTraining : bool;
  store : list descriptor
}.

Definition emptySlots : object (option modelObject) :=
  [("logisticRegression", None); ("randomForest", None); ("cnn", None)].

(** The constructor. *)
Definition new : manager :=
  {| models := emptySlots; evaluationResults := ∅; savedModels := [];
     isTraining := false; store := [] |}.

(** [['logisticRegression', 'randomForest', 'cnn'].includes(type)] *)
Definition validType (type : string) : bool :=
  bool_decide (type ∈ ["logisticRegression"; "randomForest"; "cnn"]).

Definition invalid {A} (type : string) : completion A :=
  Throw (Error ("Invalid model type: " +:+ type)).

(** Disposing the previous occupant releases framework memory only; it
    changes no field of the manager. *)
Definition setModel (m : manager) (type : string) (model : option modelObject)
  : manager * completion unit :=
  if validType type
  then ({| models := assign type model (models m);
           evaluationResults := evaluationResults m;
           savedModels := savedModels m;
           isTraining := isTraining m;
           store := store m |}, Return ())
  else (m, invalid type).

Definition getModel (m : manager) (type : string) : completion (option modelObject) :=
  if validType type then Return (mjoin (get type (models m))) else invalid type.

(** What [slot && slot.isTrained === true] evaluates to: [null] for an empty
    slot, a boolean for a held model.  The three keys are always present, so
    the slot of a recognised kind is never [undefined]. *)
Inductive nullOrBoolean :=
  | Null
  | Boolean (b : bool).

(** Truthiness, as [!v] and [filter(Boolean)] read it. *)
Definition truthy (v : nullOrBoolean) : bool :=
  match v with
  | Null => false
  | Boolean b => b
  end.

Definition isModelTrained (m : manager) (type : string) : nullOrBoolean :=
  if validType type
  then match mjoin (get type (models m)) with
       | Some model => Boolean (isTrained model)
       | None => Null
       end
  else Boolean false.

Definition setEvaluationResults (m : manager) (type : string)
    (results : gmap string value) : manager * completion unit :=
  if validType type
  then ({| models := models m;
           evaluationResults := <[type := results]> (evaluationResults m);
           savedModels := savedModels m;
           isTraining := isTraining m;
           store := store m |}, Return ())
  else (m, invalid type).

Definition getEvaluationResults (m : manager) (type : string)
  : completion (option (gmap string value)) :=
  if validType type then Return (evaluationResults m !! type) else invalid type.

Definition getAllEvaluationResults (m : manager) : gmap string (gmap string value) :=
  evaluationResults m.

(** [saveModel].  [fromModel] is the completion of the held model's own
    [saveModel()]: each trainer class of the repository returns a newly
    built object literal, which is allocated here at a fresh location before
    its [id] is written. *)
Definition saveModel (m : manager) (type : string)
    (fromModel : completion descriptor) : manager * completion loc :=
  if negb (truthy (isModelTrained m type))
  then (m, Throw (Error ("Model " +:+ type +:+ " is not trained")))
  else
    match fromModel with
    | Throw e => (m, Throw e)
    | Return literal =>
        let modelInfo := length (store m) in
        let allocated := store m ++ [literal] in
        let id := Num (inject_Z (Z.of_nat (length (savedModels m)))) in
        ({| models := models m;
            evaluationResults := evaluationResults m;
            savedModels := savedModels m ++ [modelInfo];
            isTraining := isTraining m;
            store := alter (insert "id" id) modelInfo allocated |},
         Return modelInfo)
    end.

(** [[...this.savedModels]]: a new array of the same references. *)
Definition getSavedModels (m : manager) : list loc := savedModels m.

Definition getTrainingStatus (m : manager) : object nullOrBoolean :=
  (λ type, (type, isModelTrained m type))
    <$> ["logisticRegression"; "randomForest"; "cnn"].

Definition getTrainedModelsCount (m : manager) : nat :=
  length (filter (λ v, truthy v = true) (snd <$> getTrainingStatus m)).

Definition setTrainingStatus (m : manager) (training : bool) : manager :=
  {| models := models m; evaluationResults := evaluationResults m;
     savedModels := savedModels m; isTraining := training; store := store m |}.

Definition isAnyModelTraining (m : manager) : bool := isTraining m.

Definition reset (m : manager) : manager :=
  {| models := emptySlots; evaluationResults := ∅;
     savedModels := savedModels m; isTraining := false; store := store m |}.

(** A trainer held in a slot changes its own [isTrained] when its [train]
    or [dispose] runs. *)
Definition modelChanged (m : manager) (type : string) (trained : bool) : manager :=
  match mjoin (get type (models m)) with
  | Some _ =>
      {| models := assign type (Some {| isTrained := trained |}) (models m);
         evaluationResults := evaluationResults m;
         savedModels := savedModels m;
         isTraining := isTraining m;
         store := store m |}
  | None => m
  end.

(** The operations a client can run against one manager. *)
Inductive operation :=
  | SetModel (type : string) (model : option modelObject)
  | GetModel (type : string)
  | IsModelTrained (type : string)
  | SetEvaluationResults (type : string) (results : gmap string value)
  | GetEvaluationResults (type : string)
  | GetAllEvaluationResults
  | SaveModel (type : string) (fromModel : completion descriptor)
  | GetSavedModels
  | GetTrainingStatus
  | GetTrainedModelsCount
  | SetTrainingStatus (training : bool)
  | IsAnyModelTraining
  | Reset
  | ModelChanged (type : string) (trained : bool).

Definition step (m : manager) (op : operation) : manager :=
  match op with
  | SetModel type model => fst (setModel m type model)
  | SetEvaluationResults type results => fst (setEvaluationResults m type results)
  | SaveModel type fromModel => fst (saveModel m type fromModel)
  | SetTrainingStatus training => setTrainingStatus m training
  | Reset => reset m
  | ModelChanged type trained => modelChanged m type trained
  | GetModel _ | IsModelTrained _ | GetEvaluationResults _
  | GetAllEvaluationResults | GetSavedModels | GetTrainingStatus
  | GetTrainedModelsCount | IsAnyModelTraining => m
  end.

Definition run (ops : list operation) : manager := foldl step new ops.

(** The [id] field of each ledger entry, in ledger order. *)
Definition ledgerIds (m : manager) : list (option value) :=
  (λ l, store m !! l ≫= (λ d, d !! "id")) <$> savedModels m.

(** The ledger entries themselves, in ledger order. *)
Definition ledgerEntries (m : manager) : list (option descriptor) :=
  (λ l, store m !! l) <$> savedModels m.

(** Every reference in the ledger points into the store, at a descriptor whose
    [id] is the position of the reference in the ledger. *)
Definition ledgerOk (m : manager) : Prop :=
  Forall (λ l, (l < length (store m))%nat) (savedModels m)
  ∧ ledgerIds m
    = (λ i, Some (Num (inject_Z (Z.of_nat i)))) <$> seq 0 (length (savedModels m)).

(** What an operation leaves alone: the ledger grows at the end only, and the
    descriptors it already refers to stay as they are. *)
Definition extends (m m' : manager) : Prop :=
  savedModels m `prefix_of` savedModels m'
  ∧ ∀ l, (l < length (store m))%nat → store m' !! l = store m !! l.

(** The backend kinds, in the order of the constructor. *)
Definition kinds : list string := ["logisticRegression"; "randomForest"; "cnn"].

End ModelManager.

(** ** The prediction aggregator: [Predictor] *)

Module Predictor.

Record prediction := {
  className : string;
  probability : Q
}.

Record modelPrediction := {
  predictions : list prediction;
  inferenceTime : Q;
  error : option string
}.

(** [Array.prototype.sort] with the comparator [b.probability - a.probability]:
    a stable sort, descending. *)
Fixpoint insertSorted (x : prediction) (l : list prediction) : list prediction :=
  match l with
  | [] => [x]
  | y :: l' =>
      if Qle_bool (probability y) (probability x)
      then x :: y :: l'
      else y :: insertSorted x l'
  end.

Definition sortDescending (l : list prediction) : list prediction :=
  foldr insertSorted [] l.

(** [probabilities] is [None] when the value is not an array. *)
Definition formatPredictions (probabilities : option (list Q))
    (classNames : list string) : list prediction :=
  match probabilities with
  | None => [{| className := "Invalid prediction"; probability := 0 |}]
  | Some ps =>
      take 5 (sortDescending
        (imap (λ index p,
                 {| className :=
                      match classNames !! index with
                      | Some name => if decide (name = "") then "Class " +:+ pretty index else name
                      | None => "Class " +:+ pretty index
                      end;
                    probability := p |}) ps))
  end.

(** How the awaited [model.predict(imageDataUrl)] settles; [elapsed] is the
    difference of the two [performance.now()] readings around it. *)
Inductive predictOutcome :=
  | Fulfilled (probabilities : option (list Q)) (elapsed : Q)
  | Failed (message : string).

Definition notTrained : modelPrediction :=
  {| predictions := [{| className := "Model not trained"; probability := 0 |}];
     inferenceTime := 0; error := None |}.

Definition predictionError (message : string) : modelPrediction :=
  {| predictions := [{| className := "Prediction Error"; probability := 0 |}];
     inferenceTime := 0; error := Some message |}.

Definition predicted (probabilities : option (list Q)) (elapsed : Q)
    (classNames : list string) : modelPrediction :=
  {| predictions := formatPredictions probabilities classNames;
     inferenceTime := elapsed; error := None |}.

(** The record written after the [await], in the [try] or in the [catch]. *)
Definition recordOf (o : predictOutcome) (classNames : list string) : modelPrediction :=
  match o with
  | Fulfilled probabilities elapsed => predicted probabilities elapsed classNames
  | Failed message => predictionError message
  end.

Record predictor := {
  isPredicting : bool
}.

(** How a call stands: its promise has settled, or the call is suspended at
    [await model.predict(...)] for the backend [awaited]. *)
Inductive settled :=
  | Resolved (result : object modelPrediction)
  | Rejected (e : exn).

Record suspended := {
  classNames_ : list string;
  awaited : string;
  remaining : list (string * option modelObject);
  soFar : object modelPrediction
}.

Inductive status :=
  | Settled (r : settled)
  | Awaiting (k : suspended).

(** [model && model.isTrained] *)
Definition trained (model : option modelObject) : bool :=
  match model with
  | Some m => isTrained m
  | None => false
  end.

(** The [for ... of Object.entries(models)] loop, run until it suspends or
    ends.  Every trainer's [predict] is an [async] function, so calling it
    yields a promise and the [await] suspends the caller.  An entry is read
    once, when the loop reaches it: the [isTrained] of an entry is the value
    the field has at that moment. *)
Fixpoint loop (classNames : list string) (entries : list (string * option modelObject))
    (predictions : object modelPrediction) : status :=
  match entries with
  | [] => Settled (Resolved predictions)
  | (type, model) :: entries' =>
      if trained model
      then Awaiting {| classNames_ := classNames; awaited := type;
                       remaining := entries'; soFar := predictions |}
      else loop classNames entries' (assign type notTrained predictions)
  end.

(** [finally { this.isPredicting = false }] runs when the call settles. *)
Definition finish (p : predictor) (s : status) : predictor * status :=
  match s with
  | Settled _ => ({| isPredicting := false |}, s)
  | Awaiting _ => (p, s)
  end.

(** [!imageDataUrl || typeof imageDataUrl !== 'string'], the argument being
    [None] when it is not a string. *)
Definition invalidUrl (imageDataUrl : option string) : bool :=
  match imageDataUrl with
  | Some s => bool_decide (s = "")
  | None => true
  end.

(** The call, up to its first suspension: [models] is
    [this.modelManager.models] and [classNames] the names of
    [this.datasetManager.classes] at the time of the call. *)
Definition predictImage (p : predictor) (models : object (option modelObject))
    (classNames : list string) (imageDataUrl : option string) : predictor * status :=
  if isPredicting p
  then (p, Settled (Rejected (Error "Prediction already in progress")))
  else
    let p := {| isPredicting := true |} in
    if invalidUrl imageDataUrl
    then finish p (Settled (Rejected (Error "Invalid image data URL")))
    else finish p (loop classNames models []).

(** The continuation of a suspended call once the awaited promise settles. *)
Definition resume (p : predictor) (k : suspended) (o : predictOutcome)
  : predictor * status :=
  finish p (loop (classNames_ k) (remaining k)
              (assign (awaited k) (recordOf o (classNames_ k)) (soFar k))).

(** A call driven to its end: each awaited promise settles as [answer] says
    for the backend it belongs to. *)
Fixpoint settleAll (answer : string → predictOutcome) (n : nat)
    (ps : predictor * status) : predictor * status :=
  match n, snd ps with
  | S n', Awaiting k => settleAll answer n' (resume (fst ps) k (answer (awaited k)))
  | _, _ => ps
  end.

(** The record the specification gives for one backend, written out from
    its words and not with the record builders the loop uses: the formatted
    predictions and the elapsed time of a trained backend whose [predict]
    succeeds, the error record of one whose [predict] fails, the stub of an
    empty or untrained slot. *)
Definition expected (answer : string → predictOutcome) (classNames : list string)
    (entry : string * option modelObject) : string * modelPrediction :=
  (fst entry,
   match snd entry with
   | Some {| isTrained := true |} =>
       match answer (fst entry) with
       | Fulfilled probabilities elapsed =>
           {| predictions := formatPredictions probabilities classNames;
              inferenceTime := elapsed; error := None |}
       | Failed message =>
           {| predictions := [{| className := "Prediction Error"; probability := 0 |}];
              inferenceTime := 0; error := Some message |}
       end
   | _ =>
       {| predictions := [{| className := "Model not trained"; probability := 0 |}];
          inferenceTime := 0; error := None |}
   end).

(** *** Calls interleaved on one instance

    The event loop runs one piece of a call at a time: a new call up to its
    first suspension, or a suspended call from the promise it awaits. *)
Record system := {
  instance : predictor;
  inFlight : list suspended
}.

Inductive event :=
  | Call (models : object (option modelObject)) (classNames : list string)
         (imageDataUrl : option string)
  | Settle (i : nat) (o : predictOutcome).

Definition initial : system :=
  {| instance := {| isPredicting := false |}; inFlight := [] |}.

Definition inProgress : settled :=
  Rejected (Error "Prediction already in progress").

(** One event: the system after it and, when a call settled, its result. *)
Definition step (s : system) (e : event) : system * option settled :=
  match e with
  | Call models classNames imageDataUrl =>
      match predictImage (instance s) models classNames imageDataUrl with
      | (p, Settled r) => ({| instance := p; inFlight := inFlight s |}, Some r)
      | (p, Awaiting k) => ({| instance := p; inFlight := inFlight s ++ [k] |}, None)
      end
  | Settle i o =>
      match inFlight s !! i with
      | None => (s, None)
      | Some k =>
          match resume (instance s) k o with
          | (p, Settled r) =>
              ({| instance := p; inFlight := delete i (inFlight s) |}, Some r)
          | (p, Awaiting k') =>
              ({| instance := p; inFlight := <[i := k']> (inFlight s) |}, None)
          end
      end
  end.

Definition after (events : list event) : system :=
  foldl (λ s e, fst (step s e)) initial events.

(** The guard is held exactly while one accepted call is suspended. *)
Definition guardOk (s : system) : Prop :=
  (isPredicting (instance s) = true ∧ ∃ k, inFlight s = [k])
  ∨ (isPredicting (instance s) = false ∧ inFlight s = []).

(** *** Confusion matrix *)

(** [Math.max(...prediction)] on a non-empty array. *)
Definition maxOf (first : Q) (rest : list Q) : Q :=
  foldl (λ best x, if Qle_bool x best then best else x) first rest.

(** [prediction.indexOf(v)]: the first position holding [v], or -1. *)
Fixpoint indexOf (v : Q) (l : list Q) (from : Z) : Z :=
  match l with
  | [] => -1
  | x :: l' => if Qeq_bool x v then from else indexOf v l' (from + 1)
  end.

(** [prediction.indexOf(Math.max(...prediction))]; the maximum of no numbers
    is [-Infinity], which no array of numbers holds. *)
Definition argmax (prediction : list Q) : Z :=
  match prediction with
  | [] => -1
  | first :: rest => indexOf (maxOf first rest) prediction 0
  end.

(** The test that guards the increment. *)
Definition inRange (numClasses : nat) (actualClass predictedClass : Z) : bool :=
  (0 <=? actualClass) && (actualClass <? Z.of_nat numClasses)
  && (0 <=? predictedClass) && (predictedClass <? Z.of_nat numClasses).

(** [matrix[actualClass][predictedClass]++] *)
Definition incrementCell (matrix : Metrics.matrix) (actualClass predictedClass : Z)
  : Metrics.matrix :=
  alter (alter Z.succ (Z.to_nat predictedClass)) (Z.to_nat actualClass) matrix.

(** The body of the [forEach]: [predictions] is walked together with
    [actualLabels], and a prediction past the end of the labels is skipped. *)
Fixpoint countSamples (numClasses : nat) (predictions : list (list Q))
    (actualLabels : list Z) (matrix : Metrics.matrix) : Metrics.matrix :=
  match predictions, actualLabels with
  | prediction :: predictions', actualClass :: actualLabels' =>
      let predictedClass := argmax prediction in
      countSamples numClasses predictions' actualLabels'
        (if inRange numClasses actualClass predictedClass
         then incrementCell matrix actualClass predictedClass
         else matrix)
  | _, _ => matrix
  end.

(** An argument is [None] when it is [null] or [undefined].  Labels are
    integers. *)
Definition generateConfusionMatrix (predictions : option (list (list Q)))
    (actualLabels : option (list Z)) (classNames : option (list string))
  : completion Metrics.matrix :=
  match predictions, actualLabels, classNames with
  | Some predictions, Some actualLabels, Some classNames =>
      let numClasses := length classNames in
      Return (countSamples numClasses predictions actualLabels
                (replicate numClasses (replicate numClasses 0)))
  | _, _, _ => Throw (Error "Invalid input for confusion matrix")
  end.

(** The sum of all cells of a matrix. *)
Definition total (matrix : Metrics.matrix) : Z :=
  Metrics.sumZ (Metrics.sumZ <$> matrix).

(** Whether a sample is counted, and whether it is counted on the diagonal. *)
Definition counted (numClasses : nat) (sample : list Q * Z) : bool :=
  inRange numClasses (snd sample) (argmax (fst sample)).
Definition hit (numClasses : nat) (sample : list Q * Z) : bool :=
  counted numClasses sample && (argmax (fst sample) =? snd sample).

(** *** Batch prediction *)

(** [error.message] *)
Definition messageOf (e : exn) : string :=
  match e with
  | Error message => message
  | TypeError message => message
  end.

(** One element of the array [predictBatch] returns. *)
Inductive batchItem :=
  | Predictions (result : object modelPrediction)
  | ItemError (message : string).

(** What one item of a batch meets when its turn comes: the slots and class
    names of that moment, and how the promises it awaits settle. *)
Record batchInput := {
  imageDataUrl_ : option string;
  models_ : object (option modelObject);
  names_ : list string;
  answer_ : string → predictOutcome
}.

(** The [for ... of] loop of [predictBatch], no other call being made on the
    instance meanwhile: each [await this.predictImage(...)] runs the call to
    its end.  [None] is a batch left waiting on a promise. *)
Fixpoint predictBatchLoop (p : predictor) (inputs : list batchInput)
    (batchPredictions : list batchItem) : option (predictor * list batchItem) :=
  match inputs with
  | [] => Some (p, batchPredictions)
  | input :: inputs' =>
      match settleAll (answer_ input) (length (models_ input))
              (predictImage p (models_ input) (names_ input) (imageDataUrl_ input)) with
      | (p', Settled (Resolved prediction)) =>
          predictBatchLoop p' inputs' (batchPredictions ++ [Predictions prediction])
      | (p', Settled (Rejected e)) =>
          predictBatchLoop p' inputs' (batchPredictions ++ [ItemError (messageOf e)])
      | (_, Awaiting _) => None
      end
  end.

(** [inputs] is [None] when the argument is not an array. *)
Definition predictBatch (p : predictor) (inputs : option (list batchInput))
  : option (predictor * completion (list batchItem)) :=
  match inputs with
  | None => Some (p, Throw (Error "Image data URLs must be an array"))
  | Some inputs =>
      match predictBatchLoop p inputs [] with
      | Some (p', batchPredictions) => Some (p', Return batchPredictions)
      | None => None
      end
  end.

(** What the specification of one batch item is, on an idle instance. *)
Definition expectedItem (input : batchInput) : batchItem :=
  if invalidUrl (imageDataUrl_ input)
  then ItemError "Invalid image data URL"
  else Predictions (expected (answer_ input) (names_ input) <$> models_ input).

(** *** Statistics over one aggregated result *)

Record stats := {
  totalModels : nat;
  trainedModels : nat;
  averageConfidence : Q;
  fastestModel : option string;
  slowestModel : option string
}.

(** The variables of the loop of [getPredictionStats]; [minTime] is [None]
    while it is [Infinity]. *)
Record statsLoop := {
  l_totalModels : nat;
  l_trainedModels : nat;
  totalConfidence : Q;
  confidenceCount : nat;
  minTime : option Q;
  maxTime : Q;
  l_fastestModel : option string;
  l_slowestModel : option string
}.

Definition statsStart : statsLoop :=
  {| l_totalModels := 0; l_trainedModels := 0; totalConfidence := 0;
     confidenceCount := 0; minTime := None; maxTime := 0;
     l_fastestModel := None; l_slowestModel := None |}.

(** [t < minTime] *)
Definition belowMin (t : Q) (minTime : option Q) : bool :=
  match minTime with
  | None => true
  | Some m => Qltb t m
  end.

Section Stats.
Context `{JsNumber}.

(** One iteration.  [result.predictions[0].probability] on an empty array
    reads a property of [undefined]. *)
Definition statsStep (s : statsLoop) (entry : string * modelPrediction)
  : completion statsLoop :=
  let '(modelType, result) := entry in
  match predictions result with
  | [] => Throw (TypeError "Cannot read properties of undefined (reading 'probability')")
  | top :: _ =>
      if Qltb 0 (probability top) then
        let fast := Qltb 0 (inferenceTime result)
                    && belowMin (inferenceTime result) (minTime s) in
        let minTime' := if fast then Some (inferenceTime result) else minTime s in
        let slow := Qltb 0 (inferenceTime result)
                    && Qltb (maxTime s) (inferenceTime result) in
        Return
          {| l_totalModels := S (l_totalModels s);
             l_trainedModels := S (l_trainedModels s);
             totalConfidence := fadd (totalConfidence s) (probability top);
             confidenceCount := S (confidenceCount s);
             minTime := minTime';
             maxTime := if slow then inferenceTime result else maxTime s;
             l_fastestModel := if fast then Some modelType else l_fastestModel s;
             l_slowestModel := if slow then Some modelType else l_slowestModel s |}
      else
        Return
          {| l_totalModels := S (l_totalModels s);
             l_trainedModels := l_trainedModels s;
             totalConfidence := totalConfidence s;
             confidenceCount := confidenceCount s;
             minTime := minTime s;
             maxTime := maxTime s;
             l_fastestModel := l_fastestModel s;
             l_slowestModel := l_slowestModel s |}
  end.

Fixpoint statsLoopOver (s : statsLoop) (entries : object modelPrediction)
  : completion statsLoop :=
  match entries with
  | [] => Return s
  | entry :: entries' =>
      match statsStep s entry with
      | Throw e => Throw e
      | Return s' => statsLoopOver s' entries'
      end
  end.

Definition getPredictionStats (predictions : object modelPrediction)
  : completion stats :=
  match statsLoopOver statsStart predictions with
  | Throw e => Throw e
  | Return s =>
      Return
        {| totalModels := l_totalModels s;
           trainedModels := l_trainedModels s;
           averageConfidence :=
             if (0 <? confidenceCount s)%nat
             then fdiv (totalConfidence s) (inject_Z (Z.of_nat (confidenceCount s)))
             else 0%Q;
           fastestModel := l_fastestModel s;
           slowestModel := l_slowestModel s |}
  end.

End Stats.

(** Whether a record takes part in the timing comparison. *)
Definition timed (result : modelPrediction) : bool :=
  match predictions result with
  | top :: _ => Qltb 0 (probability top) && Qltb 0 (inferenceTime result)
  | [] => false
  end.

(** *** Evaluation of every backend *)

(** An evaluation, the plain object a trainer's [evaluate] returns. *)
Abbreviation evaluation := (gmap string ModelManager.value).

Definition evaluationError (message : string) : evaluation :=
  {[ "accuracy" := ModelManager.Num 0; "error" := ModelManager.Str message ]}.

(** How the awaited [model.evaluate(images, labels)] settles. *)
Inductive evaluateOutcome :=
  | Evaluated (e : evaluation)
  | EvaluateFailed (message : string).

(** The loop of [evaluateAllModels], no other operation being run on the
    manager meanwhile.  On success the evaluation is stored in the result and
    then handed to the manager, whose rejection is caught like a failure of
    the evaluation. *)
Fixpoint evaluateLoop (answer : string → evaluateOutcome)
    (entries : list (string * option modelObject))
    (m : ModelManager.manager) (evaluations : object evaluation)
  : ModelManager.manager * object evaluation :=
  match entries with
  | [] => (m, evaluations)
  | (type, model) :: entries' =>
      if trained model then
        match answer type with
        | Evaluated e =>
            match ModelManager.setEvaluationResults m type e with
            | (m', Return _) => evaluateLoop answer entries' m' (assign type e evaluations)
            | (m', Throw err) =>
                evaluateLoop answer entries' m'
                  (assign type (evaluationError (messageOf err)) (assign type e evaluations))
            end
        | EvaluateFailed message =>
            evaluateLoop answer entries' m (assign type (evaluationError message) evaluations)
        end
      else
        evaluateLoop answer entries' m
          (assign type (evaluationError "Model not trained") evaluations)
  end.

(** [testData] is [None] when it, its images or its labels are missing. *)
Definition evaluateAllModels (m : ModelManager.manager) (testData : option unit)
    (answer : string → evaluateOutcome)
  : ModelManager.manager * completion (object evaluation) :=
  match testData with
  | None => (m, Throw (Error "Invalid test data"))
  | Some _ =>
      let '(m', evaluations) := evaluateLoop answer (ModelManager.models m) m [] in
      (m', Return evaluations)
  end.

(** *** Vocabulary of the statements about [formatPredictions] *)

(** The entry built for the probability at [index]. *)
Definition labelOf (classNames : list string) (index : nat) (p : Q) : prediction :=
  {| className :=
       match classNames !! index with
       | Some name => if decide (name = "") then "Class " +:+ pretty index else name
       | None => "Class " +:+ pretty index
       end;
     probability := p |}.

(** [a] may stand before [b] in a ranking. *)
Definition descending (a b : prediction) : Prop :=
  (probability b <= probability a)%Q.

(** *** Vocabulary of the statements about [generateConfusionMatrix] *)

(** An [n] by [n] matrix. *)
Definition shaped (n : nat) (matrix : Metrics.matrix) : Prop :=
  length matrix = n ∧ Forall (λ row, length row = n) matrix.

(** The sum of the diagonal cells. *)
Definition diagonal (matrix : Metrics.matrix) : Z :=
  Metrics.sumZ (Metrics.TP matrix <$> seq 0 (length matrix)).

(** *** Vocabulary of the statements about the statistics and evaluations *)

(** Whether the first prediction of a record has a positive probability. *)
Definition confident (result : modelPrediction) : bool :=
  match predictions result with
  | top :: _ => Qltb 0 (probability top)
  | [] => false
  end.

(** The evaluation one backend is to get, written out and not with the
    object builder the loop uses. *)
Definition expectedEvaluation (answer : string → evaluateOutcome)
    (entry : string * option modelObject) : string * evaluation :=
  (fst entry,
   match snd entry with
   | Some {| isTrained := true |} =>
       match answer (fst entry) with
       | Evaluated e => e
       | EvaluateFailed message =>
           {[ "accuracy" := ModelManager.Num 0; "error" := ModelManager.Str message ]}
       end
   | _ =>
       {[ "accuracy" := ModelManager.Num 0;
          "error" := ModelManager.Str "Model not trained" ]}
   end).

(** What the manager holds for a kind after [evaluateAllModels]. *)
Definition storedEvaluation (answer : string → evaluateOutcome)
    (m : ModelManager.manager) (type : string) : option evaluation :=
  match get type (ModelManager.models m) with
  | Some model =>
      if trained model
      then match answer type with
           | Evaluated e => Some e
           | EvaluateFailed _ => ModelManager.evaluationResults m !! type
           end
      else ModelManager.evaluationResults m !! type
  | None => ModelManager.evaluationResults m !! type
  end.

(** The fastest backend, as far as the loop has come: none while no record
    seen took part in the timing, otherwise a record seen whose time is the
    least. *)
Definition fastestOk (seen : object modelPrediction) (fastest : option string)
    (minTime : option Q) : Prop :=
  match fastest with
  | None => minTime = None ∧ Forall (λ e, timed (snd e) = false) seen
  | Some k =>
      ∃ r, (k, r) ∈ seen ∧ timed r = true ∧ minTime = Some (inferenceTime r)
           ∧ Forall (λ e, timed (snd e) = true →
                          (inferenceTime r <= inferenceTime (snd e))%Q) seen
  end.

(** The slowest backend, likewise. *)
Definition slowestOk (seen : object modelPrediction) (slowest : option string)
    (maxTime : Q) : Prop :=
  match slowest with
  | None => maxTime = 0%Q ∧ Forall (λ e, timed (snd e) = false) seen
  | Some k =>
      ∃ r, (k, r) ∈ seen ∧ timed r = true ∧ maxTime = inferenceTime r
           ∧ Forall (λ e, timed (snd e) = true →
                          (inferenceTime (snd e) <= inferenceTime r)%Q) seen
  end.

End Predictor.

(** ** The dataset: [DatasetManager] *)

Module DatasetManager.

(** What [validateImage] reads of its argument: whether it is a [File], its
    MIME type and its size in bytes. *)
Record imageFile := {
  isFile : bool;
  fileType : string;
  size : Z
}.

Record imageData := {
  i_id : nat;
  file : imageFile;
  dataUrl : string;
  classId : nat;
  timestamp : Z
}.

(** A class object.  Class objects have identity: the [classes] array holds
    references into [heap], and an object that has left the array can still
    be written through a reference taken earlier. *)
Record classObj := {
  id : nat;
  name : string;
  c_images : list imageData
}.

Definition loc := nat.

Record manager := {
  classes : list loc;
  dataset : RandomForestTrainer.dataset;
  heap : list classObj
}.

Definition minClassSize : nat := 5.
Definition maxImageSize : Z := 5 * 1024 * 1024.
Definition allowedFormats : list string :=
  ["image/jpeg"; "image/png"; "image/gif"; "image/webp"].

Definition emptyDataset : RandomForestTrainer.dataset :=
  {| RandomForestTrainer.images := []; RandomForestTrainer.labels := [] |}.

(** The constructor. *)
Definition new : manager :=
  {| classes := []; dataset := emptyDataset; heap := [] |}.

(** The objects a list of references points to, in order. *)
Definition deref (heap : list classObj) (refs : list loc) : list classObj :=
  omap (λ l, heap !! l) refs.

(** The class objects of the array, in order. *)
Definition classObjs (m : manager) : list classObj :=
  deref (heap m) (classes m).

(** [c.name === className] for the object a reference points to. *)
Definition named (m : manager) (className : string) (l : loc) : Prop :=
  name <$> heap m !! l = Some className.

#[global] Instance named_dec m className l : Decision (named m className l).
Proof. unfold named. apply _. Defined.

(** [this.classes.findIndex(c => c.name === className)] with the element
    found. *)
Definition findClass (m : manager) (className : string) : option (nat * loc) :=
  list_find (named m className) (classes m).

(** The double-quote character. *)
Definition quote : string := String (Ascii.ascii_of_nat 34) EmptyString.

(** [className] is [None] when the argument is not a string.  Names are
    taken to be ASCII, so that [length] counts their characters. *)
Definition addClass (m : manager) (className : option string)
  : manager * completion classObj :=
  match className with
  | None => (m, Throw (Error "Class name must be a non-empty string"))
  | Some className =>
      if decide (className = EmptyString)
      then (m, Throw (Error "Class name must be a non-empty string"))
      else if (50 <? String.length className)%nat
      then (m, Throw (Error "Class name too long (max 50 characters)"))
      else match findClass m className with
           | Some _ =>
               (m, Throw (Error ("Class " +:+ quote +:+ className +:+ quote
                                 +:+ " already exists")))
           | None =>
               let newClass := {| id := length (classes m); name := className;
                                  c_images := [] |} in
               ({| classes := classes m ++ [length (heap m)];
                   dataset := dataset m;
                   heap := heap m ++ [newClass] |}, Return newClass)
           end
  end.

(** [this.classes.forEach((c, i) => c.id = i)], from position [i] on. *)
Fixpoint renumber (heap : list classObj) (refs : list loc) (i : nat) : list classObj :=
  match refs with
  | [] => heap
  | l :: refs' =>
      renumber
        (alter (λ c, {| id := i; name := name c; c_images := c_images c |}) l heap)
        refs' (S i)
  end.

Definition deleteClass (m : manager) (className : string) : manager * bool :=
  match findClass m className with
  | Some (index, _) =>
      let classes' := delete index (classes m) in
      ({| classes := classes'; dataset := dataset m;
          heap := renumber (heap m) classes' 0 |}, true)
  | None => (m, false)
  end.

Definition validateImage (f : imageFile) : bool :=
  if negb (isFile f) then false
  else if negb (bool_decide (fileType f ∈ allowedFormats)) then false
  else if maxImageSize <? size f then false
  else if size f =? 0 then false
  else true.

(** A read in progress: the class object the file will go to. *)
Record pendingRead := {
  target : loc;
  p_file : imageFile
}.

(** [addImageToClass], up to the start of the read.  An argument is [None]
    when it is missing. *)
Definition addImageToClass (m : manager) (className : option string)
    (f : option imageFile) : completion pendingRead :=
  match className, f with
  | Some className, Some f =>
      if decide (className = EmptyString)
      then Throw (Error "Class name and image file are required")
      else if negb (validateImage f)
      then Throw (Error "Invalid image file. Supported formats: JPEG, PNG, GIF, WebP. Max size: 5MB")
      else match findClass m className with
           | Some (_, l) => Return {| target := l; p_file := f |}
           | None =>
               Throw (Error ("Class " +:+ quote +:+ className +:+ quote +:+ " not found"))
           end
  | _, _ => Throw (Error "Class name and image file are required")
  end.

(** How the [FileReader] ends; [now] is [Date.now()]. *)
Inductive readOutcome :=
  | Loaded (dataUrl : string) (now : Z)
  | ReadFailed
  | ReadAborted
  | ReadThrew (message : string).

(** The handlers of the reader: the image is pushed onto the class object
    taken when the call started, wherever that object is by now.  The
    reference of a read that [addImageToClass] started always points to an
    object, objects being never freed; the last case of [Loaded] is there
    for totality only. *)
Definition readSettled (m : manager) (r : pendingRead) (o : readOutcome)
  : manager * completion imageData :=
  match o with
  | Loaded url now =>
      match heap m !! target r with
      | Some c =>
          let image := {| i_id := length (c_images c); file := p_file r;
                          dataUrl := url; classId := id c; timestamp := now |} in
          ({| classes := classes m; dataset := dataset m;
              heap := alter (λ c, {| id := id c; name := name c;
                                     c_images := c_images c ++ [image] |})
                            (target r) (heap m) |},
           Return image)
      | None => (m, Throw (Error "Failed to process image: no class object"))
      end
  | ReadFailed => (m, Throw (Error "Failed to read image file"))
  | ReadAborted => (m, Throw (Error "Image reading was aborted"))
  | ReadThrew message => (m, Throw (Error ("Invalid image file: " +:+ message)))
  end.

Record validation := {
  isValid : bool;
  errors : list string
}.

Definition classError (c : classObj) : list string :=
  if (length (c_images c) <? minClassSize)%nat
  then ["Class " +:+ quote +:+ name c +:+ quote +:+ " needs at least "
        +:+ pretty minClassSize +:+ " images (currently: "
        +:+ pretty (length (c_images c)) +:+ ")"]
  else [].

Definition validateDataset (m : manager) : validation :=
  let errors :=
    (if (length (classes m) <? 2)%nat then ["At least 2 classes are required"] else [])
    ++ (classObjs m ≫= classError) in
  {| isValid := bool_decide (errors = []); errors := errors |}.

(** The two nested [forEach] loops filling the dataset. *)
Definition collect (cs : list classObj) : RandomForestTrainer.dataset :=
  {| RandomForestTrainer.images := cs ≫= (λ c, dataUrl <$> c_images c);
     RandomForestTrainer.labels := cs ≫= (λ c, (λ _, id c) <$> c_images c) |}.

Definition prepareTrainingData (m : manager)
  : manager * completion RandomForestTrainer.dataset :=
  let validation := validateDataset m in
  if isValid validation
  then
    let d := collect (classObjs m) in
    ({| classes := classes m; dataset := d; heap := heap m |}, Return d)
  else
    (m, Throw (Error ("Dataset validation failed: "
                      +:+ String.concat ", " (errors validation)))).

Definition getClassCount (m : manager) : nat := length (classes m).

Definition getTotalImages (m : manager) : nat :=
  foldl (λ total c, (total + length (c_images c))%nat) 0%nat (classObjs m).

Definition getClassDistribution (m : manager) : list (string * nat) :=
  (λ c, (name c, length (c_images c))) <$> classObjs m.

Definition clearAll (m : manager) : manager :=
  {| classes := []; dataset := emptyDataset; heap := heap m |}.

(** [this.datasetManager.classes.map(c => c.name)], as the predictor reads
    it. *)
Definition classNames (m : manager) : list string := name <$> classObjs m.

(** The operations a client can run against one manager; [ReadSettled] is the
    end of a read that an earlier [addImageToClass] started. *)
Inductive operation :=
  | AddClass (className : option string)
  | DeleteClass (className : string)
  | ReadSettled (r : pendingRead) (o : readOutcome)
  | PrepareTrainingData
  | ClearAll.

Definition step (m : manager) (op : operation) : manager :=
  match op with
  | AddClass className => fst (addClass m className)
  | DeleteClass className => fst (deleteClass m className)
  | ReadSettled r o => fst (readSettled m r o)
  | PrepareTrainingData => fst (prepareTrainingData m)
  | ClearAll => clearAll m
  end.

Definition run (ops : list operation) : manager := foldl step new ops.

(** The array holds distinct references to allocated objects, numbered
    0, 1, 2, ... in order and named differently. *)
Definition wellFormed (m : manager) : Prop :=
  NoDup (classes m)
  ∧ Forall (λ l, (l < length (heap m))%nat) (classes m)
  ∧ id <$> classObjs m = seq 0 (length (classes m))
  ∧ NoDup (name <$> classObjs m).

End DatasetManager.

(** ** Sample inputs

    Two decodable images (a red and a blue 16x16 square), any other URL
    failing to load; a deterministic stand-in for the random source; a
    two-sample dataset; and the trainer a training run over them leaves. *)

Module Sample.
Import RandomForestTrainer.

Definition getImageData (imageDataUrl : string) : option (list Z) :=
  if decide (imageDataUrl = "red") then Some (concat (replicate 256 [255; 0; 0; 255]))
  else if decide (imageDataUrl = "blue") then Some (concat (replicate 256 [0; 0; 255; 255]))
  else None.

(** The state counts the draws; draw number [s] yields [3 s mod n]. *)
Definition randomIndex (n : nat) (s : nat) : nat * nat :=
  ((3 * s) `mod` n, S s)%nat.

(** Another source: the draws of a script, then draw number [s] yields
    [s mod n]. *)
Definition scripted (n : nat) (s : list nat * nat) : nat * (list nat * nat) :=
  match fst s with
  | x :: script => ((x `mod` n)%nat, (script, snd s))
  | [] => ((snd s `mod` n)%nat, ([], S (snd s)))
  end.

Definition twoImages : dataset :=
  {| images := ["red"; "blue"]; labels := [0; 1]%nat |}.

Definition outcome : option (trainer * completion trainResult * nat) :=
  Eval vm_compute in
    train (H := exactNumber) getImageData randomIndex 100 new twoImages 0%nat.

Definition trained : trainer :=
  Eval vm_compute in
    match outcome with Some (t, _, _) => t | None => new end.

Definition result : trainResult :=
  Eval vm_compute in
    match outcome with
    | Some (_, Return r, _) => r
    | _ => {| r_accuracy := 0; r_trees := 0 |}
    end.

Definition finalState : nat :=
  Eval vm_compute in
    match outcome with Some (_, _, s) => s | None => 0%nat end.

End Sample.

(** * Theorems *)

(** ** Evaluation metrics *)

Section MetricsFacts.
Context `{JsNumber}.
Import Metrics.

Lemma cell_nonneg (m : matrix) (i j : nat) : nonneg m → 0 ≤ cell m i j.
Proof.
  intros Hm. unfold cell.
  destruct (m !! i) as [row|] eqn:Hrow; simpl; [|lia].
  destruct (row !! j) as [x|] eqn:Hx; simpl; [|lia].
  eapply Forall_lookup_1 in Hrow; [|exact Hm].
  eapply Forall_lookup_1 in Hx; [|exact Hrow]. exact Hx.
Qed.

Lemma sumZ_nonneg (l : list Z) : Forall (λ x, 0 ≤ x) l → 0 ≤ sumZ l.
Proof. induction 1; simpl; lia. Qed.

Lemma countErrors_from (m : matrix) (i : nat) (js : list nat) (fp fn : Z) :
  foldl (λ '(falsePositives, falseNegatives) j,
           if decide (i ≠ j)
           then (falsePositives + cell m j i, falseNegatives + cell m i j)
           else (falsePositives, falseNegatives)) (fp, fn) js
  = (fp + sumZ ((λ j, cell m j i) <$> filter (λ j, j ≠ i) js),
     fn + sumZ ((λ j, cell m i j) <$> filter (λ j, j ≠ i) js)).
Proof.
  revert fp fn. induction js as [|j js IH]; intros fp fn; simpl.
  - f_equal; lia.
  - rewrite filter_cons. destruct (decide (i ≠ j)), (decide (j ≠ i)); try (exfalso; lia).
    + rewrite IH, !fmap_cons. unfold sumZ. cbn [foldr]. f_equal; lia.
    + apply IH.
Qed.

Lemma countErrors_sums (m : matrix) (i : nat) :
  countErrors m (length m) i = (FP m i, FN m i).
Proof. unfold countErrors. rewrite countErrors_from. reflexivity. Qed.

Lemma classStep_counts (m : matrix) (a : acc) (i : nat) :
  correctPredictions (classStep m (length m) a i) = correctPredictions a + TP m i
  ∧ totalPredictions (classStep m (length m) a i)
    = totalPredictions a + (TP m i + FP m i + FN m i).
Proof. unfold classStep. rewrite countErrors_sums. split; reflexivity. Qed.

Lemma loop_counts (m : matrix) (l : list nat) (a : acc) :
  correctPredictions (foldl (classStep m (length m)) a l)
    = correctPredictions a + sumZ (TP m <$> l)
  ∧ totalPredictions (foldl (classStep m (length m)) a l)
    = totalPredictions a + sumZ ((λ i, TP m i + FP m i + FN m i) <$> l).
Proof.
  revert a. induction l as [|i l IH]; intros a.
  - unfold sumZ. simpl. split; lia.
  - cbn [foldl]. destruct (IH (classStep m (length m) a i)) as [-> ->].
    destruct (classStep_counts m a i) as [-> ->].
    rewrite !fmap_cons. unfold sumZ. cbn [foldr]. split; lia.
Qed.

Lemma denominator_nonneg (m : matrix) (l : list nat) :
  nonneg m → 0 ≤ sumZ ((λ i, TP m i + FP m i + FN m i) <$> l).
Proof.
  intros Hm. apply sumZ_nonneg, Forall_fmap, Forall_forall. intros i _. simpl.
  assert (0 ≤ TP m i) by (apply cell_nonneg, Hm).
  assert (0 ≤ FP m i).
  { apply sumZ_nonneg, Forall_fmap, Forall_forall. intros j _. apply cell_nonneg, Hm. }
  assert (0 ≤ FN m i).
  { apply sumZ_nonneg, Forall_fmap, Forall_forall. intros j _. apply cell_nonneg, Hm. }
  lia.
Qed.

(** C2. On a square confusion matrix of non-negative integers the accuracy
    computed by the two nested loops of [calculateMetrics] is
    (sum of TP_i) / (sum of TP_i + FP_i + FN_i), and 0 when that
    denominator is 0. *)
Theorem calculateMetrics_accuracy_formula (m : matrix) :
  square m → nonneg m →
  accuracy (calculateMetrics m) = accuracy_formula m.
Proof.
  intros _ Hm. unfold calculateMetrics, accuracy_formula. cbn [accuracy].
  match goal with |- context [foldl ?f ?a ?l] =>
    destruct (loop_counts m l a) as [Hc Ht] end.
  rewrite Hc, Ht. cbn [correctPredictions totalPredictions]. rewrite !Z.add_0_l.
  pose proof (denominator_nonneg m (seq 0 (length m)) Hm) as Hd.
  destruct (Z.ltb_spec 0 (sumZ ((λ i, TP m i + FP m i + FN m i) <$> seq 0 (length m))));
    destruct (Z.eqb_spec (sumZ ((λ i, TP m i + FP m i + FN m i) <$> seq 0 (length m))) 0);
    try reflexivity; lia.
Qed.

Lemma fl_ratio_bounds (a b : positive) :
  Z.pos a ≤ 2 ^ 53 → Z.pos b ≤ 2 ^ 53 →
  ((Z.pos a # b) - unit_roundoff * (Z.pos a # b) <= jsdiv (Z.pos a) (Z.pos b)
   ∧ jsdiv (Z.pos a) (Z.pos b) <= (Z.pos a # b) + unit_roundoff * (Z.pos a # b))%Q.
Proof.
  intros Ha Hb. unfold jsdiv.
  pose proof (fl_rel (Z.pos a) (Z.pos b)) as Hrel.
  rewrite Z.abs_eq in Hrel by lia. specialize (Hrel Ha (conj eq_refl Hb)).
  assert (E : (inject_Z (Z.pos a) / inject_Z (Z.pos b) == Z.pos a # b)%Q).
  { unfold Qeq, Qdiv, Qmult, Qinv, inject_Z. simpl. lia. }
  set (q := (inject_Z (Z.pos a) / inject_Z (Z.pos b))%Q) in *.
  assert (Hq : (Qabs q == Z.pos a # b)%Q).
  { rewrite E. reflexivity. }
  apply Qabs_Qle_condition in Hrel. destruct Hrel as [Hlo Hhi].
  unfold unit_roundoff in *.
  generalize dependent (Qabs q). generalize dependent (fl q).
  generalize dependent (Z.pos a # b). clearbody q.
  intros c E f r Hr Hlo Hhi. split; lra.
Qed.

(** C1. On the confusion matrix [[5,0],[1,4]] the loops count 9 correct
    predictions out of a total of 11 (the cell of the one misclassified sample
    is counted once as a false positive and once as a false negative), so the
    accuracy returned is the double of 9/11, strictly below the double of
    9/10; class-0 precision is 5/6 and class-0 recall is 5/5 = 1. *)
Theorem calculateMetrics_scenario :
  let r := calculateMetrics [[5; 0]; [1; 4]] in
  accuracy r = jsdiv 9 11
  ∧ (accuracy r < jsdiv 9 10)%Q
  ∧ precision r !! 0%nat = Some (jsdiv 5 6)
  ∧ recall r !! 0%nat = Some (jsdiv 5 5)
  ∧ (jsdiv 5 5 == 1)%Q.
Proof.
  cbv zeta. split; [reflexivity|]. split; [|split; [reflexivity|split; [reflexivity|]]].
  - change (accuracy (calculateMetrics [[5; 0]; [1; 4]])) with (jsdiv 9 11).
    destruct (fl_ratio_bounds 9 11) as [_ Hhi]; [lia | lia |].
    destruct (fl_ratio_bounds 9 10) as [Hlo _]; [lia | lia |].
    unfold unit_roundoff in *.
    eapply Qle_lt_trans; [exact Hhi|]. eapply Qlt_le_trans; [|exact Hlo].
    reflexivity.
  - unfold jsdiv. rewrite (fl_proper _ (inject_Z 1)) by reflexivity.
    apply fl_int. lia.
Qed.

End MetricsFacts.

Lemma calculateMetrics_accuracy_formula_witness :
  Metrics.accuracy (Metrics.calculateMetrics (H := exactNumber) [[2; 1]; [0; 3]])
  = Metrics.accuracy_formula (H := exactNumber) [[2; 1]; [0; 3]].
Proof.
  apply (calculateMetrics_accuracy_formula (H := exactNumber) [[2; 1]; [0; 3]]).
  - repeat constructor.
  - repeat constructor; lia.
Defined.

(** ** The model registry *)

Section ModelManagerFacts.
Import ModelManager.

Lemma store_kept (m : manager) (literal : descriptor) (f : descriptor → descriptor)
    (l : loc) :
  (l < length (store m))%nat →
  alter f (length (store m)) (store m ++ [literal]) !! l = store m !! l.
Proof.
  intros Hl. rewrite list_lookup_alter_ne by lia. apply lookup_app_l, Hl.
Qed.

Lemma store_new (m : manager) (literal : descriptor) (f : descriptor → descriptor) :
  alter f (length (store m)) (store m ++ [literal]) !! length (store m)
  = Some (f literal).
Proof.
  rewrite list_lookup_alter. rewrite lookup_app_r by lia.
  rewrite Nat.sub_diag. by case_decide.
Qed.

Lemma saveModel_cases (m : manager) (type : string) (fromModel : completion descriptor) :
  (∃ e, saveModel m type fromModel = (m, Throw e))
  ∨ (∃ literal,
       fromModel = Return literal
       ∧ saveModel m type fromModel
         = ({| models := models m;
               evaluationResults := evaluationResults m;
               savedModels := savedModels m ++ [length (store m)];
               isTraining := isTraining m;
               store := alter (insert "id" (Num (inject_Z (Z.of_nat (length (savedModels m))))))
                          (length (store m)) (store m ++ [literal]) |},
            Return (length (store m)))).
Proof.
  unfold saveModel. destruct (negb (truthy (isModelTrained m type))); [left; eauto|].
  destruct fromModel as [literal|e]; [right; eauto | left; eauto].
Qed.

Lemma step_extends (m : manager) (op : operation) : extends m (step m op).
Proof.
  assert (Hrefl : extends m m) by (split; [reflexivity | done]).
  destruct op as [type model|?|?|type results|?| |type fromModel| | | |training| | |type tr];
    simpl; try exact Hrefl.
  - unfold setModel. destruct (validType type); exact Hrefl.
  - unfold setEvaluationResults. destruct (validType type); exact Hrefl.
  - destruct (saveModel_cases m type fromModel) as [[e ->]|[literal [_ ->]]];
      [exact Hrefl|]. split; simpl.
    + by apply prefix_app_r.
    + intros l Hl. by apply store_kept.
  - unfold modelChanged. destruct (mjoin _); exact Hrefl.
Qed.

Lemma ledgerIds_frame (m : manager) (st : list descriptor) :
  Forall (λ l, (l < length (store m))%nat) (savedModels m) →
  (∀ l, (l < length (store m))%nat → st !! l = store m !! l) →
  (λ l, st !! l ≫= (λ d : descriptor, d !! "id")) <$> savedModels m = ledgerIds m.
Proof.
  intros Hin Hkept. unfold ledgerIds. apply Forall_fmap_ext_1.
  eapply Forall_impl; [exact Hin|]. intros l Hl. simpl. by rewrite Hkept.
Qed.

Lemma step_ledgerOk (m : manager) (op : operation) :
  ledgerOk m → ledgerOk (step m op).
Proof.
  intros [Hin Hids].
  destruct op as [type model|?|?|type results|?| |type fromModel| | | |training| | |type tr];
    simpl; try (split; assumption).
  - unfold setModel. destruct (validType type); split; assumption.
  - unfold setEvaluationResults. destruct (validType type); split; assumption.
  - destruct (saveModel_cases m type fromModel) as [[e ->]|[literal [_ ->]]];
      [split; assumption|]. split; simpl.
    + apply Forall_app. split.
      * eapply Forall_impl; [exact Hin|]. intros l Hl. simpl in *.
        rewrite length_alter, length_app. simpl. lia.
      * constructor; [|constructor]. rewrite length_alter, length_app. simpl. lia.
    + unfold ledgerIds. simpl. rewrite fmap_app, length_app. simpl.
      rewrite Nat.add_1_r, seq_S, fmap_app. simpl. f_equal.
      * rewrite <- Hids. apply (ledgerIds_frame m); [exact Hin|].
        intros l Hl. simpl. by apply store_kept.
      * rewrite store_new. simpl. by rewrite lookup_insert_eq.
  - unfold modelChanged. destruct (mjoin _); split; assumption.
Qed.

Lemma run_ledgerOk (ops : list operation) : ledgerOk (run ops).
Proof.
  unfold run. induction ops as [|op ops IH] using rev_ind.
  - split; [constructor | reflexivity].
  - rewrite foldl_app. simpl. by apply step_ledgerOk.
Qed.

(** C10. [reset] empties the three slots, the evaluation results and the
    training flag and leaves the ledger as it is; after any sequence of
    operations the ids in the ledger are 0, 1, 2, ... in order; any further
    operation keeps the ledger as a prefix with its entries unchanged; and a
    [saveModel] that succeeds appends exactly one entry, whose id is the ledger
    length before the call. *)
Theorem savedModels_append_only (ops : list operation) :
  let m := run ops in
  (models (reset m) = emptySlots
   ∧ evaluationResults (reset m) = ∅
   ∧ isTraining (reset m) = false
   ∧ savedModels (reset m) = savedModels m
   ∧ ledgerEntries (reset m) = ledgerEntries m)
  ∧ ledgerIds m
    = (λ i, Some (Num (inject_Z (Z.of_nat i)))) <$> seq 0 (length (savedModels m))
  ∧ (∀ op : operation,
       savedModels m `prefix_of` savedModels (step m op)
       ∧ take (length (savedModels m)) (ledgerEntries (step m op)) = ledgerEntries m)
  ∧ (∀ (type : string) (fromModel : completion descriptor),
       match saveModel m type fromModel with
       | (m', Return modelInfo) =>
           savedModels m' = savedModels m ++ [modelInfo]
           ∧ store m' !! modelInfo ≫= (λ d : descriptor, d !! "id")
             = Some (Num (inject_Z (Z.of_nat (length (savedModels m)))))
       | (m', Throw _) => m' = m
       end).
Proof.
  intros m. pose proof (run_ledgerOk ops) as [Hin Hids]. fold m in Hin, Hids.
  split; [repeat split; reflexivity|]. split; [exact Hids|]. split.
  - intros op. destruct (step_extends m op) as [[suffix Hpre] Hkept].
    split; [by exists suffix|].
    unfold ledgerEntries. rewrite Hpre, fmap_app, take_app_length'
      by (by rewrite length_fmap).
    apply Forall_fmap_ext_1. eapply Forall_impl; [exact Hin|].
    intros l Hl. simpl. by apply Hkept.
  - intros type fromModel.
    destruct (saveModel_cases m type fromModel) as [[e ->]|[literal [_ ->]]];
      [reflexivity|]. simpl. split; [reflexivity|].
    rewrite store_new. simpl. by rewrite lookup_insert_eq.
Qed.

End ModelManagerFacts.

(** ** The prediction aggregator *)

Section PredictorFacts.
Import Predictor.

Lemma assign_fresh {V} (key : string) (v : V) (o : object V) :
  key ∉ fst <$> o → assign key v o = o ++ [(key, v)].
Proof.
  induction o as [|[k w] o IH]; simpl; intros Hfresh; [reflexivity|].
  rewrite not_elem_of_cons in Hfresh. destruct Hfresh as [Hne Hfresh].
  destruct (decide (key = k)); [contradiction|]. by rewrite IH.
Qed.

Lemma settleAll_settled (answer : string → predictOutcome) (n : nat)
    (p : predictor) (r : settled) :
  settleAll answer n (p, Settled r) = (p, Settled r).
Proof. destruct n; reflexivity. Qed.

(** The loop, resumed until it ends, writes the expected record of every
    entry after the records it started from. *)
Lemma loop_settleAll (answer : string → predictOutcome) (classNames : list string)
    (entries : list (string * option modelObject)) :
  ∀ (n : nat) (p : predictor) (acc : object modelPrediction),
    (length entries ≤ n)%nat →
    NoDup ((fst <$> acc) ++ (fst <$> entries)) →
    settleAll answer n (finish p (loop classNames entries acc))
    = ({| isPredicting := false |},
       Settled (Resolved (acc ++ (expected answer classNames <$> entries)))).
Proof.
  induction entries as [|[type model] entries IH]; intros n p acc Hn Hdup.
  - simpl. rewrite settleAll_settled, app_nil_r. reflexivity.
  - assert (Hfresh : type ∉ fst <$> acc).
    { apply NoDup_app in Hdup as (_ & Hdisj & _). intros Hin.
      apply (Hdisj type Hin). simpl. left. }
    assert (Hdup' : ∀ v : modelPrediction,
               NoDup ((fst <$> acc ++ [(type, v)]) ++ (fst <$> entries))).
    { intros v. rewrite fmap_app, <- app_assoc. exact Hdup. }
    assert (Hexp : expected answer classNames (type, model)
                   = (type, if trained model then recordOf (answer type) classNames
                            else notTrained)).
    { unfold expected. cbn [fst snd].
      destruct model as [[[|]]|]; [destruct (answer type)|..]; reflexivity. }
    simpl in Hn. cbn [loop]. rewrite fmap_cons, Hexp.
    destruct (trained model) eqn:Htrained.
    + destruct n as [|n]; [lia|]. cbn [finish settleAll snd fst awaited].
      unfold resume. cbn [classNames_ remaining awaited soFar].
      rewrite assign_fresh by exact Hfresh.
      rewrite IH by (try lia; apply Hdup'). by rewrite <- app_assoc.
    + rewrite assign_fresh by exact Hfresh.
      rewrite IH by (try lia; apply Hdup'). by rewrite <- app_assoc.
Qed.

(** C9. A call that passes the guard with a valid image and whose awaited
    promises all settle resolves, whatever the registered backends are, to one
    record per backend kind in enumeration order: the stub for an untrained
    backend, the error record carrying the failure message for a trained
    backend whose predict failed, the formatted predictions otherwise; and
    the guard is released. *)
Theorem predictImage_one_record_per_backend
    (models : object (option modelObject)) (classNames : list string)
    (imageDataUrl : string) (answer : string → predictOutcome) :
  NoDup (fst <$> models) → imageDataUrl ≠ "" →
  settleAll answer (length models)
    (predictImage {| isPredicting := false |} models classNames (Some imageDataUrl))
  = ({| isPredicting := false |},
     Settled (Resolved (expected answer classNames <$> models))).
Proof.
  intros Hdup Hurl. unfold predictImage. cbn [isPredicting invalidUrl].
  rewrite bool_decide_eq_false_2 by exact Hurl.
  rewrite loop_settleAll; [reflexivity | lia | exact Hdup].
Qed.

Lemma finish_flag (p : predictor) (st : status) :
  match finish p st with
  | (p', Settled _) => isPredicting p' = false
  | (p', Awaiting _) => p' = p
  end.
Proof. destruct st; reflexivity. Qed.

Lemma loop_not_rejected (classNames : list string)
    (entries : list (string * option modelObject)) (acc : object modelPrediction)
    (e : exn) :
  loop classNames entries acc ≠ Settled (Rejected e).
Proof.
  revert acc. induction entries as [|[type model] entries IH]; intros acc; simpl.
  - discriminate.
  - destruct (trained model); [discriminate | apply IH].
Qed.

Lemma finish_status (p : predictor) (st : status) : snd (finish p st) = st.
Proof. destruct st; reflexivity. Qed.

Lemma predictImage_guarded (p : predictor) (models : object (option modelObject))
    (classNames : list string) (imageDataUrl : option string) :
  snd (predictImage p models classNames imageDataUrl) = Settled inProgress
  ↔ isPredicting p = true.
Proof.
  unfold predictImage. destruct (isPredicting p); simpl.
  - split; reflexivity.
  - split; [|discriminate]. destruct (invalidUrl imageDataUrl); simpl.
    + discriminate.
    + rewrite finish_status. intros Hst. by apply loop_not_rejected in Hst.
Qed.

Lemma step_guardOk (s : system) (e : event) : guardOk s → guardOk (fst (step s e)).
Proof.
  intros Hs. destruct e as [models classNames imageDataUrl|i o]; simpl.
  - unfold predictImage. destruct Hs as [[Hflag [k Hk]]|[Hflag Hk]]; rewrite Hflag.
    + simpl. left. eauto.
    + destruct (invalidUrl imageDataUrl).
      * simpl. right. split; [reflexivity | exact Hk].
      * pose proof (finish_flag {| isPredicting := true |}
                      (loop classNames models [])) as Hfin.
        destruct (finish _ _) as [p [r|k]]; simpl.
        -- right. split; [exact Hfin | exact Hk].
        -- left. subst p. rewrite Hk. simpl. eauto.
  - destruct (inFlight s !! i) as [k|] eqn:Hi; [|exact Hs].
    destruct Hs as [[Hflag [k0 Hk]]|[Hflag Hk]]; [|by rewrite Hk in Hi].
    rewrite Hk in Hi. destruct i as [|i]; [|by destruct i].
    unfold resume.
    match goal with |- context [finish ?p ?st] =>
      pose proof (finish_flag p st) as Hfin; destruct (finish p st) as [p' [r|k']] end;
      simpl.
    + right. split; [exact Hfin|]. by rewrite Hk.
    + left. subst p'. split; [exact Hflag|]. rewrite Hk. simpl. eauto.
Qed.

Lemma after_guardOk (events : list event) : guardOk (after events).
Proof.
  unfold after. induction events as [|e events IH] using rev_ind.
  - right. split; reflexivity.
  - rewrite foldl_app. simpl. by apply step_guardOk.
Qed.

Lemma resume_not_rejected (p : predictor) (k : suspended) (o : predictOutcome) (e : exn) :
  snd (resume p k o) ≠ Settled (Rejected e).
Proof. unfold resume. rewrite finish_status. apply loop_not_rejected. Qed.

(** C7. In every state that calls and promise settlements interleaved on one
    instance can reach: a new call is rejected with the in-progress error
    exactly when an earlier call is still suspended; a call so rejected leaves
    the instance as it was; and when a call that passed the guard settles,
    resolved or rejected, the guard is released and no call is left in
    flight, so that the next call passes the guard. *)
Theorem predictImage_single_flight (events : list event) :
  let s := after events in
  (∀ models classNames imageDataUrl,
     snd (predictImage (instance s) models classNames imageDataUrl) = Settled inProgress
     ↔ inFlight s ≠ [])
  ∧ (∀ e, snd (step s e) = Some inProgress → fst (step s e) = s)
  ∧ (∀ e r, snd (step s e) = Some r → r ≠ inProgress →
       isPredicting (instance (fst (step s e))) = false
       ∧ inFlight (fst (step s e)) = []
       ∧ ∀ models classNames imageDataUrl,
           snd (predictImage (instance (fst (step s e))) models classNames imageDataUrl)
           ≠ Settled inProgress).
Proof.
  intros s. pose proof (after_guardOk events) as Hs. fold s in Hs.
  split; [|split].
  - intros models classNames imageDataUrl. rewrite predictImage_guarded.
    destruct Hs as [[Hflag [k Hk]]|[Hflag Hk]]; rewrite Hflag, Hk; split;
      try done.
  - intros e He. destruct e as [models classNames imageDataUrl|i o]; simpl in *.
    + assert (Hflag : isPredicting (instance s) = true).
      { apply (predictImage_guarded _ models classNames imageDataUrl).
        destruct (predictImage _ _ _ _) as [p [r|k]]; simpl in *; congruence. }
      unfold predictImage. rewrite Hflag. by destruct s.
    + destruct (inFlight s !! i) as [k|]; [|reflexivity].
      pose proof (resume_not_rejected (instance s) k o
                    (Error "Prediction already in progress")) as Hres.
      destruct (resume _ _ _) as [p [r|k']]; simpl in *; [|discriminate].
      exfalso. apply Hres. unfold inProgress in He. congruence.
  - intros e r He Hr.
    assert (Hclear : isPredicting (instance (fst (step s e))) = false
                     ∧ inFlight (fst (step s e)) = []).
    { pose proof (step_guardOk s e Hs) as Hs'.
      destruct e as [models classNames imageDataUrl|i o]; simpl in *.
      - destruct Hs as [[Hflag [k Hk]]|[Hflag Hk]].
        + exfalso. apply Hr. revert He. unfold predictImage. rewrite Hflag.
          simpl. unfold inProgress. congruence.
        + revert He Hs'. unfold predictImage. rewrite Hflag.
          destruct (invalidUrl imageDataUrl).
          * simpl. intros _ _. split; [reflexivity | exact Hk].
          * pose proof (finish_flag {| isPredicting := true |}
                          (loop classNames models [])) as Hfin.
            destruct (finish _ _) as [p [r'|k']]; simpl; [|discriminate].
            intros _ _. split; [exact Hfin | exact Hk].
      - destruct (inFlight s !! i) as [k|] eqn:Hi; [|discriminate].
        destruct Hs as [[Hflag [k0 Hk]]|[Hflag Hk]]; [|by rewrite Hk in Hi].
        rewrite Hk in Hi. destruct i as [|i]; [|by destruct i].
        unfold resume in *.
        match type of He with context [finish ?p ?st] =>
          pose proof (finish_flag p st) as Hfin;
          destruct (finish p st) as [p' [r'|k']] end; simpl in *; [|discriminate].
        split; [exact Hfin|]. by rewrite Hk. }
    destruct Hclear as [Hflag Hnone]. split; [exact Hflag|]. split; [exact Hnone|].
    intros models classNames imageDataUrl. rewrite predictImage_guarded, Hflag.
    discriminate.
Qed.

End PredictorFacts.

Lemma predictImage_one_record_per_backend_witness :
  Predictor.settleAll
    (λ type, if decide (type = "randomForest") then Predictor.Failed "boom"
             else Predictor.Fulfilled (Some [1 # 4; 3 # 4]%Q) 2)
    4
    (Predictor.predictImage {| Predictor.isPredicting := false |}
       [("logisticRegression", None);
        ("randomForest", Some {| isTrained := true |});
        ("cnn", Some {| isTrained := false |});
        ("knn", Some {| isTrained := true |})]
       ["cat"; "dog"] (Some "data:image/png;base64,AAAA"))
  = ({| Predictor.isPredicting := false |},
     Predictor.Settled (Predictor.Resolved
       [("logisticRegression",
         {| Predictor.predictions :=
              [{| Predictor.className := "Model not trained";
                  Predictor.probability := 0 |}];
            Predictor.inferenceTime := 0; Predictor.error := None |});
        ("randomForest",
         {| Predictor.predictions :=
              [{| Predictor.className := "Prediction Error";
                  Predictor.probability := 0 |}];
            Predictor.inferenceTime := 0; Predictor.error := Some "boom" |});
        ("cnn",
         {| Predictor.predictions :=
              [{| Predictor.className := "Model not trained";
                  Predictor.probability := 0 |}];
            Predictor.inferenceTime := 0; Predictor.error := None |});
        ("knn",
         {| Predictor.predictions :=
              [{| Predictor.className := "dog"; Predictor.probability := 3 # 4 |};
               {| Predictor.className := "cat"; Predictor.probability := 1 # 4 |}];
            Predictor.inferenceTime := 2; Predictor.error := None |})])).
Proof.
  assert (Hdup : NoDup (fst <$> [("logisticRegression", (None : option modelObject));
                                 ("randomForest", Some {| isTrained := true |});
                                 ("cnn", Some {| isTrained := false |});
                                 ("knn", Some {| isTrained := true |})]))
    by (apply (bool_decide_unpack _); vm_compute; exact I).
  assert (Hurl : "data:image/png;base64,AAAA" ≠ "") by discriminate.
  pose proof (predictImage_one_record_per_backend _ ["cat"; "dog"] _
                (λ type, if decide (type = "randomForest") then Predictor.Failed "boom"
                         else Predictor.Fulfilled (Some [1 # 4; 3 # 4]%Q) 2)
                Hdup Hurl) as Hcall.
  vm_compute in Hcall. vm_compute. exact Hcall.
Defined.

(** ** The random forest *)

Section ForestFacts.
Import RandomForestTrainer.
Context `{JsNumber}.
Context (getImageData : string → option (list Z)).
Context {rng : Type} (randomIndex : nat → rng → nat * rng).

(** *** Feature extraction *)

Lemma bump_length (hist : list Z) (v : Z) : length (bump hist v) = length hist.
Proof. unfold bump. apply length_alter. Qed.

Lemma histograms_length_bounded (n : nat) :
  ∀ data rHist gHist bHist : list Z,
    (length data ≤ n)%nat →
    match histograms data rHist gHist bHist with
    | (r, g, b) =>
        length r = length rHist ∧ length g = length gHist ∧ length b = length bHist
    end.
Proof.
  induction n as [|n IH]; intros data rHist gHist bHist Hn;
    destruct data as [|r [|g [|b [|a rest]]]]; simpl in *; try done; try lia.
  specialize (IH rest (bump rHist r) (bump gHist g) (bump bHist b) ltac:(lia)).
  destruct (histograms rest _ _ _) as [[r' g'] b'].
  rewrite !bump_length in IH. exact IH.
Qed.

Lemma histograms_length (data rHist gHist bHist : list Z) :
  match histograms data rHist gHist bHist with
  | (r, g, b) =>
      length r = length rHist ∧ length g = length gHist ∧ length b = length bHist
  end.
Proof. by apply (histograms_length_bounded (length data)). Qed.

Lemma computeImageFeatures_length (data : list Z) :
  length (computeImageFeatures data) = 15%nat.
Proof.
  unfold computeImageFeatures.
  pose proof (histograms_length data [0; 0; 0; 0] [0; 0; 0; 0] [0; 0; 0; 0]) as Hlen.
  destruct (histograms data _ _ _) as [[r g] b]. destruct Hlen as (Hr & Hg & Hb).
  rewrite !length_app, !length_fmap, Hr, Hg, Hb. reflexivity.
Qed.

Lemma extractFeatures_snoc (images : list string) (imageDataUrl : string) :
  extractFeatures getImageData (images ++ [imageDataUrl])
  = extractFeatures getImageData images
    ++ [match extractImageFeatures getImageData imageDataUrl with
        | Return feature => feature
        | Throw _ => replicate 24 0%Q
        end].
Proof.
  unfold extractFeatures. rewrite foldl_app. simpl.
  by destruct (extractImageFeatures getImageData imageDataUrl).
Qed.

Lemma extractFeatures_length (images : list string) :
  length (extractFeatures getImageData images) = length images.
Proof.
  induction images as [|imageDataUrl images IH] using rev_ind; [reflexivity|].
  rewrite extractFeatures_snoc, !length_app, IH. reflexivity.
Qed.

(** C5. In the batch returned by [extractFeatures] the vector of a sample
    that decoded has 15 entries (3 channels x 4 bins, plus 3 means) and the
    zero vector put in for a sample that failed has 24: the lengths differ as
    soon as the batch holds one sample of each kind. *)
Theorem extractFeatures_lengths (images : list string) :
  length <$> extractFeatures getImageData images
  = (λ imageDataUrl, match getImageData imageDataUrl with
                     | Some _ => 15%nat
                     | None => 24%nat
                     end) <$> images.
Proof.
  induction images as [|imageDataUrl images IH] using rev_ind; [reflexivity|].
  rewrite extractFeatures_snoc, !fmap_app, IH. simpl. f_equal.
  unfold extractImageFeatures. destruct (getImageData imageDataUrl) as [data|].
  - by rewrite computeImageFeatures_length.
  - reflexivity.
Qed.

(** *** Votes *)

Lemma count_increment (votes : counter) (label c : nat) :
  count (increment votes label) c
  = if decide (c = label) then (count votes label + 1)%nat else count votes c.
Proof.
  unfold increment, count at 1. destruct (decide (c = label)) as [->|Hne].
  - by rewrite lookup_insert_eq.
  - by rewrite lookup_insert_ne by congruence.
Qed.

Lemma count_castVotes_from (features : featureVector) (trees : list tree) :
  ∀ (votes : counter) (c : nat),
    count (foldl (λ votes t, increment votes (traverseTree features t)) votes trees) c
    = (count votes c + votesFor features trees c)%nat.
Proof.
  unfold votesFor. induction trees as [|t trees IH]; intros votes c; simpl.
  - lia.
  - rewrite IH, count_increment, filter_cons.
    destruct (decide (c = traverseTree features t)) as [->|Hne].
    + rewrite decide_True by done. simpl. lia.
    + rewrite decide_False by congruence. lia.
Qed.

Lemma count_castVotes (features : featureVector) (trees : list tree) (c : nat) :
  count (castVotes features trees) c = votesFor features trees c.
Proof. unfold castVotes. by rewrite count_castVotes_from. Qed.

Lemma positive_increment (votes : counter) (label : nat) :
  positive votes → positive (increment votes label).
Proof.
  intros Hpos c n. unfold increment. destruct (decide (c = label)) as [->|Hne].
  - rewrite lookup_insert_eq. intros [= <-]. lia.
  - rewrite lookup_insert_ne by congruence. apply Hpos.
Qed.

Lemma positive_foldl {A} (f : A → nat) (l : list A) :
  ∀ votes, positive votes → positive (foldl (λ votes x, increment votes (f x)) votes l).
Proof.
  induction l as [|x l IH]; intros votes Hpos; simpl; [exact Hpos|].
  by apply IH, positive_increment.
Qed.

Lemma positive_castVotes (features : featureVector) (trees : list tree) :
  positive (castVotes features trees).
Proof. apply positive_foldl. intros c n. by rewrite lookup_empty. Qed.

Lemma elem_of_keys (votes : counter) (c : nat) :
  positive votes → c ∈ keys votes ↔ (0 < count votes c)%nat.
Proof.
  intros Hpos. unfold keys, count.
  rewrite merge_sort_Permutation, elem_of_elements, elem_of_dom.
  destruct (votes !! c) as [n|] eqn:Hc; simpl.
  - split; [intros _; by eapply Hpos | eauto].
  - split; [intros [? [=]] | lia].
Qed.

Lemma keys_sorted (votes : counter) : StronglySorted le (keys votes).
Proof. apply (StronglySorted_merge_sort le). Qed.

(** The reduction keeps the last of the keys with the greatest count. *)
Lemma reduce_last_argmax (votes : counter) (l : list nat) :
  ∀ a : keyOrNumber,
    Forall (λ c, (parseInt a ≤ c)%nat) l → StronglySorted le l →
    parseInt (foldl (majority votes) a (Key <$> l)) ∈ parseInt a :: l
    ∧ ∀ c, c ∈ parseInt a :: l →
        (count votes c ≤ count votes (parseInt (foldl (majority votes) a (Key <$> l))))%nat
        ∧ (count votes c = count votes (parseInt (foldl (majority votes) a (Key <$> l))) →
           (c ≤ parseInt (foldl (majority votes) a (Key <$> l)))%nat).
Proof.
  induction l as [|b l IH]; intros a Hle Hsorted.
  - simpl. split; [left|]. intros c Hc. apply list_elem_of_singleton in Hc as ->. lia.
  - apply Forall_cons in Hle as [Hab Hle].
    apply StronglySorted_inv in Hsorted as [Hsorted Hb].
    rewrite fmap_cons. cbn [foldl]. unfold majority at 2 4 6 8. cbn [parseInt].
    destruct (Nat.ltb_spec (count votes b) (count votes (parseInt a))) as [Hlt|Hge].
    + destruct (IH (Number (parseInt a)) Hle Hsorted) as [Hin Hmax].
      cbn [parseInt] in Hin, Hmax.
      set (r := parseInt (foldl _ _ _)) in *. split.
      * apply elem_of_cons in Hin as [->|Hin]; [left | right; by right].
      * intros c Hc. apply elem_of_cons in Hc as [->|Hc]; [apply Hmax; left|].
        apply elem_of_cons in Hc as [->|Hc]; [|apply Hmax; by right].
        destruct (Hmax (parseInt a) ltac:(left)) as [Ha _]. lia.
    + assert (Hle' : Forall (λ c, (b ≤ c)%nat) l) by exact Hb.
      destruct (IH (Number b) Hle' Hsorted) as [Hin Hmax].
      cbn [parseInt] in Hin, Hmax.
      set (r := parseInt (foldl _ _ _)) in *. split; [by right|].
      intros c Hc. apply elem_of_cons in Hc as [->|Hc]; [|by apply Hmax].
      destruct (Hmax b ltac:(left)) as [Hbmax _].
      split; [lia|]. intros _.
      apply elem_of_cons in Hin as [->|Hin]; [exact Hab|].
      rewrite Forall_forall in Hle. pose proof (Hle _ Hin). lia.
Qed.

Lemma votesFor_nonempty (features : featureVector) (t : tree) (trees : list tree) :
  (0 < votesFor features (t :: trees) (traverseTree features t))%nat.
Proof. unfold votesFor. rewrite filter_cons, decide_True by done. simpl. lia. Qed.

Lemma foldl_majority_Number (votes : counter) (a : keyOrNumber) (l : list nat) :
  l ≠ [] → ∃ n, foldl (majority votes) a (Key <$> l) = Number n.
Proof.
  destruct l as [|b l] using rev_ind; [done|]. intros _.
  rewrite fmap_app, foldl_app. simpl. unfold majority at 1.
  destruct (_ <? _)%nat; eexists; reflexivity.
Qed.

(** C4, as the code has it.  On a non-empty tree list the class that the
    result of [predictInstance] denotes has the greatest vote count, and among
    the classes that tie for the greatest count it is the highest index.
    Whenever a second class has a vote, so in every tie, the result is that
    index as a number. *)
Theorem predictInstance_majority_highest_tie
    (features : featureVector) (trees : list tree) :
  trees ≠ [] →
  ∃ r, predictInstance features trees = Return r
       ∧ (∀ c, (votesFor features trees c ≤ votesFor features trees (parseInt r))%nat)
       ∧ (∀ c, votesFor features trees c = votesFor features trees (parseInt r) →
               (c ≤ parseInt r)%nat)
       ∧ (∀ c, c ≠ parseInt r → (0 < votesFor features trees c)%nat →
               r = Number (parseInt r)).
Proof.
  intros Hne. unfold predictInstance.
  set (votes := castVotes features trees).
  assert (Hpos : positive votes) by apply positive_castVotes.
  assert (Hcount : ∀ c, count votes c = votesFor features trees c)
    by (intros c; apply count_castVotes).
  pose proof (keys_sorted votes) as Hsorted.
  destruct (keys votes) as [|k ks] eqn:Hkeys.
  - exfalso. destruct trees as [|t trees]; [done|].
    pose proof (votesFor_nonempty features t trees) as Hvote.
    rewrite <- Hcount in Hvote. apply (elem_of_keys votes _ Hpos) in Hvote.
    rewrite Hkeys in Hvote. by apply elem_of_nil in Hvote.
  - apply StronglySorted_inv in Hsorted as [Hsorted Hk].
    cbn [fmap list_fmap reduce].
    destruct (reduce_last_argmax votes ks (Key k) Hk Hsorted) as [Hin Hmax].
    eexists. split; [reflexivity|]. cbn [parseInt] in Hin, Hmax.
    assert (Hnumber : ∀ c, c ≠ parseInt (foldl (majority votes) (Key k) (Key <$> ks)) →
                           (0 < count votes c)%nat →
                           foldl (majority votes) (Key k) (Key <$> ks)
                           = Number (parseInt (foldl (majority votes) (Key k)
                                                 (Key <$> ks)))).
    { intros c Hc Hvoted. apply (elem_of_keys votes c Hpos) in Hvoted.
      rewrite Hkeys in Hvoted. destruct ks as [|k' ks].
      - simpl in Hc. apply list_elem_of_singleton in Hvoted. contradiction.
      - destruct (foldl_majority_Number votes (Key k) (k' :: ks)) as [n ->]; done. }
    set (r := parseInt _) in *. rewrite <- Hkeys in Hin, Hmax.
    assert (Hr : (0 < count votes r)%nat) by by apply elem_of_keys.
    assert (Hall : ∀ c, (count votes c ≤ count votes r)%nat
                        ∧ (count votes c = count votes r → (c ≤ r)%nat)).
    { intros c. destruct (decide (c ∈ keys votes)) as [Hc|Hc]; [by apply Hmax|].
      rewrite (elem_of_keys votes c Hpos) in Hc. lia. }
    split; [|split]; intros c; rewrite <- ?Hcount; [apply Hall..|apply Hnumber].
Qed.

(** *** Leaves *)

Lemma keys_empty : keys ∅ = [].
Proof. reflexivity. Qed.

Lemma createLeafNode_empty :
  createLeafNode [] = Throw (TypeError "Reduce of empty array with no initial value").
Proof. reflexivity. Qed.

(** C6. [trainDecisionTree] on an empty sample list does not return a leaf:
    at every depth the guard sends the empty label list to [createLeafNode],
    whose [reduce] over no keys raises a [TypeError]. *)
Theorem trainDecisionTree_empty_throws (fuel depth maxDepth : nat) (g : rng) :
  trainDecisionTree randomIndex fuel [] [] depth maxDepth g
  = Some (Throw (TypeError "Reduce of empty array with no initial value"), g).
Proof.
  unfold trainDecisionTree. destruct (maxDepth - depth)%nat; reflexivity.
Qed.

(** C8. [train] on a dataset without images is rejected with the message
    "No training data available", whatever the labels, the fuel and the state
    of the random source, before anything is drawn or written: the trainer
    after the call is the trainer before it, with the same [model] and
    [isTrained], so the call produces no trained model; a trainer that was
    fresh before the call still answers [predict] with "Model not trained
    yet". *)
Theorem train_empty_dataset (fuel : nat) (t : trainer) (labels : list nat) (g : rng)
    (imageDataUrl : string) :
  train getImageData randomIndex fuel t {| images := []; labels := labels |} g
  = Some (t, Throw (Error "No training data available"), g)
  ∧ match train getImageData randomIndex fuel new
            {| images := []; labels := labels |} g with
    | Some (t', _, _) =>
        model t' = None
        ∧ predict getImageData t' imageDataUrl = Throw (Error "Model not trained yet")
    | None => False
    end.
Proof.
  split.
  - unfold train. cbn [images]. reflexivity.
  - unfold train. cbn [images]. split; [reflexivity|].
    unfold predict. cbn [isTrained new negb]. reflexivity.
Qed.

(** *** Trees grown from a sample carry labels of the sample *)

#[local] Existing Instance M_bind.

Lemma bind_Return {A B} (m : @M rng A) (k : A → @M rng B) (g g' : rng) (b : B) :
  (m ≫= k) g = Some (Return b, g') →
  ∃ a g1, m g = Some (Return a, g1) ∧ k a g1 = Some (Return b, g').
Proof.
  unfold mbind, M_bind, bind. destruct (m g) as [[[a|e] g1]|]; [eauto|done..].
Qed.

Lemma lift_Return {A} (c : completion A) (g g' : rng) (a : A) :
  lift c g = Some (Return a, g') → c = Return a.
Proof. unfold lift. by intros [= -> _]. Qed.

Lemma ret_Return {A} (a b : A) (g g' : rng) :
  ret a g = Some (Return b, g') → a = b.
Proof. unfold ret. by intros [= -> _]. Qed.

Lemma foldl_choice {A} (f : A → A → A) (l : list A) :
  (∀ a b, f a b = a ∨ f a b = b) → ∀ a, foldl f a l ∈ a :: l.
Proof.
  intros Hf. induction l as [|b l IH]; intros a; simpl; [left|].
  destruct (Hf a b) as [-> | ->].
  - specialize (IH a). apply elem_of_cons in IH as [->|IH]; [left | right; by right].
  - right. apply IH.
Qed.

Lemma tally_keys_from (labels : list nat) :
  ∀ (votes : counter) (c : nat),
    is_Some (foldl increment votes labels !! c) → is_Some (votes !! c) ∨ c ∈ labels.
Proof.
  induction labels as [|l labels IH]; intros votes c Hc; simpl in *; [by left|].
  apply IH in Hc as [Hc|Hc]; [|right; by right].
  unfold increment in Hc. destruct (decide (c = l)) as [->|Hne]; [right; left|].
  rewrite lookup_insert_ne in Hc by congruence. by left.
Qed.

Lemma keys_tally (labels : list nat) (c : nat) : c ∈ keys (tally labels) → c ∈ labels.
Proof.
  unfold keys. rewrite merge_sort_Permutation, elem_of_elements, elem_of_dom.
  intros Hc. apply tally_keys_from in Hc as [Hc|Hc]; [|exact Hc].
  rewrite lookup_empty in Hc. by destruct Hc.
Qed.

Lemma createLeafNode_leaves (labels : list nat) (t : tree) :
  createLeafNode labels = Return t → ∀ v, v ∈ leafValues t → v ∈ labels.
Proof.
  unfold createLeafNode, reduce. destruct (keys (tally labels)) as [|k ks] eqn:Hkeys;
    [done|]. intros [= <-] v Hv. simpl in Hv. apply list_elem_of_singleton in Hv as ->.
  apply keys_tally. rewrite Hkeys. apply foldl_choice.
  intros a b. destruct (_ <? _)%nat; eauto.
Qed.

Lemma unique_subset {A} (same : A → A → bool) (l : list A) :
  ∀ seen x,
    x ∈ foldl (λ seen x, if existsb (same x) seen then seen else seen ++ [x]) seen l →
    x ∈ seen ∨ x ∈ l.
Proof.
  induction l as [|y l IH]; intros seen x Hx; simpl in *; [by left|].
  apply IH in Hx as [Hx|Hx]; [|right; by right].
  destruct (existsb (same y) seen); [by left|].
  apply elem_of_app in Hx as [Hx|Hx]; [by left|].
  apply list_elem_of_singleton in Hx as ->. right. left.
Qed.

Lemma unique_elem_of {A} (same : A → A → bool) (l : list A) (x : A) :
  x ∈ unique same l → x ∈ l.
Proof.
  intros Hx. apply unique_subset in Hx as [Hx|Hx]; [|exact Hx].
  by apply elem_of_nil in Hx.
Qed.

Lemma splitLabels_subset (features : list featureVector) (featureIndex : nat)
    (threshold : option Q) :
  ∀ labels : list nat,
    match splitLabels features labels featureIndex threshold with
    | (leftLabels, rightLabels) =>
        (∀ v, v ∈ leftLabels → v ∈ labels) ∧ (∀ v, v ∈ rightLabels → v ∈ labels)
    end.
Proof.
  induction features as [|f features IH]; intros labels; simpl.
  - split; intros v Hv; by apply elem_of_nil in Hv.
  - destruct labels as [|l labels].
    + split; intros v Hv; by apply elem_of_nil in Hv.
    + specialize (IH labels).
      destruct (splitLabels features labels featureIndex threshold) as [ll rl].
      destruct IH as [IHl IHr].
      destruct (jsle (f !! featureIndex) threshold); split; intros v Hv;
        try (apply elem_of_cons in Hv as [->|Hv]; [left|]); right; auto.
Qed.

Lemma growTree_leaves (fuel remaining : nat) :
  ∀ (features : list featureVector) (labels : list nat) (g g' : rng) (t : tree),
    growTree randomIndex fuel remaining features labels g = Some (Return t, g') →
    ∀ v, v ∈ leafValues t → v ∈ labels.
Proof.
  induction remaining as [|remaining IH]; intros features labels g g' t Hrun; simpl in Hrun.
  - apply lift_Return in Hrun. by apply createLeafNode_leaves.
  - destruct features as [|f features].
    { apply lift_Return in Hrun. by apply createLeafNode_leaves. }
    assert (Hsplit :
      (findBestSplit randomIndex fuel (f :: features) labels ≫= λ bestSplit,
         match bestSplit with
         | None => lift (createLeafNode labels)
         | Some s =>
             let '(leftFeatures, rightFeatures) :=
               splitFeatures (f :: features) (featureIndex s) (threshold s) in
             let '(leftLabels, rightLabels) :=
               splitLabels (f :: features) labels (featureIndex s) (threshold s) in
             growTree randomIndex fuel remaining leftFeatures leftLabels ≫= λ left_,
             growTree randomIndex fuel remaining rightFeatures rightLabels ≫= λ right_,
             ret (Node (featureIndex s) (threshold s) left_ right_)
         end) g = Some (Return t, g') →
      ∀ v, v ∈ leafValues t → v ∈ labels).
    { clear Hrun. intros Hrun.
      apply bind_Return in Hrun as (bestSplit & g1 & _ & Hrun).
      destruct bestSplit as [s|];
        [|apply lift_Return in Hrun; by apply createLeafNode_leaves].
      pose proof (splitLabels_subset (f :: features) (featureIndex s) (threshold s) labels)
        as Hsub.
      destruct (splitFeatures _ _ _) as [lf rf].
      destruct (splitLabels _ _ _ _) as [ll rl]. destruct Hsub as [Hl Hr].
      apply bind_Return in Hrun as (lt & g2 & Hleft & Hrun).
      apply bind_Return in Hrun as (rt & g3 & Hright & Hrun).
      apply ret_Return in Hrun as <-. intros v Hv. simpl in Hv.
      apply elem_of_app in Hv as [Hv|Hv].
      - apply Hl. by eapply IH.
      - apply Hr. by eapply IH. }
    destruct (unique Nat.eqb labels) as [|only [|]] eqn:Hunique; try by apply Hsplit.
    apply ret_Return in Hrun as <-. intros v Hv. simpl in Hv.
    apply list_elem_of_singleton in Hv as ->.
    apply (unique_elem_of Nat.eqb). rewrite Hunique. left.
Qed.

(** *** Training *)

Section Trained.
Hypothesis randomIndex_lt : ∀ n s, (0 < n)%nat → (fst (randomIndex n s) < n)%nat.

Lemma draw_Return (n : nat) (g g' : rng) (i : nat) :
  draw randomIndex n g = Some (Return i, g') → i = fst (randomIndex n g).
Proof. unfold draw. destruct (randomIndex n g) as [j g1]. by intros [= -> _]. Qed.

Lemma bootstrap_labels (features : list featureVector) (labels : list nat) (n : nat) :
  length labels = length features →
  ∀ (sampleFeatures : list featureVector) (sampleLabels : list nat) (g g' : rng)
    (sample : list featureVector * list nat),
    (n ≤ length features)%nat →
    (∀ v, v ∈ sampleLabels → v ∈ labels) →
    bootstrap randomIndex n features labels sampleFeatures sampleLabels g
    = Some (Return sample, g') →
    ∀ v, v ∈ snd sample → v ∈ labels.
Proof.
  intros Hlen. induction n as [|n IH];
    intros sampleFeatures sampleLabels g g' sample Hn Hsub Hrun; simpl in Hrun.
  - apply ret_Return in Hrun as <-. exact Hsub.
  - apply bind_Return in Hrun as (i & g1 & Hdraw & Hrun).
    apply draw_Return in Hdraw.
    assert (Hi : (i < length labels)%nat).
    { rewrite Hdraw, Hlen. apply randomIndex_lt. lia. }
    eapply IH; [| |exact Hrun]; [lia|].
    intros v Hv. apply elem_of_app in Hv as [Hv|Hv]; [by apply Hsub|].
    apply list_elem_of_singleton in Hv as ->.
    by apply list_elem_of_lookup_total_2.
Qed.

Lemma growForest_trees (fuel : nat) (features : list featureVector) (labels : list nat)
    (n : nat) :
  length labels = length features →
  ∀ (trees result : list tree) (g g' : rng),
    Forall (λ t, ∀ v, v ∈ leafValues t → v ∈ labels) trees →
    growForest randomIndex fuel n features labels trees g = Some (Return result, g') →
    Forall (λ t, ∀ v, v ∈ leafValues t → v ∈ labels) result
    ∧ length result = (length trees + n)%nat.
Proof.
  intros Hlen. induction n as [|n IH]; intros trees result g g' Htrees Hrun;
    simpl in Hrun.
  - apply ret_Return in Hrun as <-. split; [exact Htrees | lia].
  - apply bind_Return in Hrun as (sample & g1 & Hsample & Hrun).
    apply bind_Return in Hrun as (t & g2 & Htree & Hrun).
    apply IH in Hrun as [Hres Hlength].
    + split; [exact Hres|]. rewrite Hlength, length_app. simpl. lia.
    + apply Forall_app. split; [exact Htrees|]. constructor; [|constructor].
      intros v Hv. eapply bootstrap_labels; [exact Hlen| | |exact Hsample|].
      * lia.
      * intros w Hw. by apply elem_of_nil in Hw.
      * eapply growTree_leaves; [exact Htree | exact Hv].
Qed.

Lemma calculateAccuracy_no_trees (f : featureVector) (features : list featureVector)
    (labels : list nat) (e : Q) :
  calculateAccuracy (f :: features) labels [] ≠ Return e.
Proof. unfold calculateAccuracy. simpl. discriminate. Qed.

(** What a successful [train] leaves in the trainer. *)
Lemma train_Return (fuel : nat) (t t' : trainer) (d : dataset) (g g' : rng)
    (r : trainResult) :
  length (labels d) = length (images d) →
  train getImageData randomIndex fuel t d g = Some (t', Return r, g') →
  images d ≠ []
  ∧ isTrained t' = true
  ∧ t_labels t' = labels d
  ∧ ∃ m, model t' = Some m
         ∧ length (trees m) = numTrees t
         ∧ trees m ≠ []
         ∧ Forall (λ tr, ∀ v, v ∈ leafValues tr → v ∈ labels d) (trees m).
Proof.
  intros Hlen. unfold train. destruct (images d) as [|image rest] eqn:Himages; [done|].
  rewrite <- Himages.
  pose proof (extractFeatures_length (images d)) as Hfeat.
  destruct (trainRandomForest randomIndex fuel (numTrees t) _ (labels d) g)
    as [[[m|e] g1]|] eqn:Hforest; [|done..].
  intros [= <- _ _]. simpl. split; [by rewrite Himages|].
  do 2 (split; [reflexivity|]). exists m. split; [reflexivity|].
  unfold trainRandomForest in Hforest.
  apply bind_Return in Hforest as (result & g2 & Hgrow & Hforest).
  apply bind_Return in Hforest as (acc & g3 & Hacc & Hforest).
  apply ret_Return in Hforest as <-. simpl.
  apply growForest_trees in Hgrow as [Hleaves Hlength];
    [|by rewrite Hfeat, Himages|constructor].
  split; [exact Hlength|]. split; [|exact Hleaves].
  intros ->. apply lift_Return in Hacc.
  destruct (extractFeatures getImageData (images d)) as [|f fs] eqn:Hfs.
  - rewrite Himages in Hfeat. simpl in Hfeat. lia.
  - by apply calculateAccuracy_no_trees in Hacc.
Qed.

(** *** Votes add up to the number of trees *)

Lemma traverseTree_leaf (features : featureVector) (t : tree) :
  traverseTree features t ∈ leafValues t.
Proof.
  induction t as [value c dist|featureIndex threshold l IHl r IHr]; simpl.
  - left.
  - apply elem_of_app. destruct (jsle _ _); [by left | by right].
Qed.

Lemma sum_indicator (p n : nat) :
  sum_list ((λ c, if decide (c = p) then 1%nat else 0%nat) <$> seq 0 n)
  = if decide (p < n)%nat then 1%nat else 0%nat.
Proof.
  induction n as [|n IH]; [reflexivity|].
  rewrite seq_S, fmap_app, sum_list_with_app, IH. simpl.
  repeat case_decide; lia.
Qed.

Lemma sum_list_pointwise (a b : nat → nat) (l : list nat) :
  sum_list ((λ c, a c + b c)%nat <$> l) = (sum_list (a <$> l) + sum_list (b <$> l))%nat.
Proof.
  induction l as [|c l IH]; [reflexivity|].
  rewrite !fmap_cons. cbn [sum_list_with]. rewrite IH. unfold id. lia.
Qed.

Lemma votesFor_sum (features : featureVector) (trees : list tree) (n : nat) :
  Forall (λ t, (traverseTree features t < n)%nat) trees →
  sum_list (votesFor features trees <$> seq 0 n) = length trees.
Proof.
  induction 1 as [|t trees Ht _ IH]; simpl.
  - change (votesFor features []) with (λ _ : nat, 0%nat).
    rewrite sum_list_fmap_const. lia.
  - rewrite <- IH, <- Nat.add_1_l.
    rewrite <- (decide_True (A := nat) 1%nat 0%nat Ht), <- sum_indicator.
    rewrite <- sum_list_pointwise. f_equal. apply list_fmap_ext. intros _ c _.
    unfold votesFor. rewrite filter_cons.
    destruct (decide (traverseTree features t = c)), (decide (c = traverseTree features t));
      simpl; congruence.
Qed.

Lemma votesFor_le (features : featureVector) (trees : list tree) (c : nat) :
  (votesFor features trees c ≤ length trees)%nat.
Proof. unfold votesFor. apply length_filter. Qed.

(** *** The rounded quotients add up to 1 within the rounding error *)

Lemma sumQ_cons (x : Q) (l : list Q) : sumQ (x :: l) = (x + sumQ l)%Q.
Proof. reflexivity. Qed.

Lemma ratio_nonneg (v : nat) (T : Z) :
  0 < T → (0 <= inject_Z (Z.of_nat v) / inject_Z T)%Q.
Proof.
  intros HT. apply Qle_shift_div_l.
  - change 0%Q with (inject_Z 0). rewrite <- Zlt_Qlt. exact HT.
  - rewrite Qmult_0_l. change 0%Q with (inject_Z 0). rewrite <- Zle_Qle. lia.
Qed.

Lemma sumQ_rounding (T : Z) (vs : list nat) :
  0 < T ≤ 2 ^ 53 → Forall (λ v, Z.of_nat v ≤ 2 ^ 53) vs →
  (Qabs (sumQ ((λ v, jsdiv (Z.of_nat v) T) <$> vs)
         - sumQ ((λ v, inject_Z (Z.of_nat v) / inject_Z T) <$> vs))
   <= unit_roundoff * sumQ ((λ v, inject_Z (Z.of_nat v) / inject_Z T) <$> vs))%Q.
Proof.
  intros HT. induction 1 as [|v vs Hv _ IH].
  - vm_compute. discriminate.
  - rewrite !fmap_cons, !sumQ_cons.
    set (P := sumQ ((λ v, jsdiv (Z.of_nat v) T) <$> vs)) in *.
    set (Sq := sumQ ((λ v, inject_Z (Z.of_nat v) / inject_Z T)%Q <$> vs)) in *.
    pose proof (fl_rel (Z.of_nat v) T) as Hrel.
    rewrite Z.abs_eq in Hrel by lia. specialize (Hrel Hv HT).
    rewrite (Qabs_pos (inject_Z (Z.of_nat v) / inject_Z T)) in Hrel
      by (apply ratio_nonneg; lia).
    unfold jsdiv. set (q := (inject_Z (Z.of_nat v) / inject_Z T)%Q) in *.
    assert (E : (fl q + P - (q + Sq) == (fl q - q) + (P - Sq))%Q) by ring.
    rewrite E. eapply Qle_trans; [apply Qabs_triangle|].
    rewrite Qmult_plus_distr_r. by apply Qplus_le_compat.
Qed.

Lemma sumQ_ratio (T : Z) (vs : list nat) :
  (sumQ ((λ v, inject_Z (Z.of_nat v) / inject_Z T) <$> vs)
   == inject_Z (Z.of_nat (sum_list vs)) / inject_Z T)%Q.
Proof.
  induction vs as [|v vs IH].
  - unfold Qdiv. simpl. by rewrite Qmult_0_l.
  - rewrite fmap_cons, sumQ_cons, IH. cbn [sum_list_with]. unfold id.
    rewrite Nat2Z.inj_add, inject_Z_plus. unfold Qdiv. ring.
Qed.

(** C3. After a [train] call that succeeded on a dataset with one label per
    image, [predict] on an image that decodes returns a vector with one
    entry per class 0 .. max(labels), whose entry [i] is the double of
    (number of trees voting [i]) / (number of trees), over a non-empty tree
    list; the entries add up to 1 within 1e-6 (the exact quotients add up to 1
    and each rounding moves an entry by at most 2^-53 of itself). *)
Theorem predict_probabilities (fuel : nat) (t t' : trainer) (d : dataset)
    (g g' : rng) (r : trainResult) (imageDataUrl : string) (data : list Z) :
  length (labels d) = length (images d) →
  Z.of_nat (numTrees t) ≤ 2 ^ 53 →
  train getImageData randomIndex fuel t d g = Some (t', Return r, g') →
  getImageData imageDataUrl = Some data →
  ∃ (m : forest) (probabilities : list Q),
    model t' = Some m
    ∧ trees m ≠ []
    ∧ predict getImageData t' imageDataUrl = Return probabilities
    ∧ length probabilities = S (max_list (labels d))
    ∧ (∀ i, (i < length probabilities)%nat →
         probabilities !! i
         = Some (jsdiv (Z.of_nat (votesFor (computeImageFeatures data) (trees m) i))
                       (Z.of_nat (length (trees m)))))
    ∧ (Qabs (sumQ probabilities - 1) <= 1 # 1000000)%Q.
Proof.
  intros Hlen Hbound Htrain Hdata.
  destruct (train_Return _ _ _ _ _ _ _ Hlen Htrain)
    as (Himages & Htrained & Hlabels & m & Hmodel & Hcount & Htrees & Hleaves).
  set (features := computeImageFeatures data).
  set (T := Z.of_nat (length (trees m))).
  set (n := S (max_list (labels d))).
  assert (Hn : numClassesOf (labels d) = n).
  { unfold numClassesOf. destruct (labels d) as [|l ls] eqn:Hl; [|reflexivity].
    destruct (images d); [done | discriminate]. }
  assert (Hpredict :
    predict getImageData t' imageDataUrl
    = Return ((λ v, jsdiv (Z.of_nat v) T) <$> (votesFor features (trees m) <$> seq 0 n))).
  { unfold predict, extractImageFeatures.
    rewrite Htrained, Hdata, Hmodel, Hlabels, Hn. cbn [negb]. f_equal.
    rewrite <- list_fmap_compose. apply list_fmap_ext. intros _ i _.
    unfold compose. by rewrite count_castVotes. }
  exists m, ((λ v, jsdiv (Z.of_nat v) T) <$> (votesFor features (trees m) <$> seq 0 n)).
  split; [exact Hmodel|]. split; [exact Htrees|]. split; [exact Hpredict|].
  split; [by rewrite !length_fmap, length_seq|]. split.
  - intros i Hi. rewrite !length_fmap, length_seq in Hi.
    rewrite !list_lookup_fmap, lookup_seq_lt by exact Hi. reflexivity.
  - assert (HT : 0 < T ≤ 2 ^ 53).
    { unfold T. rewrite Hcount. split; [|exact Hbound].
      rewrite <- Hcount. destruct (trees m); [done | simpl; lia]. }
    assert (Hvotes : Forall (λ v, Z.of_nat v ≤ 2 ^ 53) (votesFor features (trees m) <$> seq 0 n)).
    { apply Forall_fmap, Forall_forall. intros c _. cbv beta.
      pose proof (votesFor_le features (trees m) c). unfold T in HT.
      unfold compose. lia. }
    pose proof (sumQ_rounding T _ HT Hvotes) as Hround.
    assert (Hone : (sumQ ((λ v, inject_Z (Z.of_nat v) / inject_Z T)%Q
                            <$> (votesFor features (trees m) <$> seq 0 n)) == 1)%Q).
    { rewrite sumQ_ratio, votesFor_sum.
      - fold T. apply Qmult_inv_r. clearbody T. unfold Qeq. simpl. lia.
      - eapply Forall_impl; [exact Hleaves|]. intros tr Htr. simpl in Htr.
        pose proof (Htr _ (traverseTree_leaf features tr)) as Hin.
        apply max_list_elem_of_le in Hin. unfold n. lia. }
    rewrite Hone in Hround. eapply Qle_trans; [exact Hround|].
    vm_compute. discriminate.
Qed.

End Trained.

End ForestFacts.

Lemma predictInstance_majority_highest_tie_witness :
  let features := [(1 # 2)%Q] in
  let trees := [RandomForestTrainer.Leaf 1 3 None; RandomForestTrainer.Leaf 0 2 None;
                RandomForestTrainer.Leaf 1 1 None] in
  ∃ r, RandomForestTrainer.predictInstance features trees = Return r
       ∧ (∀ c, (RandomForestTrainer.votesFor features trees c
                ≤ RandomForestTrainer.votesFor features trees
                    (RandomForestTrainer.parseInt r))%nat)
       ∧ (∀ c, RandomForestTrainer.votesFor features trees c
               = RandomForestTrainer.votesFor features trees
                   (RandomForestTrainer.parseInt r) →
               (c ≤ RandomForestTrainer.parseInt r)%nat)
       ∧ (∀ c, c ≠ RandomForestTrainer.parseInt r →
               (0 < RandomForestTrainer.votesFor features trees c)%nat →
               r = RandomForestTrainer.Number (RandomForestTrainer.parseInt r)).
Proof.
  apply (predictInstance_majority_highest_tie [(1 # 2)%Q]
           [RandomForestTrainer.Leaf 1 3 None; RandomForestTrainer.Leaf 0 2 None;
            RandomForestTrainer.Leaf 1 1 None]).
  discriminate.
Defined.

(** C4, as stated, fails: with one vote for class 0 and one for class 1 the
    two classes tie, and the class returned is 1, not the lowest index 0. *)
Lemma predictInstance_tie_not_lowest :
  ¬ (∀ (features : RandomForestTrainer.featureVector)
       (trees : list RandomForestTrainer.tree),
       trees ≠ [] →
       ∃ r, RandomForestTrainer.predictInstance features trees = Return r
            ∧ (∀ c, (RandomForestTrainer.votesFor features trees c
                     ≤ RandomForestTrainer.votesFor features trees
                         (RandomForestTrainer.parseInt r))%nat)
            ∧ (∀ c, RandomForestTrainer.votesFor features trees c
                    = RandomForestTrainer.votesFor features trees
                        (RandomForestTrainer.parseInt r) →
                    (RandomForestTrainer.parseInt r ≤ c)%nat)).
Proof.
  intros Hclaim.
  destruct (Hclaim [] [RandomForestTrainer.Leaf 0 1 None; RandomForestTrainer.Leaf 1 1 None])
    as (r & Hr & _ & Hlowest); [discriminate|].
  vm_compute in Hr. injection Hr as <-.
  specialize (Hlowest 0%nat eq_refl). simpl in Hlowest. lia.
Qed.

Lemma sample_randomIndex_lt (n s : nat) :
  (0 < n)%nat → (fst (Sample.randomIndex n s) < n)%nat.
Proof. intros Hn. simpl. apply Nat.mod_upper_bound. lia. Qed.

Lemma predict_probabilities_witness :
  ∃ (m : RandomForestTrainer.forest) (probabilities : list Q),
    RandomForestTrainer.model Sample.trained = Some m
    ∧ RandomForestTrainer.trees m ≠ []
    ∧ RandomForestTrainer.predict (H := exactNumber) Sample.getImageData
        Sample.trained "red" = Return probabilities
    ∧ length probabilities
      = S (max_list (RandomForestTrainer.labels Sample.twoImages))
    ∧ (∀ i, (i < length probabilities)%nat →
         probabilities !! i
         = Some (jsdiv (H := exactNumber)
                   (Z.of_nat (RandomForestTrainer.votesFor
                      (RandomForestTrainer.computeImageFeatures (H := exactNumber)
                         (concat (replicate 256 [255; 0; 0; 255])))
                      (RandomForestTrainer.trees m) i))
                   (Z.of_nat (length (RandomForestTrainer.trees m)))))
    ∧ (Qabs (RandomForestTrainer.sumQ probabilities - 1) <= 1 # 1000000)%Q.
Proof.
  apply (predict_probabilities (H := exactNumber) Sample.getImageData
           Sample.randomIndex sample_randomIndex_lt 100 RandomForestTrainer.new
           Sample.trained Sample.twoImages 0%nat Sample.finalState Sample.result
           "red" (concat (replicate 256 [255; 0; 0; 255]))).
  - reflexivity.
  - vm_compute. discriminate.
  - vm_compute. reflexivity.
  - reflexivity.
Defined.

(** A training run reaches the failing call.  The first bootstrap sample
    holds both images; the feature drawn for the split is the top red bin,
    and the five threshold draws all pick its largest value, so that every
    sample goes left and the right partition is empty. *)
Example train_reaches_empty_partition :
  ∃ t s,
    RandomForestTrainer.train (H := exactNumber) Sample.getImageData Sample.scripted
      100 RandomForestTrainer.new Sample.twoImages
      ([0; 1; 3; 0; 0; 0; 0; 0; 1; 2]%nat, 0%nat)
    = Some (t, Throw (TypeError "Reduce of empty array with no initial value"), s)
    ∧ RandomForestTrainer.isTrained t = false.
Proof. eexists _, _. split; vm_compute; reflexivity. Qed.

(** ** The definitions at work *)

Example formatPredictions_top5 :
  Predictor.formatPredictions (Some [1 # 10; 5 # 10; 1 # 10; 3 # 10; 0; 2 # 10]%Q)
    ["cat"; ""; "dog"]
  = [{| Predictor.className := "Class 1"; Predictor.probability := 5 # 10 |};
     {| Predictor.className := "Class 3"; Predictor.probability := 3 # 10 |};
     {| Predictor.className := "Class 5"; Predictor.probability := 2 # 10 |};
     {| Predictor.className := "cat"; Predictor.probability := 1 # 10 |};
     {| Predictor.className := "dog"; Predictor.probability := 1 # 10 |}].
Proof. reflexivity. Qed.

Example ledger_survives_reset :
  ModelManager.ledgerIds
    (ModelManager.run
       [ModelManager.SetModel "cnn" (Some {| isTrained := true |});
        ModelManager.SaveModel "cnn" (Return {["type" := ModelManager.Str "cnn"]});
        ModelManager.Reset;
        ModelManager.SaveModel "cnn" (Return ∅);
        ModelManager.SetModel "randomForest" (Some {| isTrained := false |});
        ModelManager.ModelChanged "randomForest" true;
        ModelManager.SaveModel "randomForest"
          (Return {["type" := ModelManager.Str "random-forest"]})])
  = [Some (ModelManager.Num 0); Some (ModelManager.Num 1)].
Proof. vm_compute. reflexivity. Qed.

Example second_call_rejected_while_first_in_flight :
  let models := [("logisticRegression", None);
                 ("randomForest", Some {| isTrained := true |});
                 ("cnn", None)] in
  let s1 := Predictor.step Predictor.initial (Predictor.Call models ["cat"] (Some "x")) in
  let s2 := Predictor.step (fst s1) (Predictor.Call models ["cat"] (Some "y")) in
  let s3 := Predictor.step (fst s2) (Predictor.Settle 0 (Predictor.Failed "boom")) in
  let s4 := Predictor.step (fst s3) (Predictor.Call models ["cat"] None) in
  snd s1 = None
  ∧ snd s2 = Some Predictor.inProgress
  ∧ snd s3 = Some (Predictor.Resolved
                     [("logisticRegression", Predictor.notTrained);
                      ("randomForest", Predictor.predictionError "boom");
                      ("cnn", Predictor.notTrained)])
  ∧ snd s4 = Some (Predictor.Rejected (Error "Invalid image data URL"))
  ∧ Predictor.isPredicting (Predictor.instance (fst s4)) = false.
Proof. repeat split. Qed.

Example unanimous_vote_returns_key :
  RandomForestTrainer.predictInstance []
    [RandomForestTrainer.Leaf 1 2 None; RandomForestTrainer.Leaf 1 3 None]
  = Return (RandomForestTrainer.Key 1).
Proof. reflexivity. Qed.

(** * Further properties *)

(** ** Objects with ordered keys *)

Lemma get_assign_eq {V} (key : string) (v : V) (o : object V) :
  get key (assign key v o) = Some v.
Proof.
  induction o as [|[k w] o IH]; simpl.
  - by rewrite decide_True.
  - destruct (decide (key = k)); simpl.
    + by rewrite decide_True.
    + by rewrite decide_False.
Qed.

Lemma get_assign_ne {V} (key other : string) (v : V) (o : object V) :
  other ≠ key → get other (assign key v o) = get other o.
Proof.
  intros Hne. induction o as [|[k w] o IH]; simpl.
  - by rewrite decide_False.
  - destruct (decide (key = k)) as [->|]; simpl.
    + by rewrite !decide_False.
    + destruct (decide (other = k)); [reflexivity | exact IH].
Qed.

Lemma assign_keys {V} (key : string) (v : V) (o : object V) :
  key ∈ fst <$> o → fst <$> assign key v o = fst <$> o.
Proof.
  induction o as [|[k w] o IH]; simpl; intros Hin.
  - by apply elem_of_nil in Hin.
  - destruct (decide (key = k)) as [->|Hne]; simpl; [reflexivity|].
    f_equal. apply IH. apply elem_of_cons in Hin as [?|?]; [contradiction | done].
Qed.

Lemma get_Some_key {V} (key : string) (v : V) (o : object V) :
  get key o = Some v → key ∈ fst <$> o.
Proof.
  induction o as [|[k w] o IH]; simpl; [done|].
  destruct (decide (key = k)) as [->|Hne]; [intros _; left | right; auto].
Qed.

(** ** The model registry, continued *)

Section ModelManagerMore.
Import ModelManager.

Lemma validType_kinds (type : string) : validType type = true ↔ type ∈ kinds.
Proof. unfold validType. apply bool_decide_eq_true. Qed.

Lemma step_keys (m : manager) (op : operation) :
  fst <$> models m = kinds → fst <$> models (step m op) = kinds.
Proof.
  intros Hkeys.
  destruct op as [type model|?|?|type results|?| |type fromModel| | | |training| | |type tr];
    simpl; try exact Hkeys.
  - unfold setModel. destruct (validType type) eqn:Hvalid; [|exact Hkeys]. simpl.
    rewrite assign_keys; [exact Hkeys|]. rewrite Hkeys. by apply validType_kinds.
  - unfold setEvaluationResults. by destruct (validType type).
  - destruct (saveModel_cases m type fromModel) as [[e ->]|[literal [_ ->]]];
      exact Hkeys.
  - reflexivity.
  - unfold modelChanged. destruct (get type (models m)) as [slot|] eqn:Hget;
      [|exact Hkeys]. simpl. destruct slot as [model|]; [|exact Hkeys]. simpl.
    rewrite assign_keys; [exact Hkeys|]. by eapply get_Some_key.
Qed.

Lemma run_keys (ops : list operation) : fst <$> models (run ops) = kinds.
Proof.
  unfold run. induction ops as [|op ops IH] using rev_ind; [reflexivity|].
  rewrite foldl_app. simpl. by apply step_keys.
Qed.

(** X1. The slots of a manager are, after any sequence of operations, exactly the
    three backend kinds in the order of the constructor: no operation adds,
    removes, duplicates or reorders a slot. *)
Theorem models_keys_fixed (ops : list operation) :
  fst <$> models (run ops) = ["logisticRegression"; "randomForest"; "cnn"]
  ∧ NoDup (fst <$> models (run ops)).
Proof.
  pose proof (run_keys ops) as Hkeys.
  split; [exact Hkeys|]. rewrite Hkeys. apply (bool_decide_unpack _). by vm_compute.
Qed.

(** X2. [setModel] on a recognised kind installs the model in that slot and in no
    other, and touches neither the evaluation results, the ledger, the store
    nor the training flag; on any other kind it throws "Invalid model type:
    <kind>" and changes nothing, and [getModel] throws the same error. *)
Theorem setModel_getModel (m : manager) (type : string) (model : option modelObject) :
  if validType type
  then snd (setModel m type model) = Return ()
       ∧ getModel (fst (setModel m type model)) type = Return model
       ∧ (∀ other, other ≠ type →
            getModel (fst (setModel m type model)) other = getModel m other)
       ∧ evaluationResults (fst (setModel m type model)) = evaluationResults m
       ∧ savedModels (fst (setModel m type model)) = savedModels m
       ∧ store (fst (setModel m type model)) = store m
       ∧ isTraining (fst (setModel m type model)) = isTraining m
  else setModel m type model = (m, Throw (Error ("Invalid model type: " +:+ type)))
       ∧ getModel m type = Throw (Error ("Invalid model type: " +:+ type)).
Proof.
  unfold setModel, getModel. destruct (validType type) eqn:Hvalid; simpl.
  - rewrite get_assign_eq. repeat split; try reflexivity.
    intros other Hne. destruct (validType other); [|reflexivity].
    by rewrite get_assign_ne.
  - split; reflexivity.
Qed.

(** X3. Evaluation results are stored per kind: what [setEvaluationResults]
    stored for a recognised kind is what [getEvaluationResults] returns for
    it, other kinds keep their results, and after [reset] every recognised
    kind reads as null. *)
Theorem evaluationResults_roundtrip (m : manager) (type : string)
    (results : gmap string value) :
  validType type = true →
  getEvaluationResults (fst (setEvaluationResults m type results)) type
  = Return (Some results)
  ∧ (∀ other, other ≠ type →
       getEvaluationResults (fst (setEvaluationResults m type results)) other
       = getEvaluationResults m other)
  ∧ getEvaluationResults (reset (fst (setEvaluationResults m type results))) type
    = Return None.
Proof.
  intros Hvalid. unfold setEvaluationResults, getEvaluationResults. rewrite Hvalid.
  simpl. split; [by rewrite lookup_insert_eq|]. split.
  - intros other Hne. destruct (validType other); [|reflexivity].
    by rewrite lookup_insert_ne.
  - by rewrite lookup_empty.
Qed.

(** X4. After [reset] nothing is trained: the count of trained models is 0,
    [isModelTrained] returns [null] for each of the three kinds (their slots
    are empty) and [false] for any other type, and [saveModel] throws
    "Model <kind> is not trained" for every kind, leaving the manager as
    [reset] left it. *)
Theorem reset_untrained (m : manager) (type : string)
    (fromModel : completion descriptor) :
  getTrainedModelsCount (reset m) = 0%nat
  ∧ getTrainingStatus (reset m)
    = [("logisticRegression", Null); ("randomForest", Null); ("cnn", Null)]
  ∧ isModelTrained (reset m) type
    = (if bool_decide (type ∈ ["logisticRegression"; "randomForest"; "cnn"])
       then Null else Boolean false)
  ∧ saveModel (reset m) type fromModel
    = (reset m, Throw (Error ("Model " +:+ type +:+ " is not trained"))).
Proof.
  assert (Huntrained : isModelTrained (reset m) type
                       = if validType type then Null else Boolean false).
  { unfold isModelTrained. destruct (validType type) eqn:Hvalid; [|reflexivity].
    apply validType_kinds in Hvalid. unfold kinds in Hvalid.
    repeat (apply elem_of_cons in Hvalid as [->|Hvalid]; [reflexivity|]).
    by apply elem_of_nil in Hvalid. }
  split; [reflexivity|]. split; [reflexivity|]. split; [exact Huntrained|].
  unfold saveModel. rewrite Huntrained. by destruct (validType type).
Qed.

End ModelManagerMore.

Lemma evaluationResults_roundtrip_witness :
  ModelManager.getEvaluationResults
    (fst (ModelManager.setEvaluationResults ModelManager.new "cnn"
            {["accuracy" := ModelManager.Num (4 # 5)]})) "cnn"
  = Return (Some {["accuracy" := ModelManager.Num (4 # 5)]})
  ∧ (∀ other, other ≠ "cnn" →
       ModelManager.getEvaluationResults
         (fst (ModelManager.setEvaluationResults ModelManager.new "cnn"
                 {["accuracy" := ModelManager.Num (4 # 5)]})) other
       = ModelManager.getEvaluationResults ModelManager.new other)
  ∧ ModelManager.getEvaluationResults
      (ModelManager.reset
         (fst (ModelManager.setEvaluationResults ModelManager.new "cnn"
                 {["accuracy" := ModelManager.Num (4 # 5)]}))) "cnn"
    = Return None.
Proof.
  apply (evaluationResults_roundtrip ModelManager.new "cnn"
           {["accuracy" := ModelManager.Num (4 # 5)]}).
  reflexivity.
Defined.

(** ** The prediction aggregator, continued *)

Section PredictorMore.
Import Predictor.

Lemma insertSorted_perm (x : prediction) (l : list prediction) :
  insertSorted x l ≡ₚ x :: l.
Proof.
  induction l as [|y l IH]; simpl; [reflexivity|].
  destruct (Qle_bool (probability y) (probability x)); [reflexivity|].
  rewrite IH. apply Permutation_swap.
Qed.

Lemma sortDescending_perm (l : list prediction) : sortDescending l ≡ₚ l.
Proof.
  induction l as [|x l IH]; simpl; [reflexivity|].
  unfold sortDescending in *. simpl. by rewrite insertSorted_perm, IH.
Qed.

Lemma insertSorted_sorted (x : prediction) (l : list prediction) :
  StronglySorted descending l → StronglySorted descending (insertSorted x l).
Proof.
  induction 1 as [|y l Hsorted IH Hy]; simpl.
  - repeat constructor.
  - destruct (Qle_bool (probability y) (probability x)) eqn:Hle.
    + apply Qle_bool_iff in Hle. constructor; [by constructor|].
      constructor; [exact Hle|]. eapply Forall_impl; [exact Hy|].
      intros z Hz. unfold descending in *. by eapply Qle_trans.
    + constructor; [exact IH|]. rewrite insertSorted_perm. constructor; [|exact Hy].
      unfold descending. destruct (Qlt_le_dec (probability y) (probability x)) as [Hlt|Hge].
      * apply Qlt_le_weak, Qle_bool_iff in Hlt. congruence.
      * apply Qnot_lt_le. intros Hlt. apply Qlt_le_weak, Qle_bool_iff in Hlt. congruence.
Qed.

Lemma sortDescending_sorted (l : list prediction) :
  StronglySorted descending (sortDescending l).
Proof.
  induction l as [|x l IH]; [constructor|]. by apply insertSorted_sorted.
Qed.

(** X5. [formatPredictions] on an array returns a ranking: as many entries as
    there are probabilities, but at most five, in non-increasing order of
    probability; on a value that is not an array it returns the single
    placeholder entry named "Invalid prediction", with probability 0. *)
Theorem formatPredictions_ranked (probabilities : list Q) (classNames : list string) :
  length (formatPredictions (Some probabilities) classNames)
  = Nat.min 5 (length probabilities)
  ∧ StronglySorted descending (formatPredictions (Some probabilities) classNames)
  ∧ formatPredictions None classNames
    = [{| className := "Invalid prediction"; probability := 0 |}].
Proof.
  unfold formatPredictions. split; [|split; [|reflexivity]].
  - rewrite length_take, sortDescending_perm, length_imap. reflexivity.
  - eapply (StronglySorted_app_1_l descending _ (drop 5 _)).
    rewrite take_drop. apply sortDescending_sorted.
Qed.

(** X6. The ranking is made of the input: every entry pairs one of the
    probabilities with the name of its index (the class name if there is a
    non-empty one, "Class <index>" otherwise), no entry is used twice, nothing
    is dropped when there are at most five probabilities, and the first entry
    carries a greatest probability. *)
Theorem formatPredictions_entries (probabilities : list Q) (classNames : list string) :
  formatPredictions (Some probabilities) classNames
    ⊆+ imap (labelOf classNames) probabilities
  ∧ ((length probabilities ≤ 5)%nat →
       formatPredictions (Some probabilities) classNames
         ≡ₚ imap (labelOf classNames) probabilities)
  ∧ (∀ first p,
       head (formatPredictions (Some probabilities) classNames) = Some first →
       p ∈ probabilities → (p <= probability first)%Q).
Proof.
  unfold formatPredictions.
  change (imap _ probabilities) with (imap (labelOf classNames) probabilities).
  set (entries := imap (labelOf classNames) probabilities).
  pose proof (sortDescending_perm entries) as Hperm.
  pose proof (sortDescending_sorted entries) as Hsorted.
  split; [|split].
  - rewrite <- Hperm at 2. apply sublist_submseteq, sublist_take.
  - intros Hlen. rewrite take_ge; [exact Hperm|].
    rewrite Hperm. unfold entries. rewrite length_imap. exact Hlen.
  - intros first p Hhead Hp.
    apply list_elem_of_lookup in Hp as [i Hi].
    assert (Hin : labelOf classNames i p ∈ sortDescending entries).
    { rewrite Hperm. unfold entries. apply list_elem_of_lookup. exists i.
      by rewrite list_lookup_imap, Hi. }
    destruct (sortDescending entries) as [|e rest]; [by apply elem_of_nil in Hin|].
    simpl in Hhead. injection Hhead as <-.
    apply StronglySorted_inv in Hsorted as [_ Hall].
    apply elem_of_cons in Hin as [<-|Hin]; [apply Qle_refl|].
    rewrite Forall_forall in Hall. exact (Hall _ Hin).
Qed.

Lemma maxOf_spec (rest : list Q) :
  ∀ first : Q,
    maxOf first rest ∈ first :: rest
    ∧ ∀ y, y ∈ first :: rest → (y <= maxOf first rest)%Q.
Proof.
  unfold maxOf. induction rest as [|x rest IH]; intros first; simpl.
  - split; [left|]. intros y Hy. apply list_elem_of_singleton in Hy as ->. apply Qle_refl.
  - destruct (Qle_bool x first) eqn:Hle.
    + apply Qle_bool_iff in Hle. destruct (IH first) as [Hin Hmax]. split.
      * apply elem_of_cons in Hin as [->|Hin]; [left | right; by right].
      * intros y Hy. apply elem_of_cons in Hy as [->|Hy]; [apply Hmax; left|].
        apply elem_of_cons in Hy as [->|Hy]; [|apply Hmax; by right].
        eapply Qle_trans; [exact Hle|]. apply Hmax. left.
    + assert (Hlt : (first <= x)%Q).
      { destruct (Qlt_le_dec first x) as [Hlt|Hge]; [by apply Qlt_le_weak|].
        apply Qle_bool_iff in Hge. congruence. }
      destruct (IH x) as [Hin Hmax]. split; [by right|].
      intros y Hy. apply elem_of_cons in Hy as [->|Hy]; [|by apply Hmax].
      eapply Qle_trans; [exact Hlt|]. apply Hmax. left.
Qed.

Lemma indexOf_spec (v : Q) (l : list Q) :
  ∀ from : Z,
    v ∈ l →
    ∃ (i : nat) (x : Q),
      indexOf v l from = from + Z.of_nat i
      ∧ l !! i = Some x ∧ (x == v)%Q
      ∧ ∀ j y, (j < i)%nat → l !! j = Some y → ¬ (y == v)%Q.
Proof.
  induction l as [|x l IH]; intros from Hin; [by apply elem_of_nil in Hin|].
  simpl. destruct (Qeq_bool x v) eqn:Heq.
  - exists 0%nat, x. split; [lia|]. split; [reflexivity|].
    split; [by apply Qeq_bool_iff|]. intros j y Hj. lia.
  - assert (Hne : ¬ (x == v)%Q).
    { intros Hxv. apply Qeq_bool_iff in Hxv. congruence. }
    apply elem_of_cons in Hin as [->|Hin]; [exfalso; apply Hne; reflexivity|].
    destruct (IH (from + 1) Hin) as (i & y & Hidx & Hy & Hyv & Hfirst).
    exists (S i), y. split; [lia|]. split; [exact Hy|]. split; [exact Hyv|].
    intros j z Hj Hz. destruct j as [|j]; simpl in Hz.
    + by injection Hz as <-.
    + apply (Hfirst j); [lia | exact Hz].
Qed.

(** X7. The predicted class of a probability vector is the first index that holds
    its greatest value: every entry is at most the entry there and every
    earlier entry is strictly smaller, so that a tie goes to the lowest class
    index; for an empty vector it is -1, which is never counted. *)
Theorem argmax_first_greatest (prediction : list Q) :
  match prediction with
  | [] => argmax prediction = -1
  | _ =>
      ∃ (i : nat) (x : Q),
        argmax prediction = Z.of_nat i
        ∧ prediction !! i = Some x
        ∧ (∀ y, y ∈ prediction → (y <= x)%Q)
        ∧ (∀ j y, (j < i)%nat → prediction !! j = Some y → (y < x)%Q)
  end.
Proof.
  destruct prediction as [|first rest]; [reflexivity|].
  destruct (maxOf_spec rest first) as [Hin Hmax].
  destruct (indexOf_spec _ _ 0 Hin) as (i & x & Hidx & Hx & Hxv & Hfirst).
  exists i, x. split; [unfold argmax; rewrite Hidx; lia|]. split; [exact Hx|]. split.
  - intros y Hy. rewrite Hxv. by apply Hmax.
  - intros j y Hj Hy. rewrite Hxv.
    assert (Hle : (y <= maxOf first rest)%Q)
      by (apply Hmax; by eapply list_elem_of_lookup_2).
    apply Qle_lteq in Hle as [Hlt|Heq]; [exact Hlt|].
    exfalso. by eapply Hfirst.
Qed.

(** *** Confusion matrix *)

Lemma filter_all {A} (P : A → Prop) `{∀ x, Decision (P x)} (l : list A) :
  Forall P l → filter P l = l.
Proof.
  induction 1 as [|x l Hx _ IH]; [reflexivity|].
  by rewrite filter_cons_True, IH.
Qed.

Lemma sumZ_alter (f : Z → Z) (i : nat) (l : list Z) (x : Z) :
  l !! i = Some x → Metrics.sumZ (alter f i l) = Metrics.sumZ l + (f x - x).
Proof.
  revert i. induction l as [|y l IH]; intros i Hi; [done|].
  destruct i as [|i]; simpl in Hi.
  - injection Hi as ->. unfold Metrics.sumZ. cbn. lia.
  - specialize (IH i Hi). unfold Metrics.sumZ in *. cbn in *. lia.
Qed.

Lemma total_alter (g : list Z → list Z) (a : nat) (matrix : Metrics.matrix)
    (row : list Z) :
  matrix !! a = Some row →
  total (alter g a matrix) = total matrix + (Metrics.sumZ (g row) - Metrics.sumZ row).
Proof.
  revert a. induction matrix as [|r matrix IH]; intros a Ha; [done|].
  destruct a as [|a]; simpl in Ha.
  - injection Ha as ->. unfold total, Metrics.sumZ. cbn. lia.
  - specialize (IH a Ha). unfold total, Metrics.sumZ in *. cbn in *. lia.
Qed.

Lemma inRange_spec (n : nat) (actualClass predictedClass : Z) :
  inRange n actualClass predictedClass = true
  ↔ (Z.to_nat actualClass < n)%nat ∧ (Z.to_nat predictedClass < n)%nat
    ∧ 0 ≤ actualClass ∧ 0 ≤ predictedClass.
Proof.
  unfold inRange. rewrite !andb_true_iff, !Z.leb_le, !Z.ltb_lt. lia.
Qed.

Lemma incrementCell_shaped (n : nat) (matrix : Metrics.matrix) (a p : Z) :
  shaped n matrix → shaped n (incrementCell matrix a p).
Proof.
  intros [Hlen Hrows]. unfold incrementCell, Metrics.matrix in *.
  split; [by rewrite length_alter|].
  apply Forall_alter; [exact Hrows|]. intros row _ Hrow. cbv beta in *.
  by rewrite length_alter.
Qed.

Lemma incrementCell_nonneg (matrix : Metrics.matrix) (a p : Z) :
  Metrics.nonneg matrix → Metrics.nonneg (incrementCell matrix a p).
Proof.
  intros Hm. unfold incrementCell. apply Forall_alter; [exact Hm|].
  intros row _ Hrow. apply Forall_alter; [exact Hrow|]. intros x _ Hx. simpl. lia.
Qed.

Lemma incrementCell_total (n : nat) (matrix : Metrics.matrix) (a p : Z) :
  shaped n matrix → inRange n a p = true →
  total (incrementCell matrix a p) = total matrix + 1.
Proof.
  intros [Hlen Hrows] Hin. apply inRange_spec in Hin as (Ha & Hp & _).
  destruct (lookup_lt_is_Some_2 matrix (Z.to_nat a)) as [row Hrow]; [lia|].
  assert (Hrowlen : length row = n).
  { rewrite Forall_forall in Hrows. apply Hrows. by eapply list_elem_of_lookup_2. }
  destruct (lookup_lt_is_Some_2 row (Z.to_nat p)) as [x Hx]; [lia|].
  unfold incrementCell, Metrics.matrix in *. rewrite (total_alter _ _ _ row Hrow).
  rewrite (sumZ_alter _ _ _ x Hx). lia.
Qed.

Lemma incrementCell_cell (n : nat) (matrix : Metrics.matrix) (a p : Z) (i j : nat) :
  shaped n matrix → inRange n a p = true →
  Metrics.cell (incrementCell matrix a p) i j
  = Metrics.cell matrix i j
    + (if decide (i = Z.to_nat a ∧ j = Z.to_nat p) then 1 else 0).
Proof.
  intros [Hlen Hrows] Hin. apply inRange_spec in Hin as (Ha & Hp & _).
  destruct (lookup_lt_is_Some_2 matrix (Z.to_nat a)) as [row Hrow]; [lia|].
  assert (Hrowlen : length row = n).
  { rewrite Forall_forall in Hrows. apply Hrows. by eapply list_elem_of_lookup_2. }
  destruct (lookup_lt_is_Some_2 row (Z.to_nat p)) as [x Hx]; [lia|].
  unfold Metrics.cell, incrementCell, Metrics.matrix in *.
  destruct (decide (i = Z.to_nat a)) as [->|Hi].
  - rewrite list_lookup_alter, decide_True by done. rewrite Hrow. simpl.
    destruct (decide (j = Z.to_nat p)) as [->|Hj].
    + rewrite list_lookup_alter, decide_True, Hx, decide_True by done. simpl. lia.
    + rewrite list_lookup_alter_ne by done. rewrite decide_False by tauto. lia.
  - rewrite list_lookup_alter_ne by done. rewrite decide_False by tauto. lia.
Qed.

Lemma sumZ_indicator (n : nat) (f : nat → Z) (k : nat) :
  (k < n)%nat →
  Metrics.sumZ ((λ i, f i + (if decide (i = k) then 1 else 0)) <$> seq 0 n)
  = Metrics.sumZ (f <$> seq 0 n) + 1.
Proof.
  intros Hk.
  assert (Hgen : ∀ m : nat,
    Metrics.sumZ ((λ i, f i + (if decide (i = k) then 1 else 0)) <$> seq 0 m)
    = Metrics.sumZ (f <$> seq 0 m) + (if decide (k < m)%nat then 1 else 0)).
  { induction m as [|m IH]; [reflexivity|].
    rewrite seq_S, !fmap_app. unfold Metrics.sumZ in *. rewrite !foldr_app. simpl.
    assert (Hshift : ∀ (l : list Z) (z : Z), foldr Z.add z l = foldr Z.add 0 l + z).
    { induction l as [|y l IHl]; intros z; simpl; [lia|]. rewrite IHl. lia. }
    rewrite (Hshift _ (f m + _ + 0)), (Hshift _ (f m + 0)), IH.
    repeat case_decide; lia. }
  rewrite Hgen. by rewrite decide_True.
Qed.

Lemma sumZ_ext (f g : nat → Z) (l : list nat) :
  (∀ i, f i = g i) → Metrics.sumZ (f <$> l) = Metrics.sumZ (g <$> l).
Proof. intros Hfg. f_equal. apply list_fmap_ext. auto. Qed.

Lemma incrementCell_diagonal (n : nat) (matrix : Metrics.matrix) (a p : Z) :
  shaped n matrix → inRange n a p = true →
  diagonal (incrementCell matrix a p)
  = diagonal matrix + (if p =? a then 1 else 0).
Proof.
  intros Hshape Hin. pose proof Hshape as [Hlen _].
  pose proof (incrementCell_shaped n matrix a p Hshape) as [Hlen' _].
  unfold diagonal, Metrics.TP. rewrite Hlen, Hlen'.
  rewrite (sumZ_ext _ (λ i, Metrics.cell matrix i i
             + (if decide (i = Z.to_nat a ∧ i = Z.to_nat p) then 1 else 0)))
    by (intros i; by apply (incrementCell_cell n)).
  apply inRange_spec in Hin as (Ha & Hp & Ha0 & Hp0).
  destruct (Z.eqb_spec p a) as [->|Hne].
  - rewrite <- (sumZ_indicator n _ (Z.to_nat a)) by exact Ha.
    apply sumZ_ext. intros i. repeat case_decide; try lia; tauto.
  - rewrite Z.add_0_r. apply sumZ_ext. intros i.
    rewrite decide_False; [lia|]. intros [-> Hp']. apply Hne. lia.
Qed.

Lemma countSamples_facts (n : nat) (predictions : list (list Q)) :
  ∀ (actualLabels : list Z) (matrix : Metrics.matrix),
    shaped n matrix → Metrics.nonneg matrix →
    shaped n (countSamples n predictions actualLabels matrix)
    ∧ Metrics.nonneg (countSamples n predictions actualLabels matrix)
    ∧ total (countSamples n predictions actualLabels matrix)
      = total matrix
        + Z.of_nat (length (filter (λ s, counted n s) (zip predictions actualLabels)))
    ∧ diagonal (countSamples n predictions actualLabels matrix)
      = diagonal matrix
        + Z.of_nat (length (filter (λ s, hit n s) (zip predictions actualLabels))).
Proof.
  induction predictions as [|prediction predictions IH];
    intros actualLabels matrix Hshape Hnonneg.
  - split; [exact Hshape|]. split; [exact Hnonneg|].
    split; symmetry; apply Z.add_0_r.
  - destruct actualLabels as [|actualClass actualLabels].
    { split; [exact Hshape|]. split; [exact Hnonneg|].
    split; symmetry; apply Z.add_0_r. }
    cbn [countSamples zip zip_with].
    assert (Hc : counted n (prediction, actualClass)
                 = inRange n actualClass (argmax prediction)) by reflexivity.
    assert (Hh : hit n (prediction, actualClass)
                 = inRange n actualClass (argmax prediction)
                   && (argmax prediction =? actualClass)) by reflexivity.
    destruct (inRange n actualClass (argmax prediction)) eqn:Hin.
    + destruct (IH actualLabels (incrementCell matrix actualClass (argmax prediction)))
        as (Hs & Hn & Ht & Hd);
        [by apply incrementCell_shaped | by apply incrementCell_nonneg|].
      split; [exact Hs|]. split; [exact Hn|].
      rewrite Ht, Hd, (incrementCell_total n), (incrementCell_diagonal n) by done.
      rewrite (filter_cons_True (λ s, counted n s)) by (rewrite Hc; exact I).
      destruct (argmax prediction =? actualClass) eqn:Heq.
      * rewrite (filter_cons_True (λ s, hit n s)) by (rewrite Hh; exact I).
        cbn [length]. split; lia.
      * rewrite (filter_cons_False (λ s, hit n s)) by (rewrite Hh; intros []).
        cbn [length]. split; lia.
    + destruct (IH actualLabels matrix Hshape Hnonneg) as (Hs & Hn & Ht & Hd).
      split; [exact Hs|]. split; [exact Hn|]. rewrite Ht, Hd.
      rewrite (filter_cons_False (λ s, counted n s)) by (rewrite Hc; intros []).
      rewrite (filter_cons_False (λ s, hit n s)) by (rewrite Hh; intros []).
      split; reflexivity.
Qed.

Lemma zeros_shaped (n : nat) : shaped n (replicate n (replicate n 0)).
Proof.
  split; [apply length_replicate|]. apply Forall_replicate, length_replicate.
Qed.

Lemma zeros_total (n k : nat) : total (replicate k (replicate n 0)) = 0.
Proof.
  unfold total. rewrite fmap_replicate.
  assert (Hz : ∀ m, Metrics.sumZ (replicate m 0) = 0)
    by (induction m as [|m IHm]; [reflexivity | exact IHm]).
  rewrite Hz. apply Hz.
Qed.

Lemma zeros_diagonal (n : nat) : diagonal (replicate n (replicate n 0)) = 0.
Proof.
  unfold diagonal. rewrite length_replicate.
  rewrite (sumZ_ext _ (λ _, 0)).
  - induction (seq 0 n) as [|i l IH]; [reflexivity | exact IH].
  - intros i. unfold Metrics.TP, Metrics.cell, Metrics.matrix.
    destruct (decide (i < n)%nat).
    + rewrite lookup_replicate_2 by done. simpl. by rewrite lookup_replicate_2.
    + rewrite (proj1 (lookup_replicate_None n (replicate n 0) i)); [reflexivity | lia].
Qed.

(** X8. [generateConfusionMatrix] throws "Invalid input for confusion matrix" when
    an argument is missing; otherwise it returns a square matrix with one row
    and one column per class name, whose cells are non-negative: a matrix
    [calculateMetrics] accepts. *)
Theorem generateConfusionMatrix_shape (predictions : list (list Q))
    (actualLabels : list Z) (classNames : list string) :
  (∃ matrix,
     generateConfusionMatrix (Some predictions) (Some actualLabels) (Some classNames)
     = Return matrix
     ∧ length matrix = length classNames
     ∧ Metrics.square matrix
     ∧ Metrics.nonneg matrix)
  ∧ generateConfusionMatrix None (Some actualLabels) (Some classNames)
    = Throw (Error "Invalid input for confusion matrix")
  ∧ generateConfusionMatrix (Some predictions) None (Some classNames)
    = Throw (Error "Invalid input for confusion matrix")
  ∧ generateConfusionMatrix (Some predictions) (Some actualLabels) None
    = Throw (Error "Invalid input for confusion matrix").
Proof.
  split; [|repeat split]. eexists. split; [reflexivity|].
  destruct (countSamples_facts (length classNames) predictions actualLabels
              (replicate (length classNames) (replicate (length classNames) 0)))
    as ([Hlen Hrows] & Hnonneg & _).
  - apply zeros_shaped.
  - apply Forall_replicate, Forall_replicate. lia.
  - split; [exact Hlen|]. split; [|exact Hnonneg].
    unfold Metrics.square. by rewrite Hlen.
Qed.

(** X9. Every sample is counted at most once, in the cell of its actual row and
    its predicted column (the first index of the greatest probability): the
    cells add up to the number of samples whose label and prediction are both
    in range, the diagonal to those among them that were predicted right, and
    a prediction without a label is ignored.  When no sample is out of range
    the cells add up to the number of samples. *)
Theorem generateConfusionMatrix_counts (predictions : list (list Q))
    (actualLabels : list Z) (classNames : list string) :
  ∃ matrix,
    generateConfusionMatrix (Some predictions) (Some actualLabels) (Some classNames)
    = Return matrix
    ∧ total matrix
      = Z.of_nat (length (filter (λ s, counted (length classNames) s)
                                 (zip predictions actualLabels)))
    ∧ diagonal matrix
      = Z.of_nat (length (filter (λ s, hit (length classNames) s)
                                 (zip predictions actualLabels)))
    ∧ (length predictions = length actualLabels →
       Forall (λ s, counted (length classNames) s) (zip predictions actualLabels) →
       total matrix = Z.of_nat (length predictions)).
Proof.
  eexists. split; [reflexivity|].
  destruct (countSamples_facts (length classNames) predictions actualLabels
              (replicate (length classNames) (replicate (length classNames) 0)))
    as (_ & _ & Ht & Hd).
  - apply zeros_shaped.
  - apply Forall_replicate, Forall_replicate. lia.
  - rewrite zeros_total in Ht. rewrite zeros_diagonal in Hd.
    split; [by rewrite Ht|]. split; [by rewrite Hd|].
    intros Hlen Hall. rewrite Ht, Z.add_0_l. f_equal.
    rewrite filter_all by exact Hall.
    rewrite length_zip_with. lia.
Qed.

(** *** Batch prediction *)

Lemma predictBatchLoop_idle (inputs : list batchInput) :
  ∀ acc : list batchItem,
    Forall (λ input, NoDup (fst <$> models_ input)) inputs →
    predictBatchLoop {| isPredicting := false |} inputs acc
    = Some ({| isPredicting := false |}, acc ++ (expectedItem <$> inputs)).
Proof.
  induction inputs as [|input inputs IH]; intros acc Hdup; simpl.
  - by rewrite app_nil_r.
  - apply Forall_cons in Hdup as [Hinput Hdup]. unfold predictImage, expectedItem.
    cbn [isPredicting]. destruct (invalidUrl (imageDataUrl_ input)).
    + cbn [finish]. rewrite settleAll_settled. cbn [messageOf].
      rewrite IH by exact Hdup. by rewrite <- app_assoc.
    + rewrite loop_settleAll by (try lia; exact Hinput). cbn [app].
      rewrite IH by exact Hdup. by rewrite <- app_assoc.
Qed.

(** X10. A batch run on an idle instance returns one item per input, in order: the
    message "Invalid image data URL" for an input that is not a non-empty
    string, which does not stop the batch, and the full per-backend result
    for every other input; the instance is idle again at the end.  An
    argument that is not an array is rejected. *)
Theorem predictBatch_one_item_per_input (inputs : list batchInput) :
  Forall (λ input, NoDup (fst <$> models_ input)) inputs →
  predictBatch {| isPredicting := false |} (Some inputs)
  = Some ({| isPredicting := false |}, Return (expectedItem <$> inputs))
  ∧ predictBatch {| isPredicting := false |} None
    = Some ({| isPredicting := false |},
            Throw (Error "Image data URLs must be an array")).
Proof.
  intros Hdup. split; [|reflexivity]. unfold predictBatch.
  by rewrite predictBatchLoop_idle.
Qed.

Lemma predictBatchLoop_busy (inputs : list batchInput) :
  ∀ acc : list batchItem,
    predictBatchLoop {| isPredicting := true |} inputs acc
    = Some ({| isPredicting := true |},
            acc ++ replicate (length inputs) (ItemError "Prediction already in progress")).
Proof.
  induction inputs as [|input inputs IH]; intros acc; simpl.
  - by rewrite app_nil_r.
  - unfold predictImage. cbn [isPredicting]. rewrite settleAll_settled.
    cbn [messageOf]. rewrite IH. by rewrite <- app_assoc.
Qed.

(** X11. A batch run while a call is in flight on the instance, and for as long as
    that call has not settled, gets the in-progress message for every input
    and does not release the guard the other call holds. *)
Theorem predictBatch_while_busy (inputs : list batchInput) :
  predictBatch {| isPredicting := true |} (Some inputs)
  = Some ({| isPredicting := true |},
          Return (replicate (length inputs)
                    (ItemError "Prediction already in progress"))).
Proof. unfold predictBatch. by rewrite predictBatchLoop_busy. Qed.

End PredictorMore.

Lemma predictBatch_one_item_per_input_witness :
  Predictor.predictBatch {| Predictor.isPredicting := false |}
    (Some [ {| Predictor.imageDataUrl_ := Some "data:a";
               Predictor.models_ := [("randomForest", Some {| isTrained := true |});
                                     ("cnn", None)];
               Predictor.names_ := ["cat"; "dog"];
               Predictor.answer_ := λ _, Predictor.Fulfilled (Some [1 # 4; 3 # 4]%Q) 2 |};
            {| Predictor.imageDataUrl_ := None;
               Predictor.models_ := [("randomForest", Some {| isTrained := true |})];
               Predictor.names_ := ["cat"; "dog"];
               Predictor.answer_ := λ _, Predictor.Failed "boom" |} ])
  = Some ({| Predictor.isPredicting := false |},
          Return [Predictor.Predictions
                    [("randomForest",
                      {| Predictor.predictions :=
                           [{| Predictor.className := "dog"; Predictor.probability := 3 # 4 |};
                            {| Predictor.className := "cat"; Predictor.probability := 1 # 4 |}];
                         Predictor.inferenceTime := 2; Predictor.error := None |});
                     ("cnn", Predictor.notTrained)];
                  Predictor.ItemError "Invalid image data URL"])
  ∧ Predictor.predictBatch {| Predictor.isPredicting := false |} None
    = Some ({| Predictor.isPredicting := false |},
            Throw (Error "Image data URLs must be an array")).
Proof.
  apply (predictBatch_one_item_per_input
           [ {| Predictor.imageDataUrl_ := Some "data:a";
                Predictor.models_ := [("randomForest", Some {| isTrained := true |});
                                      ("cnn", None)];
                Predictor.names_ := ["cat"; "dog"];
                Predictor.answer_ := λ _, Predictor.Fulfilled (Some [1 # 4; 3 # 4]%Q) 2 |};
             {| Predictor.imageDataUrl_ := None;
                Predictor.models_ := [("randomForest", Some {| isTrained := true |})];
                Predictor.names_ := ["cat"; "dog"];
                Predictor.answer_ := λ _, Predictor.Failed "boom" |} ]).
  repeat constructor; apply (bool_decide_unpack _); vm_compute; exact I.
Defined.

(** *** Statistics *)

Section StatsFacts.
Import Predictor.
Context `{JsNumber}.

Lemma Qltb_lt (a b : Q) : Qltb a b = true ↔ (a < b)%Q.
Proof.
  unfold Qltb. rewrite negb_true_iff. split.
  - intros Hle. apply Qnot_le_lt. intros Hba. apply Qle_bool_iff in Hba. congruence.
  - intros Hlt. destruct (Qle_bool b a) eqn:Hle; [|reflexivity].
    apply Qle_bool_iff in Hle. by apply Qlt_not_le in Hlt.
Qed.

Lemma Qltb_ge (a b : Q) : Qltb a b = false ↔ (b <= a)%Q.
Proof.
  unfold Qltb. rewrite negb_false_iff. apply Qle_bool_iff.
Qed.

Lemma statsStep_counts (s s' : statsLoop) (entry : string * modelPrediction) :
  statsStep s entry = Return s' →
  predictions (snd entry) ≠ []
  ∧ l_totalModels s' = S (l_totalModels s)
  ∧ l_trainedModels s'
    = (l_trainedModels s + if confident (snd entry) then 1 else 0)%nat
  ∧ confidenceCount s'
    = (confidenceCount s + if confident (snd entry) then 1 else 0)%nat.
Proof.
  destruct entry as [modelType result]. unfold statsStep, confident. simpl.
  destruct (predictions result) as [|top rest]; [done|].
  destruct (Qltb 0 (probability top)); intros [= <-]; simpl;
    repeat split; try done; lia.
Qed.

Lemma statsLoopOver_counts (entries : object modelPrediction) :
  ∀ s : statsLoop,
    match statsLoopOver s entries with
    | Return s' =>
        Forall (λ e, predictions (snd e) ≠ []) entries
        ∧ l_totalModels s' = (l_totalModels s + length entries)%nat
        ∧ l_trainedModels s'
          = (l_trainedModels s + length (filter (λ e, confident (snd e)) entries))%nat
        ∧ confidenceCount s'
          = (confidenceCount s + length (filter (λ e, confident (snd e)) entries))%nat
    | Throw e =>
        e = TypeError "Cannot read properties of undefined (reading 'probability')"
        ∧ Exists (λ e, predictions (snd e) = []) entries
    end.
Proof.
  induction entries as [|entry entries IH]; intros s; simpl.
  - repeat split; [constructor | lia..].
  - destruct (statsStep s entry) as [s1|e] eqn:Hstep.
    + apply statsStep_counts in Hstep as (Hne & Htotal & Htrained & Hcount).
      specialize (IH s1). destruct (statsLoopOver s1 entries) as [s'|e].
      * destruct IH as (Hall & Ht & Htr & Hc). split; [by constructor|].
        rewrite Ht, Htr, Hc, Htotal, Htrained, Hcount.
        destruct (confident (snd entry)) eqn:Hconf.
        -- rewrite (filter_cons_True (λ e : string * modelPrediction, confident (snd e)))
             by (simpl; rewrite Hconf; exact I).
           cbn [length]. unfold object in *. repeat split; lia.
        -- rewrite (filter_cons_False (λ e : string * modelPrediction, confident (snd e)))
             by (simpl; rewrite Hconf; intros []).
           unfold object in *. repeat split; lia.
      * destruct IH as [-> Hex]. split; [reflexivity | by right].
    + destruct entry as [modelType result]. unfold statsStep in Hstep. simpl in *.
      destruct (predictions result) as [|top rest] eqn:Hpred.
      * injection Hstep as <-. split; [reflexivity | by left].
      * by destruct (Qltb 0 (probability top)).
Qed.

(** X12. [getPredictionStats] fails exactly when some record has no prediction at
    all (the probability of its first prediction is read without a check),
    with the [TypeError] of that read; otherwise it counts every record in
    [totalModels] and, in [trainedModels], the records whose first prediction
    has a positive probability. *)
Theorem getPredictionStats_counts (entries : object modelPrediction) :
  match getPredictionStats entries with
  | Return s =>
      Forall (λ e, predictions (snd e) ≠ []) entries
      ∧ totalModels s = length entries
      ∧ trainedModels s = length (filter (λ e, confident (snd e)) entries)
      ∧ (trainedModels s ≤ totalModels s)%nat
  | Throw e =>
      e = TypeError "Cannot read properties of undefined (reading 'probability')"
      ∧ Exists (λ e, predictions (snd e) = []) entries
  end.
Proof.
  unfold getPredictionStats. pose proof (statsLoopOver_counts entries statsStart) as Hloop.
  destruct (statsLoopOver statsStart entries) as [s|e]; [|exact Hloop].
  destruct Hloop as (Hall & Ht & Htr & _). simpl in *.
  split; [exact Hall|]. split; [exact Ht|]. split; [exact Htr|].
  rewrite Ht, Htr. apply length_filter.
Qed.

Lemma statsStep_timing (seen : object modelPrediction) (s s' : statsLoop)
    (entry : string * modelPrediction) :
  fastestOk seen (l_fastestModel s) (minTime s) →
  slowestOk seen (l_slowestModel s) (maxTime s) →
  statsStep s entry = Return s' →
  fastestOk (seen ++ [entry]) (l_fastestModel s') (minTime s')
  ∧ slowestOk (seen ++ [entry]) (l_slowestModel s') (maxTime s').
Proof.
  destruct entry as [modelType result]. intros Hfast Hslow. unfold statsStep.
  destruct (predictions result) as [|top rest] eqn:Hpred; [done|].
  assert (Htimed : timed result
                   = Qltb 0 (probability top) && Qltb 0 (inferenceTime result))
    by (unfold timed; by rewrite Hpred).
  destruct (Qltb 0 (probability top)) eqn:Hconf; intros [= <-]; simpl.
  2:{ (* not counted: nothing changes and the record is not timed *)
      simpl in Htimed. split.
      - unfold fastestOk in *. destruct (l_fastestModel s) as [k|].
        + destruct Hfast as (r & Hin & Hr & Hmin & Hall). exists r.
          split; [apply elem_of_app; by left|]. split; [exact Hr|]. split; [exact Hmin|].
          apply Forall_app. split; [exact Hall|]. constructor; [|constructor].
          simpl. congruence.
        + destruct Hfast as [Hmin Hall]. split; [exact Hmin|].
          apply Forall_app. split; [exact Hall|]. by repeat constructor.
      - unfold slowestOk in *. destruct (l_slowestModel s) as [k|].
        + destruct Hslow as (r & Hin & Hr & Hmax & Hall). exists r.
          split; [apply elem_of_app; by left|]. split; [exact Hr|]. split; [exact Hmax|].
          apply Forall_app. split; [exact Hall|]. constructor; [|constructor].
          simpl. congruence.
        + destruct Hslow as [Hmax Hall]. split; [exact Hmax|].
          apply Forall_app. split; [exact Hall|]. by repeat constructor. }
  simpl in Htimed. destruct (Qltb 0 (inferenceTime result)) eqn:Hpos; simpl.
  2:{ (* no positive time: the record is not timed *)
      split.
      - unfold fastestOk in *. destruct (l_fastestModel s) as [k|].
        + destruct Hfast as (r & Hin & Hr & Hmin & Hall). exists r.
          split; [apply elem_of_app; by left|]. split; [exact Hr|]. split; [exact Hmin|].
          apply Forall_app. split; [exact Hall|]. constructor; [|constructor].
          simpl. congruence.
        + destruct Hfast as [Hmin Hall]. split; [exact Hmin|].
          apply Forall_app. split; [exact Hall|]. by repeat constructor.
      - unfold slowestOk in *. destruct (l_slowestModel s) as [k|].
        + destruct Hslow as (r & Hin & Hr & Hmax & Hall). exists r.
          split; [apply elem_of_app; by left|]. split; [exact Hr|]. split; [exact Hmax|].
          apply Forall_app. split; [exact Hall|]. constructor; [|constructor].
          simpl. congruence.
        + destruct Hslow as [Hmax Hall]. split; [exact Hmax|].
          apply Forall_app. split; [exact Hall|]. by repeat constructor. }
  (* a timed record *)
  split.
  - unfold fastestOk in *. destruct (belowMin (inferenceTime result) (minTime s)) eqn:Hbelow.
    + exists result. split; [apply elem_of_app; right; left|]. split; [exact Htimed|].
      split; [reflexivity|]. apply Forall_app. split.
      * destruct (l_fastestModel s) as [k|].
        -- destruct Hfast as (r & _ & _ & Hmin & Hall). rewrite Hmin in Hbelow.
           simpl in Hbelow. apply Qltb_lt in Hbelow.
           eapply Forall_impl; [exact Hall|]. intros e He Hte. simpl in *.
           eapply Qle_trans; [by apply Qlt_le_weak | by apply He].
        -- destruct Hfast as [_ Hall]. eapply Forall_impl; [exact Hall|].
           intros e He Hte. simpl in *. congruence.
      * constructor; [|constructor]. intros _. apply Qle_refl.
    + destruct (l_fastestModel s) as [k|].
      * destruct Hfast as (r & Hin & Hr & Hmin & Hall). exists r.
        split; [apply elem_of_app; by left|]. split; [exact Hr|]. split; [exact Hmin|].
        apply Forall_app. split; [exact Hall|]. constructor; [|constructor].
        intros _. simpl. rewrite Hmin in Hbelow. simpl in Hbelow.
        by apply Qltb_ge in Hbelow.
      * destruct Hfast as [Hmin _]. rewrite Hmin in Hbelow. discriminate.
  - unfold slowestOk in *. destruct (Qltb (maxTime s) (inferenceTime result)) eqn:Habove.
    + apply Qltb_lt in Habove.
      exists result. split; [apply elem_of_app; right; left|]. split; [exact Htimed|].
      split; [reflexivity|]. apply Forall_app. split.
      * destruct (l_slowestModel s) as [k|].
        -- destruct Hslow as (r & _ & _ & Hmax & Hall). rewrite Hmax in Habove.
           eapply Forall_impl; [exact Hall|]. intros e He Hte. simpl in *.
           eapply Qle_trans; [by apply He | by apply Qlt_le_weak].
        -- destruct Hslow as [_ Hall]. eapply Forall_impl; [exact Hall|].
           intros e He Hte. simpl in *. congruence.
      * constructor; [|constructor]. intros _. apply Qle_refl.
    + apply Qltb_ge in Habove. destruct (l_slowestModel s) as [k|].
      * destruct Hslow as (r & Hin & Hr & Hmax & Hall). exists r.
        split; [apply elem_of_app; by left|]. split; [exact Hr|]. split; [exact Hmax|].
        apply Forall_app. split; [exact Hall|]. constructor; [|constructor].
        intros _. simpl. by rewrite <- Hmax.
      * destruct Hslow as [Hmax _]. rewrite Hmax in Habove.
        apply Qltb_lt in Hpos. by apply Qlt_not_le in Hpos.
Qed.

Lemma statsLoopOver_timing (entries : object modelPrediction) :
  ∀ (seen : object modelPrediction) (s s' : statsLoop),
    fastestOk seen (l_fastestModel s) (minTime s) →
    slowestOk seen (l_slowestModel s) (maxTime s) →
    statsLoopOver s entries = Return s' →
    fastestOk (seen ++ entries) (l_fastestModel s') (minTime s')
    ∧ slowestOk (seen ++ entries) (l_slowestModel s') (maxTime s').
Proof.
  induction entries as [|entry entries IH]; intros seen s s' Hfast Hslow Hrun;
    simpl in Hrun.
  - injection Hrun as <-. by rewrite app_nil_r.
  - destruct (statsStep s entry) as [s1|e] eqn:Hstep; [|done].
    destruct (statsStep_timing seen s s1 entry Hfast Hslow Hstep) as [Hfast1 Hslow1].
    rewrite (cons_middle entry), app_assoc. by eapply IH.
Qed.

(** X13. Among the records that take part in the timing (first prediction with a
    positive probability, positive inference time), [fastestModel] names one
    with the least time and [slowestModel] one with the greatest; both are
    null exactly when no record takes part. *)
Theorem getPredictionStats_fastest_slowest (entries : object modelPrediction) :
  match getPredictionStats entries with
  | Return s =>
      match fastestModel s with
      | Some k =>
          ∃ r, (k, r) ∈ entries ∧ timed r = true
               ∧ Forall (λ e, timed (snd e) = true →
                              (inferenceTime r <= inferenceTime (snd e))%Q) entries
      | None => Forall (λ e, timed (snd e) = false) entries
      end
      ∧ match slowestModel s with
        | Some k =>
            ∃ r, (k, r) ∈ entries ∧ timed r = true
                 ∧ Forall (λ e, timed (snd e) = true →
                                (inferenceTime (snd e) <= inferenceTime r)%Q) entries
        | None => Forall (λ e, timed (snd e) = false) entries
        end
  | Throw _ => Exists (λ e, predictions (snd e) = []) entries
  end.
Proof.
  unfold getPredictionStats.
  pose proof (statsLoopOver_counts entries statsStart) as Hcounts.
  destruct (statsLoopOver statsStart entries) as [s|e] eqn:Hrun; [|apply Hcounts].
  destruct (statsLoopOver_timing entries [] statsStart s) as [Hfast Hslow];
    [split; [reflexivity | constructor] | split; [reflexivity | constructor]
    | exact Hrun |].
  simpl in *. unfold fastestOk, slowestOk in *. split.
  - destruct (l_fastestModel s) as [k|]; [|apply Hfast].
    destruct Hfast as (r & Hin & Hr & _ & Hall). eauto.
  - destruct (l_slowestModel s) as [k|]; [|apply Hslow].
    destruct Hslow as (r & Hin & Hr & _ & Hall). eauto.
Qed.

(** X14. The placeholder records of [predictImage] never count as trained: on the
    result of a call in which every trained backend failed, the statistics
    report all backends in [totalModels], none in [trainedModels], an average
    confidence of 0 and neither a fastest nor a slowest backend. *)
Theorem getPredictionStats_placeholders
    (models : object (option modelObject)) (classNames : list string)
    (answer : string → predictOutcome) :
  Forall (λ entry, trained (snd entry) = true →
                   ∃ message, answer (fst entry) = Failed message) models →
  getPredictionStats (expected answer classNames <$> models)
  = Return {| totalModels := length models; trainedModels := 0;
              averageConfidence := 0; fastestModel := None; slowestModel := None |}.
Proof.
  intros Hfail. unfold getPredictionStats.
  assert (Hloop : ∀ s : statsLoop,
    statsLoopOver s (expected answer classNames <$> models)
    = Return {| l_totalModels := (l_totalModels s + length models)%nat;
                l_trainedModels := l_trainedModels s;
                totalConfidence := totalConfidence s;
                confidenceCount := confidenceCount s;
                minTime := minTime s; maxTime := maxTime s;
                l_fastestModel := l_fastestModel s;
                l_slowestModel := l_slowestModel s |}).
  { induction Hfail as [|[type model] models Hentry _ IH]; intros s.
    - simpl. rewrite Nat.add_0_r. by destruct s.
    - rewrite fmap_cons. cbn [statsLoopOver]. unfold expected at 1. cbn [fst snd] in *.
      assert (Hstep : ∀ r, (r = notTrained ∨ ∃ message, r = predictionError message) →
                statsStep s (type, r)
                = Return {| l_totalModels := S (l_totalModels s);
                            l_trainedModels := l_trainedModels s;
                            totalConfidence := totalConfidence s;
                            confidenceCount := confidenceCount s;
                            minTime := minTime s; maxTime := maxTime s;
                            l_fastestModel := l_fastestModel s;
                            l_slowestModel := l_slowestModel s |}).
      { intros r [->|[message ->]]; reflexivity. }
      rewrite Hstep.
      + rewrite IH. simpl. do 2 f_equal. lia.
      + destruct model as [[[|]]|]; [|by left..].
        destruct (Hentry eq_refl) as [message ->]. right. by exists message. }
  rewrite Hloop. reflexivity.
Qed.

End StatsFacts.

Lemma getPredictionStats_placeholders_witness :
  Predictor.getPredictionStats (H := exactNumber)
    (Predictor.expected (λ _, Predictor.Failed "boom") ["cat"]
       <$> [("logisticRegression", None);
            ("randomForest", Some {| isTrained := true |});
            ("cnn", Some {| isTrained := false |})])
  = Return {| Predictor.totalModels := 3; Predictor.trainedModels := 0;
              Predictor.averageConfidence := 0; Predictor.fastestModel := None;
              Predictor.slowestModel := None |}.
Proof.
  apply (getPredictionStats_placeholders (H := exactNumber)
           [("logisticRegression", None);
            ("randomForest", Some {| isTrained := true |});
            ("cnn", Some {| isTrained := false |})]
           ["cat"] (λ _, Predictor.Failed "boom")).
  repeat constructor; intros _; by exists "boom".
Defined.

(** *** Evaluation of every backend *)

Section EvaluationFacts.
Import Predictor.

Lemma get_fresh {V} (key : string) (o : object V) :
  key ∉ fst <$> o → get key o = None.
Proof.
  induction o as [|[k w] o IH]; simpl; intros Hfresh; [reflexivity|].
  rewrite not_elem_of_cons in Hfresh. destruct Hfresh as [Hne Hfresh].
  rewrite decide_False by done. by apply IH.
Qed.

(** What the manager holds for [type] once the loop has gone through
    [entries], starting from the manager [m]. *)
Lemma evaluateLoop_spec (answer : string → evaluateOutcome)
    (entries : list (string * option modelObject)) :
  ∀ (m : ModelManager.manager) (evaluations : object evaluation),
    NoDup (fst <$> entries) →
    Forall (λ entry, ModelManager.validType (fst entry) = true) entries →
    Forall (λ entry, fst entry ∉ fst <$> evaluations) entries →
    let m' := fst (evaluateLoop answer entries m evaluations) in
    snd (evaluateLoop answer entries m evaluations)
    = evaluations ++ (expectedEvaluation answer <$> entries)
    ∧ ModelManager.models m' = ModelManager.models m
    ∧ ModelManager.savedModels m' = ModelManager.savedModels m
    ∧ ModelManager.store m' = ModelManager.store m
    ∧ ModelManager.isTraining m' = ModelManager.isTraining m
    ∧ ∀ type,
        ModelManager.evaluationResults m' !! type
        = match get type entries with
          | Some model =>
              if trained model
              then match answer type with
                   | Evaluated e => Some e
                   | EvaluateFailed _ => ModelManager.evaluationResults m !! type
                   end
              else ModelManager.evaluationResults m !! type
          | None => ModelManager.evaluationResults m !! type
          end.
Proof.
  induction entries as [|[type model] entries IH];
    intros m evaluations Hdup Hvalid Hfresh.
  - simpl. by rewrite app_nil_r.
  - rewrite fmap_cons in Hdup. apply NoDup_cons in Hdup as [Hhead Hdup].
    apply Forall_cons in Hvalid as [Hv Hvalid].
    apply Forall_cons in Hfresh as [Hf Hfresh]. simpl in Hv, Hf, Hhead.
    assert (Hnext : ∀ v : evaluation,
              Forall (λ entry, fst entry ∉ fst <$> evaluations ++ [(type, v)]) entries).
    { intros v. apply Forall_forall. intros entry Hin.
      rewrite fmap_app, not_elem_of_app. split.
      - by eapply Forall_forall in Hfresh.
      - simpl. rewrite list_elem_of_singleton. intros Heq. apply Hhead.
        rewrite <- Heq. apply list_elem_of_fmap. by exists entry. }
    assert (Hhere : ∀ type', get type' ((type, model) :: entries)
                             = if decide (type' = type) then Some model
                               else get type' entries) by reflexivity.
    cbn [evaluateLoop]. rewrite fmap_cons.
    assert (Hexp : expectedEvaluation answer (type, model)
                   = (type, if trained model
                            then match answer type with
                                 | Evaluated e => e
                                 | EvaluateFailed message => evaluationError message
                                 end
                            else evaluationError "Model not trained"))
      by (unfold expectedEvaluation; cbn [fst snd];
          destruct model as [[[|]]|]; [destruct (answer type)|..]; reflexivity).
    rewrite Hexp. clear Hexp. destruct (trained model) eqn:Htrained.
    + destruct (answer type) as [e|message] eqn:Hanswer.
      * unfold ModelManager.setEvaluationResults. rewrite Hv.
        rewrite (assign_fresh type e evaluations Hf).
        specialize (IH {| ModelManager.models := ModelManager.models m;
                          ModelManager.evaluationResults :=
                            <[type := e]> (ModelManager.evaluationResults m);
                          ModelManager.savedModels := ModelManager.savedModels m;
                          ModelManager.isTraining := ModelManager.isTraining m;
                          ModelManager.store := ModelManager.store m |}
                       (evaluations ++ [(type, e)]) Hdup Hvalid (Hnext e)).
        destruct IH as (Hres & Hmodels & Hsaved & Hstore & Htraining & Hstored).
        cbn [ModelManager.models ModelManager.savedModels ModelManager.store
             ModelManager.isTraining] in Hmodels, Hsaved, Hstore, Htraining.
        rewrite Hres, <- app_assoc. do 5 (split; [done|]).
        intros type'. rewrite Hstored, Hhere. simpl.
        destruct (decide (type' = type)) as [->|Hne].
        -- rewrite (get_fresh type entries Hhead), Htrained, Hanswer.
           apply lookup_insert_eq.
        -- rewrite (lookup_insert_ne _ _ _ _ (not_eq_sym Hne)). reflexivity.
      * rewrite (assign_fresh type (evaluationError message) evaluations Hf).
        specialize (IH m (evaluations ++ [(type, evaluationError message)])
                       Hdup Hvalid (Hnext _)).
        destruct IH as (Hres & Hmodels & Hsaved & Hstore & Htraining & Hstored).
        rewrite Hres, <- app_assoc. do 5 (split; [done|]).
        intros type'. rewrite Hstored, Hhere.
        destruct (decide (type' = type)) as [->|Hne]; [|reflexivity].
        by rewrite (get_fresh type entries Hhead), Htrained, Hanswer.
    + rewrite (assign_fresh type (evaluationError "Model not trained") evaluations Hf).
      specialize (IH m (evaluations ++ [(type, evaluationError "Model not trained")])
                     Hdup Hvalid (Hnext _)).
      destruct IH as (Hres & Hmodels & Hsaved & Hstore & Htraining & Hstored).
      rewrite Hres, <- app_assoc. do 5 (split; [done|]).
      intros type'. rewrite Hstored, Hhere.
      destruct (decide (type' = type)) as [->|Hne]; [|reflexivity].
      by rewrite (get_fresh type entries Hhead), Htrained.
Qed.

Lemma run_entries (ops : list ModelManager.operation) :
  NoDup (fst <$> ModelManager.models (ModelManager.run ops))
  ∧ Forall (λ entry, ModelManager.validType (fst entry) = true)
           (ModelManager.models (ModelManager.run ops)).
Proof.
  pose proof (run_keys ops) as Hkeys. split.
  - rewrite Hkeys. apply (bool_decide_unpack _). vm_compute. exact I.
  - apply Forall_forall. intros entry Hin. apply validType_kinds.
    rewrite <- Hkeys. apply list_elem_of_fmap. by exists entry.
Qed.

(** X15. Whatever was done to the manager before, [evaluateAllModels] on valid
    test data returns one evaluation per backend kind, in the order of the
    constructor: the backend's own evaluation where the backend is trained
    and its [evaluate] succeeds, [{accuracy: 0, error: message}] where it
    fails, and [{accuracy: 0, error: 'Model not trained'}] for an empty or
    untrained slot.  Without test data it throws. *)
Theorem evaluateAllModels_one_per_backend (ops : list ModelManager.operation)
    (answer : string → evaluateOutcome) :
  let m := ModelManager.run ops in
  snd (evaluateAllModels m (Some ()) answer)
  = Return (expectedEvaluation answer <$> ModelManager.models m)
  ∧ fst <$> (expectedEvaluation answer <$> ModelManager.models m)
    = ModelManager.kinds
  ∧ snd (evaluateAllModels m None answer) = Throw (Error "Invalid test data").
Proof.
  intros m. destruct (run_entries ops) as [Hdup Hvalid]. fold m in Hdup, Hvalid.
  destruct (evaluateLoop_spec answer (ModelManager.models m) m [] Hdup Hvalid)
    as [Hres _].
  { apply Forall_forall. intros entry _. apply not_elem_of_nil. }
  unfold evaluateAllModels.
  destruct (evaluateLoop answer (ModelManager.models m) m []) as [m' evaluations].
  simpl in *. rewrite Hres. split; [reflexivity|]. split; [|reflexivity].
  rewrite <- list_fmap_compose. apply (run_keys ops).
Qed.

(** X16. [evaluateAllModels] changes the manager in one place only: the stored
    evaluation of each trained backend whose [evaluate] succeeded is replaced
    by the new one.  A backend that is untrained or whose evaluation failed
    keeps the evaluation stored before, although the returned object reports
    an error for it; slots, ledger and training flag stay as they were. *)
Theorem evaluateAllModels_stores_successes (ops : list ModelManager.operation)
    (answer : string → evaluateOutcome) :
  let m := ModelManager.run ops in
  let m' := fst (evaluateAllModels m (Some ()) answer) in
  ModelManager.models m' = ModelManager.models m
  ∧ ModelManager.savedModels m' = ModelManager.savedModels m
  ∧ ModelManager.store m' = ModelManager.store m
  ∧ ModelManager.isTraining m' = ModelManager.isTraining m
  ∧ ∀ type, ModelManager.evaluationResults m' !! type = storedEvaluation answer m type.
Proof.
  intros m. destruct (run_entries ops) as [Hdup Hvalid]. fold m in Hdup, Hvalid.
  destruct (evaluateLoop_spec answer (ModelManager.models m) m [] Hdup Hvalid)
    as (_ & Hrest).
  { apply Forall_forall. intros entry _. apply not_elem_of_nil. }
  unfold evaluateAllModels.
  destruct (evaluateLoop answer (ModelManager.models m) m []) as [m' evaluations].
  exact Hrest.
Qed.

End EvaluationFacts.

(** ** The dataset *)

Section DatasetFacts.
Import DatasetManager.

(** *** References and the objects behind them *)

Lemma deref_app (h : list classObj) (refs refs' : list loc) :
  deref h (refs ++ refs') = deref h refs ++ deref h refs'.
Proof. apply omap_app. Qed.

Lemma deref_cons_Some (h : list classObj) (l : loc) (refs : list loc) (c : classObj) :
  h !! l = Some c → deref h (l :: refs) = c :: deref h refs.
Proof. intros Hl. unfold deref. simpl. by rewrite Hl. Qed.

Lemma deref_length (h : list classObj) (refs : list loc) :
  Forall (λ l, l < length h)%nat refs → length (deref h refs) = length refs.
Proof.
  induction 1 as [|l refs Hl _ IH]; [reflexivity|].
  apply lookup_lt_is_Some in Hl as [c Hc].
  rewrite (deref_cons_Some _ _ _ c Hc). simpl. by rewrite IH.
Qed.

Lemma deref_ext (h h' : list classObj) (refs : list loc) :
  Forall (λ l, h' !! l = h !! l) refs → deref h' refs = deref h refs.
Proof.
  induction 1 as [|l refs Hl _ IH]; [reflexivity|].
  unfold deref in *. simpl. rewrite Hl.
  destruct (h !! l); [f_equal|]; exact IH.
Qed.

Lemma deref_grow (h : list classObj) (c : classObj) (refs : list loc) :
  Forall (λ l, l < length h)%nat refs → deref (h ++ [c]) refs = deref h refs.
Proof.
  intros Hb. apply deref_ext. eapply Forall_impl; [exact Hb|].
  intros l Hl. simpl in Hl. by apply lookup_app_l.
Qed.

Lemma deref_alter_notin (f : classObj → classObj) (l : loc) (h : list classObj)
    (refs : list loc) :
  l ∉ refs → deref (alter f l h) refs = deref h refs.
Proof.
  intros Hl. apply deref_ext. apply Forall_forall. intros l' Hin.
  apply list_lookup_alter_ne. intros ->. contradiction.
Qed.

Lemma deref_alter_proj {B} (g : classObj → B) (f : classObj → classObj) (l : loc)
    (h : list classObj) (refs : list loc) :
  (∀ c, g (f c) = g c) → g <$> deref (alter f l h) refs = g <$> deref h refs.
Proof.
  intros Hg. induction refs as [|l' refs IH]; [reflexivity|].
  assert (Hcons : ∀ h0, deref h0 (l' :: refs)
                        = match h0 !! l' with
                          | Some c => c :: deref h0 refs
                          | None => deref h0 refs
                          end) by reflexivity.
  rewrite !Hcons. unfold loc in *. destruct (decide (l = l')) as [->|Hne].
  - rewrite list_lookup_alter_eq.
    destruct (h !! l') as [c|]; simpl; [rewrite Hg; f_equal|]; exact IH.
  - rewrite list_lookup_alter_ne by done.
    destruct (h !! l'); simpl; [f_equal|]; exact IH.
Qed.

Lemma renumber_length (refs : list loc) :
  ∀ (h : list classObj) (i : nat), length (renumber h refs i) = length h.
Proof.
  induction refs as [|l refs IH]; intros h i; simpl; [reflexivity|].
  by rewrite IH, length_alter.
Qed.

Lemma renumber_notin (refs : list loc) (l : loc) :
  l ∉ refs → ∀ (h : list classObj) (i : nat), renumber h refs i !! l = h !! l.
Proof.
  induction refs as [|l' refs IH]; intros Hl h i; simpl; [reflexivity|].
  apply not_elem_of_cons in Hl as [Hne Hl]. rewrite IH by done.
  by apply list_lookup_alter_ne.
Qed.

Lemma renumber_proj {B} (g : classObj → B) (refs refs' : list loc) :
  (∀ c i, g {| id := i; name := name c; c_images := c_images c |} = g c) →
  ∀ (h : list classObj) (i : nat),
    g <$> deref (renumber h refs i) refs' = g <$> deref h refs'.
Proof.
  intros Hg. induction refs as [|l refs IH]; intros h i; simpl; [reflexivity|].
  rewrite IH. apply deref_alter_proj. intros c. apply Hg.
Qed.

Lemma renumber_ids (refs : list loc) :
  ∀ (h : list classObj) (i : nat),
    NoDup refs → Forall (λ l, l < length h)%nat refs →
    id <$> deref (renumber h refs i) refs = seq i (length refs).
Proof.
  induction refs as [|l refs IH]; intros h i Hdup Hb; [reflexivity|].
  apply NoDup_cons in Hdup as [Hl Hdup]. apply Forall_cons in Hb as [Hlb Hb].
  apply lookup_lt_is_Some in Hlb as [c Hc]. cbn [renumber].
  rewrite (deref_cons_Some _ _ _ {| id := i; name := name c; c_images := c_images c |}).
  2:{ rewrite renumber_notin by done. by rewrite list_lookup_alter_eq, Hc. }
  rewrite fmap_cons. cbn [id length seq]. f_equal. apply IH; [done|].
  eapply Forall_impl; [exact Hb|]. intros l' Hl'. simpl in *. by rewrite length_alter.
Qed.

Lemma elem_of_names (h : list classObj) (refs : list loc) (className : string) :
  className ∈ name <$> deref h refs
  ↔ Exists (λ l, name <$> h !! l = Some className) refs.
Proof.
  induction refs as [|l refs IH].
  - rewrite Exists_nil. split; [intros Hin; by apply elem_of_nil in Hin | done].
  - rewrite Exists_cons, <- IH. unfold deref. simpl.
    destruct (h !! l) as [c|]; simpl.
    + rewrite elem_of_cons.
      split; intros [Hc|Hc]; [left; by rewrite Hc | by right | left; congruence | by right].
    + split; [by right | intros [?|?]; done].
Qed.

Lemma findClass_None (m : manager) (className : string) :
  findClass m className = None ↔ className ∉ classNames m.
Proof.
  unfold findClass, classNames, classObjs.
  rewrite list_find_None, elem_of_names. apply Forall_Exists_neg.
Qed.

(** Where [findClass] finds a class, the array splits around it. *)
Lemma findClass_Some (m : manager) (className : string) (index : nat) (l : loc) :
  findClass m className = Some (index, l) →
  ∃ c, heap m !! l = Some c ∧ name c = className
       ∧ classes m = take index (classes m) ++ l :: drop (S index) (classes m)
       ∧ classObjs m = deref (heap m) (take index (classes m))
                       ++ c :: deref (heap m) (drop (S index) (classes m)).
Proof.
  intros Hfind. apply list_find_Some in Hfind as (Hl & Hname & _).
  unfold named in Hname. destruct (heap m !! l) as [c|] eqn:Hc; [|done].
  injection Hname as Hname. exists c. split; [reflexivity|]. split; [exact Hname|].
  pose proof (take_drop_middle _ _ _ Hl) as Hsplit. split; [by rewrite Hsplit|].
  unfold classObjs. rewrite <- Hsplit at 1.
  by rewrite deref_app, (deref_cons_Some _ _ _ c Hc).
Qed.

(** *** The invariant *)

Lemma wellFormed_addClass (m : manager) (className : option string) :
  wellFormed m → wellFormed (fst (addClass m className)).
Proof.
  intros Hwf. unfold addClass. destruct className as [className|]; [|exact Hwf].
  destruct (decide (className = "")); [exact Hwf|].
  destruct (50 <? String.length className)%nat; [exact Hwf|].
  destruct (findClass m className) as [found|] eqn:Hfind; [exact Hwf|].
  apply findClass_None in Hfind. destruct Hwf as (Hdup & Hb & Hids & Hnames).
  unfold wellFormed, classObjs in *. cbn [fst classes heap].
  assert (Hobjs : deref (heap m ++ [{| id := length (classes m); name := className;
                                      c_images := [] |}])
                        (classes m ++ [length (heap m)])
                  = deref (heap m) (classes m)
                    ++ [{| id := length (classes m); name := className;
                           c_images := [] |}]).
  { rewrite deref_app, (deref_grow _ _ _ Hb). f_equal.
    apply deref_cons_Some. by rewrite lookup_app_r, Nat.sub_diag. }
  rewrite Hobjs. split; [|split; [|split]].
  - apply NoDup_app. split; [done|]. split; [|apply NoDup_singleton].
    intros l Hl Hl'. apply list_elem_of_singleton in Hl' as ->.
    eapply Forall_forall in Hb; [|exact Hl]. simpl in Hb. lia.
  - apply Forall_app. split.
    + eapply Forall_impl; [exact Hb|]. intros l Hl. simpl in *.
      rewrite length_app. simpl. lia.
    + constructor; [|constructor]. rewrite length_app; simpl; lia.
  - rewrite fmap_app, Hids, length_app. simpl. by rewrite Nat.add_1_r, seq_S.
  - rewrite fmap_app. apply NoDup_app. split; [done|]. split; [|apply NoDup_singleton].
    intros x Hx Hx'. simpl in Hx'. apply list_elem_of_singleton in Hx' as ->.
    by apply Hfind.
Qed.

Lemma wellFormed_deleteClass (m : manager) (className : string) :
  wellFormed m → wellFormed (fst (deleteClass m className)).
Proof.
  intros (Hdup & Hb & Hids & Hnames). unfold deleteClass.
  destruct (findClass m className) as [[index l]|] eqn:Hfind; [|done].
  apply findClass_Some in Hfind as (c & Hc & Hname & Hsplit & Hobjs).
  cbn [fst]. rewrite delete_take_drop.
  set (before := take index (classes m)) in *.
  set (after := drop (S index) (classes m)) in *.
  rewrite Hsplit in Hdup, Hb. rewrite Hobjs in Hnames.
  apply NoDup_app in Hdup as (Hdup1 & Hdisj & Hdup2).
  apply NoDup_cons in Hdup2 as [_ Hdup2].
  apply Forall_app in Hb as [Hb1 Hb2]. apply Forall_cons in Hb2 as [_ Hb2].
  assert (Hdup' : NoDup (before ++ after)).
  { apply NoDup_app. split; [done|]. split; [|done].
    intros x Hx Hx'. apply (Hdisj x Hx). by right. }
  assert (Hb' : Forall (λ l, l < length (heap m))%nat (before ++ after))
    by (by apply Forall_app).
  unfold wellFormed, classObjs. cbn [classes heap]. split; [exact Hdup'|]. split; [|split].
  - eapply Forall_impl; [exact Hb'|]. intros l' Hl'. simpl in *.
    by rewrite renumber_length.
  - by apply renumber_ids.
  - rewrite (renumber_proj name) by done. rewrite deref_app, fmap_app.
    rewrite fmap_app, fmap_cons in Hnames.
    apply NoDup_app in Hnames as (Hn1 & Hndisj & Hn2).
    apply NoDup_cons in Hn2 as [_ Hn2].
    apply NoDup_app. split; [done|]. split; [|done].
    intros x Hx Hx'. apply (Hndisj x Hx). by right.
Qed.

Lemma wellFormed_readSettled (m : manager) (r : pendingRead) (o : readOutcome) :
  wellFormed m → wellFormed (fst (readSettled m r o)).
Proof.
  intros Hwf. destruct o as [url now| | |message]; try exact Hwf.
  unfold readSettled. destruct (heap m !! target r) as [c|]; [|exact Hwf].
  destruct Hwf as (Hdup & Hb & Hids & Hnames).
  unfold wellFormed, classObjs in *. cbn [fst classes heap].
  split; [exact Hdup|]. split; [|split].
  - eapply Forall_impl; [exact Hb|]. intros l' Hl'. simpl in *.
    by rewrite length_alter.
  - by rewrite (deref_alter_proj id).
  - by rewrite (deref_alter_proj name).
Qed.

Lemma wellFormed_step (m : manager) (op : operation) :
  wellFormed m → wellFormed (step m op).
Proof.
  intros Hwf. destruct op as [className|className|r o| |]; simpl.
  - by apply wellFormed_addClass.
  - by apply wellFormed_deleteClass.
  - by apply wellFormed_readSettled.
  - unfold prepareTrainingData. by destruct (isValid (validateDataset m)).
  - repeat split; simpl; constructor.
Qed.

Lemma run_wellFormed (ops : list operation) : wellFormed (run ops).
Proof.
  unfold run. induction ops as [|op ops IH] using rev_ind.
  - repeat split; simpl; constructor.
  - rewrite foldl_app. simpl. by apply wellFormed_step.
Qed.

(** X17. Whatever is done to a dataset manager, its classes are numbered
    0, 1, 2, ... in the order of the array, one class object per entry, and
    no two of them have the same name. *)
Theorem classes_numbered_and_distinct (ops : list operation) :
  let m := run ops in
  id <$> classObjs m = seq 0 (getClassCount m)
  ∧ length (classObjs m) = getClassCount m
  ∧ NoDup (classNames m).
Proof.
  intros m. destruct (run_wellFormed ops) as (Hdup & Hb & Hids & Hnames).
  split; [exact Hids|]. split; [|exact Hnames].
  by apply deref_length.
Qed.

(** *** Preparing the training data *)

Lemma total_images {B} (f : classObj → list B) (cs : list classObj) :
  (∀ c, length (f c) = length (c_images c)) →
  ∀ a, foldl (λ total c, (total + length (c_images c))%nat) a cs
       = (a + length (cs ≫= f))%nat.
Proof.
  intros Hf. induction cs as [|c cs IH]; intros a; [simpl; lia|].
  change ((c :: cs) ≫= f) with (f c ++ (cs ≫= f)). cbn [foldl].
  rewrite IH, length_app, Hf. lia.
Qed.

Lemma classError_nil (cs : list classObj) :
  cs ≫= classError = []
  ↔ Forall (λ c, (minClassSize ≤ length (c_images c))%nat) cs.
Proof.
  induction cs as [|c cs IH]; simpl; [split; [constructor | done]|].
  unfold classError at 1.
  destruct (length (c_images c) <? minClassSize)%nat eqn:Hlt.
  - apply Nat.ltb_lt in Hlt. split; [discriminate|].
    intros Hall. apply Forall_cons in Hall as [Hc _]. lia.
  - apply Nat.ltb_ge in Hlt. simpl. rewrite IH.
    split; [intros; by constructor | intros Hall; by apply Forall_cons in Hall as [_ ?]].
Qed.

(** X18. [prepareTrainingData] succeeds exactly when there are at least two
    classes and every class has at least five images; the manager is
    otherwise left alone.  The dataset it builds has one label per image, as
    many images as [getTotalImages] counts, and labels whose greatest is the
    number of classes minus one: the number of classes the random forest
    derives from the labels is [getClassCount]. *)
Theorem prepareTrainingData_dataset (ops : list operation) :
  let m := run ops in
  match prepareTrainingData m with
  | (m', Return d) =>
      (2 ≤ getClassCount m)%nat
      ∧ Forall (λ e, (minClassSize ≤ snd e)%nat) (getClassDistribution m)
      ∧ length (RandomForestTrainer.images d) = getTotalImages m
      ∧ length (RandomForestTrainer.labels d) = getTotalImages m
      ∧ RandomForestTrainer.numClassesOf (RandomForestTrainer.labels d)
        = getClassCount m
      ∧ dataset m' = d ∧ classes m' = classes m ∧ heap m' = heap m
  | (m', Throw _) =>
      m' = m
      ∧ ((getClassCount m < 2)%nat
         ∨ Exists (λ e, (snd e < minClassSize)%nat) (getClassDistribution m))
  end.
Proof.
  intros m. destruct (run_wellFormed ops) as (Hdup & Hb & Hids & Hnames).
  fold m in Hdup, Hb, Hids, Hnames.
  unfold prepareTrainingData, getClassCount, getClassDistribution.
  destruct (isValid (validateDataset m)) eqn:Hvalid; unfold validateDataset in Hvalid;
    cbn [isValid] in Hvalid.
  - apply bool_decide_eq_true in Hvalid. apply app_eq_nil in Hvalid as [Hcount Herr].
    destruct (length (classes m) <? 2)%nat eqn:Hlt; [discriminate|].
    apply Nat.ltb_ge in Hlt. apply classError_nil in Herr.
    split; [exact Hlt|]. split; [by apply Forall_fmap|].
    unfold getTotalImages, collect. cbn [RandomForestTrainer.images RandomForestTrainer.labels].
    split; [by rewrite (total_images (λ c, dataUrl <$> c_images c))
                 by (intros; apply length_fmap)|].
    split; [by rewrite (total_images (λ c, (λ _, id c) <$> c_images c))
                 by (intros; apply length_fmap)|].
    split; [|done].
    set (labels := classObjs m ≫= (λ c, (λ _, id c) <$> c_images c)).
    set (n := length (classes m)) in *.
    assert (Hbound : ∀ x, x ∈ labels → (x < n)%nat).
    { intros x Hx. apply list_elem_of_bind in Hx as (c & Hx & Hc).
      apply list_elem_of_fmap in Hx as (image & -> & _).
      assert (Hid : id c ∈ id <$> classObjs m) by (apply list_elem_of_fmap; by exists c).
      rewrite Hids in Hid. apply elem_of_seq in Hid. lia. }
    assert (Hlast : (n - 1)%nat ∈ labels).
    { assert (Hin : (n - 1)%nat ∈ id <$> classObjs m)
        by (rewrite Hids; apply elem_of_seq; lia).
      apply list_elem_of_fmap in Hin as (c & Hid & Hc).
      apply list_elem_of_bind. exists c. split; [|exact Hc].
      eapply Forall_forall in Herr; [|exact Hc]. simpl in Herr.
      destruct (c_images c) as [|image rest]; [unfold minClassSize in Herr; simpl in Herr; lia|].
      rewrite Hid. left. }
    unfold RandomForestTrainer.numClassesOf.
    destruct labels as [|label rest] eqn:Hlabels; [by apply elem_of_nil in Hlast|].
    rewrite <- Hlabels in *.
    assert (Hmax : max_list labels ∈ labels) by (apply max_list_elem_of; by rewrite Hlabels).
    apply Hbound in Hmax. apply max_list_elem_of_le in Hlast. lia.
  - split; [reflexivity|]. apply bool_decide_eq_false in Hvalid.
    destruct (length (classes m) <? 2)%nat eqn:Hlt; [left; by apply Nat.ltb_lt|].
    right. apply Exists_fmap. simpl in Hvalid. rewrite classError_nil in Hvalid.
    apply not_Forall_Exists in Hvalid; [|apply _].
    eapply Exists_impl; [exact Hvalid|]. intros c Hc. simpl in *. lia.
Qed.

(** *** Adding and deleting classes *)

Lemma deref_push (h : list classObj) (c : classObj) (refs : list loc) :
  Forall (λ l, l < length h)%nat refs →
  deref (h ++ [c]) (refs ++ [length h]) = deref h refs ++ [c].
Proof.
  intros Hb. rewrite deref_app, (deref_grow _ _ _ Hb). f_equal.
  apply deref_cons_Some. by rewrite lookup_app_r, Nat.sub_diag.
Qed.

Lemma addClass_Return (m : manager) (className : string) (m' : manager) (c : classObj) :
  wellFormed m →
  addClass m (Some className) = (m', Return c) →
  className ≠ "" ∧ (String.length className ≤ 50)%nat ∧ (className ∉ classNames m)
  ∧ c = {| id := getClassCount m; name := className; c_images := [] |}
  ∧ classObjs m' = classObjs m ++ [c].
Proof.
  intros (Hdup & Hb & Hids & Hnames). unfold addClass.
  destruct (decide (className = "")) as [|Hne]; [done|].
  destruct (50 <? String.length className)%nat eqn:Hlen; [done|].
  destruct (findClass m className) as [found|] eqn:Hfind; [done|].
  intros [= <- <-]. apply Nat.ltb_ge in Hlen. apply findClass_None in Hfind.
  do 4 (split; [done|]). unfold classObjs. simpl. by apply deref_push.
Qed.

(** X19. [addClass] accepts a name exactly when it is a non-empty string of at
    most 50 characters that no class of the array has; the new class then
    comes last, numbered with the count of classes before and without images,
    and the classes already there are unchanged.  A rejected call changes
    nothing. *)
Theorem addClass_appends (ops : list operation) (className : string) :
  let m := run ops in
  match addClass m (Some className) with
  | (m', Return c) =>
      className ≠ "" ∧ (String.length className ≤ 50)%nat ∧ (className ∉ classNames m)
      ∧ c = {| id := getClassCount m; name := className; c_images := [] |}
      ∧ classObjs m' = classObjs m ++ [c]
  | (m', Throw _) =>
      m' = m
      ∧ (className = "" ∨ (50 < String.length className)%nat
         ∨ className ∈ classNames m)
  end.
Proof.
  intros m. pose proof (run_wellFormed ops) as Hwf. fold m in Hwf.
  destruct (addClass m (Some className)) as [m' [c|e]] eqn:Hadd.
  - by eapply addClass_Return.
  - unfold addClass in Hadd.
    destruct (decide (className = "")) as [|Hne]; [injection Hadd as <- _; by auto|].
    destruct (50 <? String.length className)%nat eqn:Hlen;
      [injection Hadd as <- _; apply Nat.ltb_lt in Hlen; by auto|].
    destruct (findClass m className) as [found|] eqn:Hfind; [|done].
    injection Hadd as <- _. split; [reflexivity|]. right. right.
    destruct (decide (className ∈ classNames m)) as [|Hnot]; [done|].
    apply findClass_None in Hnot. congruence.
Qed.

(** What a class object holds apart from its number. *)
Lemma deleteClass_contents (m : manager) (className : string) :
  wellFormed m →
  match deleteClass m className with
  | (m', true) =>
      className ∈ classNames m
      ∧ getClassCount m = S (getClassCount m')
      ∧ (λ c, (name c, c_images c)) <$> classObjs m'
        = filter (λ e, fst e ≠ className)
                 ((λ c, (name c, c_images c)) <$> classObjs m)
  | (m', false) => (className ∉ classNames m) ∧ m' = m
  end.
Proof.
  intros (Hdup & Hb & Hids & Hnames). unfold deleteClass.
  destruct (findClass m className) as [[index l]|] eqn:Hfind.
  2:{ split; [by apply findClass_None | reflexivity]. }
  apply findClass_Some in Hfind as (c & Hc & Hname & Hsplit & Hobjs).
  unfold classNames, getClassCount. cbn [classes].
  split; [rewrite Hobjs, fmap_app, fmap_cons, Hname; apply elem_of_app; right; left|].
  split.
  { rewrite Hsplit at 1. rewrite delete_take_drop, !length_app. simpl. lia. }
  unfold classObjs at 1. cbn [classes heap].
  rewrite (renumber_proj (λ c, (name c, c_images c))) by done.
  rewrite delete_take_drop, deref_app, fmap_app.
  rewrite Hobjs in Hnames |- *. rewrite fmap_app, fmap_cons in Hnames.
  rewrite (fmap_app _ (deref _ _) (c :: _)), fmap_cons.
  apply NoDup_app in Hnames as (_ & Hdisj & Hrest).
  apply NoDup_cons in Hrest as [Hafter _].
  rewrite filter_app, filter_cons_False by (simpl; rewrite Hname; by intros []).
  rewrite !filter_all; [reflexivity| |].
  all: apply Forall_fmap, Forall_forall; intros c' Hin Heq; simpl in *.
  all: first
    [ apply Hafter; rewrite Hname, <- Heq; apply list_elem_of_fmap; by exists c'
    | apply (Hdisj (name c')); [apply list_elem_of_fmap; by exists c'|];
      rewrite Heq, Hname; left ].
Qed.

(** X20. [deleteClass] returns [true] exactly when a class of that name is in the
    array.  It then takes out that class and no other: the remaining classes
    keep their order, names and images.  Otherwise nothing changes. *)
Theorem deleteClass_removes_named (ops : list operation) (className : string) :
  let m := run ops in
  match deleteClass m className with
  | (m', true) =>
      className ∈ classNames m
      ∧ getClassCount m = S (getClassCount m')
      ∧ (λ c, (name c, c_images c)) <$> classObjs m'
        = filter (λ e, fst e ≠ className)
                 ((λ c, (name c, c_images c)) <$> classObjs m)
  | (m', false) => (className ∉ classNames m) ∧ m' = m
  end.
Proof. intros m. apply deleteClass_contents, run_wellFormed. Qed.

Lemma classObj_eq (cs cs' : list classObj) :
  id <$> cs = id <$> cs' →
  (λ c, (name c, c_images c)) <$> cs = (λ c, (name c, c_images c)) <$> cs' →
  cs = cs'.
Proof.
  revert cs'. induction cs as [|c cs IH]; intros [|c' cs'] Hid Hrest; try done.
  rewrite !fmap_cons in Hid. rewrite !fmap_cons in Hrest. injection Hid as Hid Hids.
  injection Hrest as Hname Himages Hrest. destruct c, c'. simpl in *. subst.
  f_equal. by apply IH.
Qed.

(** X21. Deleting a class that was just added gives back the classes there were
    before, numbers included. *)
Theorem addClass_deleteClass (ops : list operation) (className : string)
    (m1 : manager) (c : classObj) :
  addClass (run ops) (Some className) = (m1, Return c) →
  snd (deleteClass m1 className) = true
  ∧ classObjs (fst (deleteClass m1 className)) = classObjs (run ops).
Proof.
  intros Hadd. pose proof (run_wellFormed ops) as Hwf.
  pose proof (wellFormed_addClass (run ops) (Some className) Hwf) as Hwf1.
  rewrite Hadd in Hwf1. cbn [fst] in Hwf1.
  destruct (addClass_Return _ _ _ _ Hwf Hadd) as (_ & _ & Hfresh & Hc & Hobjs).
  pose proof (wellFormed_deleteClass m1 className Hwf1) as Hwf2.
  pose proof (deleteClass_contents m1 className Hwf1) as Hdel.
  destruct (deleteClass m1 className) as [m2 [|]]; cbn [fst snd] in *.
  2:{ destruct Hdel as [Hnot _]. exfalso. apply Hnot. unfold classNames.
      rewrite Hobjs, fmap_app, Hc. apply elem_of_app. right. left. }
  split; [reflexivity|]. destruct Hdel as (_ & Hcount & Hcontents).
  apply classObj_eq.
  - destruct Hwf2 as (_ & _ & -> & _). destruct Hwf as (_ & Hb & -> & _).
    destruct Hwf1 as (_ & Hb1 & _ & _).
    unfold getClassCount in Hcount. f_equal.
    apply deref_length in Hb, Hb1. unfold classObjs in Hobjs.
    rewrite Hobjs, length_app, Hb in Hb1. simpl in Hb1. lia.
  - rewrite Hcontents, Hobjs, fmap_app, filter_app.
    rewrite fmap_cons, filter_cons_False by (rewrite Hc; simpl; by intros []).
    rewrite filter_all, app_nil_r; [reflexivity|].
    apply Forall_fmap, Forall_forall. intros c' Hin Heq. simpl in *.
    apply Hfresh. rewrite <- Heq. apply list_elem_of_fmap. by exists c'.
Qed.

(** *** Reads that settle later *)

Lemma step_heap (m : manager) (op : operation) :
  (length (heap m) ≤ length (heap (step m op)))%nat.
Proof.
  destruct op as [className|className|r o| |]; simpl.
  - unfold addClass. destruct className as [className|]; [|done].
    destruct (decide (className = "")); [done|].
    destruct (50 <? String.length className)%nat; [done|].
    destruct (findClass m className); [done|]. simpl. rewrite length_app. lia.
  - unfold deleteClass. destruct (findClass m className) as [[index l]|]; [|done].
    simpl. by rewrite renumber_length.
  - unfold readSettled. destruct o; try done.
    destruct (heap m !! target r); [|done]. simpl. by rewrite length_alter.
  - unfold prepareTrainingData. by destruct (isValid (validateDataset m)).
  - done.
Qed.

Lemma run_heap (ops ops' : list operation) :
  (length (heap (run ops)) ≤ length (heap (run (ops ++ ops'))))%nat.
Proof.
  induction ops' as [|op ops' IH] using rev_ind; [by rewrite app_nil_r|].
  rewrite app_assoc. unfold run in *. rewrite (foldl_app _ (ops ++ ops')). simpl.
  etrans; [exact IH | apply step_heap].
Qed.

Lemma addImageToClass_Return (m : manager) (className : option string)
    (f : option imageFile) (r : pendingRead) :
  addImageToClass m className f = Return r →
  (target r < length (heap m))%nat ∧ target r ∈ classes m
  ∧ Some (p_file r) = f ∧ validateImage (p_file r) = true.
Proof.
  unfold addImageToClass. destruct className as [className|]; [|done].
  destruct f as [f|]; [|done]. destruct (decide (className = "")); [done|].
  destruct (validateImage f) eqn:Hvalid; [|done]. simpl.
  destruct (findClass m className) as [[index l]|] eqn:Hfind; [|done].
  intros [= <-]. simpl. apply findClass_Some in Hfind as (c & Hc & _ & Hsplit & _).
  split; [by eapply lookup_lt_Some|].
  split; [rewrite Hsplit; apply elem_of_app; right; left | done].
Qed.

(** X22. A read that [addImageToClass] started for a class which has left the
    array by the time the read ends (the class was deleted, or everything
    cleared), whatever else was done meanwhile: the promise still resolves
    with an image record, but no class of the array receives the image, and
    the classes and the image count are as before. *)
Theorem read_after_delete_is_lost (ops ops' : list operation)
    (className : option string) (f : option imageFile) (r : pendingRead)
    (url : string) (now : Z) :
  addImageToClass (run ops) className f = Return r →
  target r ∉ classes (run (ops ++ ops')) →
  let m := run (ops ++ ops') in
  let m' := fst (readSettled m r (Loaded url now)) in
  (∃ image, snd (readSettled m r (Loaded url now)) = Return image
            ∧ dataUrl image = url ∧ Some (file image) = f)
  ∧ classes m' = classes m
  ∧ classObjs m' = classObjs m
  ∧ getTotalImages m' = getTotalImages m.
Proof.
  intros Hstart Hgone m m'. subst m'.
  apply addImageToClass_Return in Hstart as (Hbound & _ & Hfile & _).
  assert (Hlookup : is_Some (heap m !! target r)).
  { apply lookup_lt_is_Some. pose proof (run_heap ops ops'). fold m in H. lia. }
  destruct Hlookup as [c Hc]. unfold getTotalImages, classObjs, readSettled.
  rewrite Hc. cbn [fst snd classes heap].
  rewrite deref_alter_notin by exact Hgone. split; [|done].
  eexists. split; [reflexivity|]. by split.
Qed.

(** X23. A read that ends while its class object is in the array appends one
    image to that class and to no other: the image is numbered with the count
    of images the class had, and carries the number the class has at that
    moment; the total grows by one. *)
Theorem readSettled_adds_image (ops : list operation) (r : pendingRead)
    (url : string) (now : Z) :
  target r ∈ classes (run ops) →
  let m := run ops in
  let m' := fst (readSettled m r (Loaded url now)) in
  ∃ before c after,
    let image := {| i_id := length (c_images c); file := p_file r; dataUrl := url;
                    classId := id c; timestamp := now |} in
    classObjs m = before ++ c :: after
    ∧ classObjs m'
      = before ++ {| id := id c; name := name c; c_images := c_images c ++ [image] |}
               :: after
    ∧ snd (readSettled m r (Loaded url now)) = Return image
    ∧ getTotalImages m' = S (getTotalImages m).
Proof.
  intros Hin m m'. subst m'.
  destruct (run_wellFormed ops) as (Hdup & Hb & _). fold m in Hdup, Hb, Hin.
  assert (Hlookup : is_Some (heap m !! target r)).
  { apply lookup_lt_is_Some. by eapply Forall_forall in Hb. }
  destruct Hlookup as [c Hc].
  apply list_elem_of_split in Hin as (refs1 & refs2 & Hsplit).
  rewrite Hsplit in Hdup. apply NoDup_app in Hdup as (_ & Hdisj & Hdup).
  apply NoDup_cons in Hdup as [Hafter _].
  assert (Hbefore : target r ∉ refs1).
  { intros Hin. apply (Hdisj _ Hin). left. }
  exists (deref (heap m) refs1), c, (deref (heap m) refs2).
  assert (Hobjs : classObjs m = deref (heap m) refs1 ++ c :: deref (heap m) refs2).
  { unfold classObjs. by rewrite Hsplit, deref_app, (deref_cons_Some _ _ _ c Hc). }
  assert (Hobjs' :
    classObjs (fst (readSettled m r (Loaded url now)))
    = deref (heap m) refs1
      ++ {| id := id c; name := name c;
            c_images := c_images c
                        ++ [{| i_id := length (c_images c); file := p_file r;
                               dataUrl := url; classId := id c; timestamp := now |}] |}
         :: deref (heap m) refs2).
  { unfold classObjs, readSettled. rewrite Hc. cbn [fst classes heap].
    rewrite Hsplit, deref_app.
    rewrite (deref_cons_Some _ _ _
               {| id := id c; name := name c;
                  c_images := c_images c
                              ++ [{| i_id := length (c_images c); file := p_file r;
                                     dataUrl := url; classId := id c;
                                     timestamp := now |}] |})
      by (unfold loc in *; by rewrite list_lookup_alter_eq, Hc).
    by rewrite !deref_alter_notin by done. }
  cbn zeta. split; [exact Hobjs|]. split; [exact Hobjs'|].
  split; [unfold readSettled; by rewrite Hc|].
  unfold getTotalImages. rewrite Hobjs', Hobjs, !foldl_app. cbn [foldl].
  rewrite !(total_images c_images (deref (heap m) refs2)) by done.
  cbn [c_images]. rewrite length_app. simpl. lia.
Qed.

End DatasetFacts.

Lemma addClass_deleteClass_witness :
  snd (DatasetManager.deleteClass
         (fst (DatasetManager.addClass
                 (DatasetManager.run [DatasetManager.AddClass (Some "cat")])
                 (Some "dog"))) "dog") = true
  ∧ DatasetManager.classObjs
      (fst (DatasetManager.deleteClass
              (fst (DatasetManager.addClass
                      (DatasetManager.run [DatasetManager.AddClass (Some "cat")])
                      (Some "dog"))) "dog"))
    = DatasetManager.classObjs
        (DatasetManager.run [DatasetManager.AddClass (Some "cat")]).
Proof.
  apply (addClass_deleteClass [DatasetManager.AddClass (Some "cat")] "dog" _
           {| DatasetManager.id := 1; DatasetManager.name := "dog";
              DatasetManager.c_images := [] |}).
  vm_compute. reflexivity.
Defined.

Lemma read_after_delete_is_lost_witness :
  let png := {| DatasetManager.isFile := true; DatasetManager.fileType := "image/png";
                DatasetManager.size := 10 |} in
  let r := {| DatasetManager.target := 0%nat; DatasetManager.p_file := png |} in
  let m := DatasetManager.run ([DatasetManager.AddClass (Some "cat")]
                               ++ [DatasetManager.DeleteClass "cat"]) in
  let m' := fst (DatasetManager.readSettled m r (DatasetManager.Loaded "data:," 0)) in
  (∃ image,
     snd (DatasetManager.readSettled m r (DatasetManager.Loaded "data:," 0))
     = Return image
     ∧ DatasetManager.dataUrl image = "data:,"
     ∧ Some (DatasetManager.file image) = Some png)
  ∧ DatasetManager.classes m' = DatasetManager.classes m
  ∧ DatasetManager.classObjs m' = DatasetManager.classObjs m
  ∧ DatasetManager.getTotalImages m' = DatasetManager.getTotalImages m.
Proof.
  intros png r.
  apply (read_after_delete_is_lost [DatasetManager.AddClass (Some "cat")]
           [DatasetManager.DeleteClass "cat"] (Some "cat") (Some png) r "data:," 0).
  - vm_compute. reflexivity.
  - vm_compute. intros Hin. inversion Hin.
Defined.

Lemma readSettled_adds_image_witness :
  let png := {| DatasetManager.isFile := true; DatasetManager.fileType := "image/png";
                DatasetManager.size := 10 |} in
  let r := {| DatasetManager.target := 0%nat; DatasetManager.p_file := png |} in
  let m := DatasetManager.run [DatasetManager.AddClass (Some "cat")] in
  let m' := fst (DatasetManager.readSettled m r (DatasetManager.Loaded "data:," 0)) in
  ∃ before c after,
    let image := {| DatasetManager.i_id := length (DatasetManager.c_images c);
                    DatasetManager.file := png;
                    DatasetManager.dataUrl := "data:,";
                    DatasetManager.classId := DatasetManager.id c;
                    DatasetManager.timestamp := 0 |} in
    DatasetManager.classObjs m = before ++ c :: after
    ∧ DatasetManager.classObjs m'
      = before ++ {| DatasetManager.id := DatasetManager.id c;
                     DatasetManager.name := DatasetManager.name c;
                     DatasetManager.c_images := DatasetManager.c_images c ++ [image] |}
               :: after
    ∧ snd (DatasetManager.readSettled m r (DatasetManager.Loaded "data:," 0))
      = Return image
    ∧ DatasetManager.getTotalImages m' = S (DatasetManager.getTotalImages m).
Proof.
  intros png r.
  apply (readSettled_adds_image [DatasetManager.AddClass (Some "cat")] r "data:," 0).
  vm_compute. left.
Defined.

(** ** The random forest, continued *)

Section ForestMore.
Import RandomForestTrainer.
Context `{JsNumber}.
Context (getImageData : string → option (list Z)).
Context {rng : Type} (randomIndex : nat → rng → nat * rng).
#[local] Existing Instance M_bind.

(** *** The shape of a trained forest *)

Lemma createLeafNode_height (labels : list nat) (t : tree) :
  createLeafNode labels = Return t → height t = 0%nat.
Proof.
  unfold createLeafNode. destruct (reduce _ _); [intros [= <-]; reflexivity | done].
Qed.

Lemma growTree_height (fuel remaining : nat) :
  ∀ (features : list featureVector) (labels : list nat) (g g' : rng) (t : tree),
    growTree randomIndex fuel remaining features labels g = Some (Return t, g') →
    (height t ≤ remaining)%nat.
Proof.
  induction remaining as [|remaining IH]; intros features labels g g' t Hrun; simpl in Hrun.
  - apply lift_Return, createLeafNode_height in Hrun. lia.
  - destruct features as [|f features].
    { apply lift_Return, createLeafNode_height in Hrun. lia. }
    assert (Hsplit :
      (findBestSplit randomIndex fuel (f :: features) labels ≫= λ bestSplit,
         match bestSplit with
         | None => lift (createLeafNode labels)
         | Some s =>
             let '(leftFeatures, rightFeatures) :=
               splitFeatures (f :: features) (featureIndex s) (threshold s) in
             let '(leftLabels, rightLabels) :=
               splitLabels (f :: features) labels (featureIndex s) (threshold s) in
             growTree randomIndex fuel remaining leftFeatures leftLabels ≫= λ left_,
             growTree randomIndex fuel remaining rightFeatures rightLabels ≫= λ right_,
             ret (Node (featureIndex s) (threshold s) left_ right_)
         end) g = Some (Return t, g') →
      (height t ≤ S remaining)%nat).
    { clear Hrun. intros Hrun.
      apply bind_Return in Hrun as (bestSplit & g1 & _ & Hrun).
      destruct bestSplit as [s|];
        [|apply lift_Return, createLeafNode_height in Hrun; lia].
      destruct (splitFeatures _ _ _) as [lf rf].
      destruct (splitLabels _ _ _ _) as [ll rl].
      apply bind_Return in Hrun as (lt & g2 & Hleft & Hrun).
      apply bind_Return in Hrun as (rt & g3 & Hright & Hrun).
      apply ret_Return in Hrun as <-. apply IH in Hleft, Hright. simpl. lia. }
    destruct (unique Nat.eqb labels) as [|only [|]] eqn:Hunique; try by apply Hsplit.
    apply ret_Return in Hrun as <-. simpl. lia.
Qed.

Lemma growForest_height (fuel : nat) (features : list featureVector) (labels : list nat)
    (n : nat) :
  ∀ (trees result : list tree) (g g' : rng),
    Forall (λ t, (height t ≤ 10)%nat) trees →
    growForest randomIndex fuel n features labels trees g = Some (Return result, g') →
    Forall (λ t, (height t ≤ 10)%nat) result
    ∧ length result = (length trees + n)%nat.
Proof.
  induction n as [|n IH]; intros trees result g g' Htrees Hrun; simpl in Hrun.
  - apply ret_Return in Hrun as <-. split; [exact Htrees | lia].
  - apply bind_Return in Hrun as (sample & g1 & Hsample & Hrun).
    apply bind_Return in Hrun as (t & g2 & Htree & Hrun).
    apply IH in Hrun as [Hres Hlength].
    + split; [exact Hres|]. rewrite Hlength, length_app. simpl. lia.
    + apply Forall_app. split; [exact Htrees|]. constructor; [|constructor].
      unfold trainDecisionTree in Htree. by apply growTree_height in Htree.
Qed.

(** X24. What a successful [train] leaves behind: the trainer is marked trained
    and holds exactly [numTrees] trees, at least one, none deeper than 10
    tests; it keeps one feature vector per image and the labels given, names
    its classes [Class 0], [Class 1], ... up to the greatest label; and the
    call reports the accuracy stored with the forest and the number of
    trees. *)
Theorem train_forest_shape (fuel : nat) (t t' : trainer) (d : dataset) (g g' : rng)
    (r : trainResult) :
  train getImageData randomIndex fuel t d g = Some (t', Return r, g') →
  isTrained t' = true
  ∧ (0 < numTrees t)%nat ∧ numTrees t' = numTrees t
  ∧ length (t_features t') = length (images d) ∧ t_labels t' = labels d
  ∧ classNames t' = className <$> seq 0 (numClassesOf (labels d))
  ∧ ∃ m, model t' = Some m
         ∧ length (trees m) = numTrees t
         ∧ Forall (λ tr, (height tr ≤ 10)%nat) (trees m)
         ∧ r = {| r_accuracy := accuracy m; r_trees := numTrees t |}.
Proof.
  unfold train. destruct (images d) as [|image rest] eqn:Himages; [done|].
  rewrite <- Himages.
  pose proof (extractFeatures_length getImageData (images d)) as Hfeat.
  destruct (trainRandomForest randomIndex fuel (numTrees t) _ (labels d) g)
    as [[[m|e] g1]|] eqn:Hforest; [|done..].
  intros [= <- <- _]. cbn [isTrained numTrees t_features t_labels classNames model].
  unfold trainRandomForest in Hforest.
  apply bind_Return in Hforest as (result & g2 & Hgrow & Hforest).
  apply bind_Return in Hforest as (acc & g3 & Hacc & Hforest).
  apply ret_Return in Hforest as <-. cbn [trees accuracy].
  apply growForest_height in Hgrow as [Hheight Hlength]; [|constructor].
  simpl in Hlength. split; [reflexivity|]. split.
  { rewrite <- Hlength. destruct result as [|tr result]; [|simpl; lia].
    apply lift_Return in Hacc.
    destruct (extractFeatures getImageData (images d)) as [|f fs] eqn:Hfs.
    - rewrite Himages in Hfeat. simpl in Hfeat. lia.
    - by apply calculateAccuracy_no_trees in Hacc. }
  do 4 (split; [done|]). eexists. split; [reflexivity|]. by repeat split.
Qed.

(** *** Evaluation *)

Lemma predictInstance_Return (features : featureVector) (trees : list tree) :
  trees ≠ [] → ∃ r, predictInstance features trees = Return r.
Proof.
  intros Hne. unfold predictInstance. set (votes := castVotes features trees).
  destruct (keys votes) as [|k ks] eqn:Hkeys; [|by eexists].
  exfalso. destruct trees as [|t trees]; [done|].
  pose proof (votesFor_nonempty features t trees) as Hvote.
  rewrite <- count_castVotes in Hvote.
  apply (elem_of_keys _ _ (positive_castVotes features (t :: trees))) in Hvote.
  fold votes in Hvote. rewrite Hkeys in Hvote. by apply elem_of_nil in Hvote.
Qed.

Lemma countCorrect_bounds (trees : list tree) (testLabels : list nat) :
  trees ≠ [] →
  ∀ (rest : list featureVector) (i : nat) (correct : Z),
    ∃ c, countCorrect trees testLabels i rest correct = Return c
         ∧ correct ≤ c ≤ correct + Z.of_nat (length rest).
Proof.
  intros Hne. induction rest as [|f rest IH]; intros i correct; simpl.
  - exists correct. split; [reflexivity | lia].
  - destruct (predictInstance_Return f trees Hne) as [r ->].
    destruct (IH (S i) (match testLabels !! i with
                        | Some label => if strictEq r label then correct + 1 else correct
                        | None => correct
                        end)) as (c & -> & Hc).
    exists c. split; [reflexivity|].
    destruct (testLabels !! i) as [label|]; [destruct (strictEq r label)|]; lia.
Qed.

(** X25. Once [train] has succeeded, [evaluate] returns on every test set: the
    accuracy is the rounded quotient of a count of hits, between 0 and the
    number of test images, by that number, and [NaN] on an empty test set;
    undecodable test images and missing labels do not make it fail. *)
Theorem evaluate_after_train (fuel : nat) (t t' : trainer) (d : dataset) (g g' : rng)
    (r : trainResult) (testImages : list string) (testLabels : list nat) :
  train getImageData randomIndex fuel t d g = Some (t', Return r, g') →
  ∃ correct,
    0 ≤ correct ≤ Z.of_nat (length testImages)
    ∧ evaluate getImageData t' testImages testLabels
      = Return {| e_accuracy :=
                    match testImages with
                    | [] => None
                    | _ => Some (jsdiv correct (Z.of_nat (length testImages)))
                    end;
                  e_trees := numTrees t |}.
Proof.
  unfold train. destruct (images d) as [|image rest] eqn:Himages; [done|].
  rewrite <- Himages.
  pose proof (extractFeatures_length getImageData (images d)) as Hfeat.
  destruct (trainRandomForest randomIndex fuel (numTrees t) _ (labels d) g)
    as [[[m|e] g1]|] eqn:Hforest; [|done..].
  intros [= <- _ _]. unfold evaluate. cbn [isTrained negb model numTrees].
  assert (Htrees : trees m ≠ []).
  { unfold trainRandomForest in Hforest.
    apply bind_Return in Hforest as (result & g2 & Hgrow & Hforest).
    apply bind_Return in Hforest as (acc & g3 & Hacc & Hforest).
    apply ret_Return in Hforest as <-. cbn [trees]. intros ->.
    apply lift_Return in Hacc.
    destruct (extractFeatures getImageData (images d)) as [|f fs] eqn:Hfs.
    - rewrite Himages in Hfeat. simpl in Hfeat. lia.
    - by apply calculateAccuracy_no_trees in Hacc. }
  pose proof (extractFeatures_length getImageData testImages) as Htest.
  destruct (countCorrect_bounds (trees m) testLabels Htrees
              (extractFeatures getImageData testImages) 0%nat 0) as (c & -> & Hc).
  exists c. rewrite Htest in Hc. split; [lia|]. rewrite Htest.
  destruct (extractFeatures getImageData testImages) as [|y ys];
    destruct testImages as [|x xs]; try reflexivity; simpl in Htest; lia.
Qed.

Lemma calculateAccuracy_countCorrect (features : list featureVector)
    (labels : list nat) (trees : list tree) :
  (length features ≤ length labels)%nat →
  calculateAccuracy features labels trees
  = match countCorrect trees labels 0 features 0 with
    | Throw e => Throw e
    | Return correct => Return (jsdiv correct (Z.of_nat (length features)))
    end.
Proof.
  intros Hlen. unfold calculateAccuracy.
  match goal with |- context [?loop 0%nat features 0] =>
    match loop with
    | countCorrect _ _ => fail 1
    | _ => assert (Hloop : ∀ rest i correct,
                     (i + length rest ≤ length labels)%nat →
                     loop i rest correct = countCorrect trees labels i rest correct)
    end
  end.
  { induction rest as [|f rest IH]; intros i correct Hi; [reflexivity|].
    simpl in Hi |- *. destruct (predictInstance f trees) as [prediction|e]; [|reflexivity].
    rewrite IH by lia. destruct (lookup_lt_is_Some_2 labels i) as [label Hlabel]; [lia|].
    by rewrite Hlabel, (list_lookup_total_correct _ _ _ Hlabel). }
  by rewrite Hloop by (simpl; lia).
Qed.

(** X26. Evaluating a freshly trained forest on its own training data (one label
    per image) gives back the accuracy that [train] reported. *)
Theorem evaluate_training_data (fuel : nat) (t t' : trainer) (d : dataset) (g g' : rng)
    (r : trainResult) :
  length (labels d) = length (images d) →
  train getImageData randomIndex fuel t d g = Some (t', Return r, g') →
  evaluate getImageData t' (images d) (labels d)
  = Return {| e_accuracy := Some (r_accuracy r); e_trees := r_trees r |}.
Proof.
  intros Hlen. unfold train. destruct (images d) as [|image rest] eqn:Himages; [done|].
  rewrite <- Himages in Hlen |- *.
  pose proof (extractFeatures_length getImageData (images d)) as Hfeat.
  destruct (trainRandomForest randomIndex fuel (numTrees t) _ (labels d) g)
    as [[[m|e] g1]|] eqn:Hforest; [|done..].
  intros [= <- <- _]. unfold evaluate. cbn [isTrained negb model numTrees r_accuracy r_trees].
  unfold trainRandomForest in Hforest.
  apply bind_Return in Hforest as (result & g2 & Hgrow & Hforest).
  apply bind_Return in Hforest as (acc & g3 & Hacc & Hforest).
  apply ret_Return in Hforest as <-. cbn [trees accuracy].
  apply lift_Return in Hacc.
  rewrite calculateAccuracy_countCorrect in Hacc by lia.
  destruct (countCorrect result (labels d) 0 _ 0) as [correct|e]; [|done].
  injection Hacc as <-.
  destruct (extractFeatures getImageData (images d)) as [|f fs] eqn:Hfs; [|reflexivity].
  rewrite Himages in Hfeat. simpl in Hfeat. lia.
Qed.

(** *** Every sample ends in one leaf *)

Lemma split_lengths (featureIndex : nat) (threshold : option Q)
    (features : list featureVector) :
  ∀ labels : list nat,
    length labels = length features →
    length (fst (splitLabels features labels featureIndex threshold))
    = length (fst (splitFeatures features featureIndex threshold))
    ∧ length (snd (splitLabels features labels featureIndex threshold))
      = length (snd (splitFeatures features featureIndex threshold))
    ∧ (length (fst (splitLabels features labels featureIndex threshold))
       + length (snd (splitLabels features labels featureIndex threshold))
       = length labels)%nat.
Proof.
  induction features as [|f features IH]; intros [|l labels] Hlen; try done.
  simpl in Hlen. specialize (IH labels ltac:(lia)). simpl.
  destruct (splitLabels features labels featureIndex threshold) as [ll rl].
  destruct (splitFeatures features featureIndex threshold) as [lf rf].
  destruct (jsle (f !! featureIndex) threshold); simpl in *; lia.
Qed.

Lemma createLeafNode_count (labels : list nat) (t : tree) :
  createLeafNode labels = Return t → leafCount t = length labels.
Proof.
  unfold createLeafNode. destruct (reduce _ _); [intros [= <-]; reflexivity | done].
Qed.

Lemma growTree_leafCount (fuel remaining : nat) :
  ∀ (features : list featureVector) (labels : list nat) (g g' : rng) (t : tree),
    length labels = length features →
    growTree randomIndex fuel remaining features labels g = Some (Return t, g') →
    leafCount t = length labels.
Proof.
  induction remaining as [|remaining IH]; intros features labels g g' t Hlen Hrun;
    simpl in Hrun.
  - by apply lift_Return, createLeafNode_count in Hrun.
  - destruct features as [|f features].
    { by apply lift_Return, createLeafNode_count in Hrun. }
    assert (Hsplit :
      (findBestSplit randomIndex fuel (f :: features) labels ≫= λ bestSplit,
         match bestSplit with
         | None => lift (createLeafNode labels)
         | Some s =>
             let '(leftFeatures, rightFeatures) :=
               splitFeatures (f :: features) (featureIndex s) (threshold s) in
             let '(leftLabels, rightLabels) :=
               splitLabels (f :: features) labels (featureIndex s) (threshold s) in
             growTree randomIndex fuel remaining leftFeatures leftLabels ≫= λ left_,
             growTree randomIndex fuel remaining rightFeatures rightLabels ≫= λ right_,
             ret (Node (featureIndex s) (threshold s) left_ right_)
         end) g = Some (Return t, g') →
      leafCount t = length labels).
    { clear Hrun. intros Hrun.
      apply bind_Return in Hrun as (bestSplit & g1 & _ & Hrun).
      destruct bestSplit as [s|];
        [|by apply lift_Return, createLeafNode_count in Hrun].
      pose proof (split_lengths (featureIndex s) (threshold s) (f :: features) labels Hlen)
        as (Hl & Hr & Hsum).
      destruct (splitFeatures _ _ _) as [lf rf].
      destruct (splitLabels _ _ _ _) as [ll rl]. cbn [fst snd] in *.
      apply bind_Return in Hrun as (lt & g2 & Hleft & Hrun).
      apply bind_Return in Hrun as (rt & g3 & Hright & Hrun).
      apply ret_Return in Hrun as <-. apply IH in Hleft, Hright; [|done..].
      simpl. lia. }
    destruct (unique Nat.eqb labels) as [|only [|]] eqn:Hunique; try by apply Hsplit.
    by apply ret_Return in Hrun as <-.
Qed.

Lemma bootstrap_length (features : list featureVector) (labels : list nat) (n : nat) :
  ∀ (sampleFeatures : list featureVector) (sampleLabels : list nat) (g g' : rng)
    (sample : list featureVector * list nat),
    length sampleLabels = length sampleFeatures →
    bootstrap randomIndex n features labels sampleFeatures sampleLabels g
    = Some (Return sample, g') →
    length (snd sample) = length (fst sample)
    ∧ length (fst sample) = (length sampleFeatures + n)%nat.
Proof.
  induction n as [|n IH]; intros sampleFeatures sampleLabels g g' sample Hlen Hrun;
    simpl in Hrun.
  - apply ret_Return in Hrun as <-. simpl. lia.
  - apply bind_Return in Hrun as (i & g1 & _ & Hrun).
    apply IH in Hrun as [Hpar Hsize]; [|rewrite !length_app; simpl; lia].
    rewrite length_app in Hsize. simpl in Hsize. lia.
Qed.

Lemma growForest_leafCount (fuel : nat) (features : list featureVector)
    (labels : list nat) (n : nat) :
  ∀ (trees result : list tree) (g g' : rng),
    Forall (λ t, leafCount t = length features) trees →
    growForest randomIndex fuel n features labels trees g = Some (Return result, g') →
    Forall (λ t, leafCount t = length features) result.
Proof.
  induction n as [|n IH]; intros trees result g g' Htrees Hrun; simpl in Hrun.
  - by apply ret_Return in Hrun as <-.
  - apply bind_Return in Hrun as (sample & g1 & Hsample & Hrun).
    apply bind_Return in Hrun as (t & g2 & Htree & Hrun).
    apply IH in Hrun; [exact Hrun|].
    apply Forall_app. split; [exact Htrees|]. constructor; [|constructor].
    apply bootstrap_length in Hsample as [Hpar Hsize]; [|reflexivity].
    unfold trainDecisionTree in Htree.
    apply growTree_leafCount in Htree; [|exact Hpar]. simpl in Hsize. lia.
Qed.

(** X27. In a trained forest every tree accounts for exactly as many samples as
    there are training images: a bootstrap sample has the size of the
    training set, and each of its samples ends in exactly one leaf, whose
    [count] fields therefore add up to that size. *)
Theorem train_leaf_counts (fuel : nat) (t t' : trainer) (d : dataset) (g g' : rng)
    (r : trainResult) :
  train getImageData randomIndex fuel t d g = Some (t', Return r, g') →
  ∃ m, model t' = Some m
       ∧ Forall (λ tr, leafCount tr = length (images d)) (trees m).
Proof.
  unfold train. destruct (images d) as [|image rest] eqn:Himages; [done|].
  rewrite <- Himages.
  pose proof (extractFeatures_length getImageData (images d)) as Hfeat.
  destruct (trainRandomForest randomIndex fuel (numTrees t) _ (labels d) g)
    as [[[m|e] g1]|] eqn:Hforest; [|done..].
  intros [= <- _ _]. exists m. split; [reflexivity|].
  unfold trainRandomForest in Hforest.
  apply bind_Return in Hforest as (result & g2 & Hgrow & Hforest).
  apply bind_Return in Hforest as (acc & g3 & _ & Hforest).
  apply ret_Return in Hforest as <-. cbn [trees].
  apply growForest_leafCount in Hgrow; [|constructor]. by rewrite Hfeat in Hgrow.
Qed.

(** *** Histograms *)

Lemma bump_sum (hist : list Z) (v : Z) :
  length hist = 4%nat → 0 ≤ v ≤ 255 →
  Metrics.sumZ (bump hist v) = Metrics.sumZ hist + 1.
Proof.
  intros Hlen Hv. unfold bump.
  assert (Hbin : 0 ≤ v / 64 < 4).
  { split; [apply Z.div_pos; lia | apply Z.div_lt_upper_bound; lia]. }
  destruct (lookup_lt_is_Some_2 hist (Z.to_nat (v / 64))) as [x Hx]; [lia|].
  rewrite (sumZ_alter _ _ _ x Hx). lia.
Qed.

Lemma histograms_sum_bounded (n : nat) :
  ∀ data rHist gHist bHist : list Z,
    (length data ≤ n)%nat →
    length rHist = 4%nat → length gHist = 4%nat → length bHist = 4%nat →
    Forall (λ v, 0 ≤ v ≤ 255) data →
    match histograms data rHist gHist bHist with
    | (r, g, b) =>
        Metrics.sumZ r = Metrics.sumZ rHist + Z.of_nat (length data `div` 4)
        ∧ Metrics.sumZ g = Metrics.sumZ gHist + Z.of_nat (length data `div` 4)
        ∧ Metrics.sumZ b = Metrics.sumZ bHist + Z.of_nat (length data `div` 4)
    end.
Proof.
  induction n as [|n IH]; intros data rHist gHist bHist Hn Hr Hg Hb Hbytes;
    destruct data as [|r [|g [|b [|a rest]]]]; simpl in Hn; try lia;
    try (cbn [histograms]; change (length _ `div` 4)%nat with 0%nat; lia).
  repeat (apply Forall_cons in Hbytes as [? Hbytes]).
  specialize (IH rest (bump rHist r) (bump gHist g) (bump bHist b) ltac:(lia)).
  rewrite !bump_length in IH. specialize (IH Hr Hg Hb Hbytes).
  cbn [histograms]. destruct (histograms rest _ _ _) as [[r' g'] b'].
  rewrite !bump_sum in IH by done.
  replace (length (r :: g :: b :: a :: rest) `div` 4)%nat
    with (S (length rest `div` 4)).
  - lia.
  - change (length (r :: g :: b :: a :: rest)) with (1 * 4 + length rest)%nat.
    rewrite (Nat.add_comm (1 * 4)), Nat.div_add by lia. lia.
Qed.

(** X28. Over the buffer of a canvas (bytes between 0 and 255, four a pixel) each
    of the three colour histograms counts every pixel once: its four bins add
    up to the number of pixels, whatever the colours. *)
Theorem histograms_count_pixels (data : list Z) (pixels : nat) :
  length data = (4 * pixels)%nat →
  Forall (λ v, 0 ≤ v ≤ 255) data →
  match histograms data [0; 0; 0; 0] [0; 0; 0; 0] [0; 0; 0; 0] with
  | (rHist, gHist, bHist) =>
      Metrics.sumZ rHist = Z.of_nat pixels
      ∧ Metrics.sumZ gHist = Z.of_nat pixels
      ∧ Metrics.sumZ bHist = Z.of_nat pixels
  end.
Proof.
  intros Hlen Hbytes.
  pose proof (histograms_sum_bounded (length data) data [0; 0; 0; 0] [0; 0; 0; 0]
                [0; 0; 0; 0] (le_n _) eq_refl eq_refl eq_refl Hbytes) as Hsum.
  destruct (histograms data _ _ _) as [[r g] b].
  rewrite Hlen, Nat.mul_comm, Nat.div_mul in Hsum by lia. exact Hsum.
Qed.

End ForestMore.

Lemma train_forest_shape_witness :
  RandomForestTrainer.isTrained Sample.trained = true
  ∧ (0 < RandomForestTrainer.numTrees RandomForestTrainer.new)%nat
  ∧ RandomForestTrainer.numTrees Sample.trained
    = RandomForestTrainer.numTrees RandomForestTrainer.new
  ∧ length (RandomForestTrainer.t_features Sample.trained)
    = length (RandomForestTrainer.images Sample.twoImages)
  ∧ RandomForestTrainer.t_labels Sample.trained
    = RandomForestTrainer.labels Sample.twoImages
  ∧ RandomForestTrainer.classNames Sample.trained
    = RandomForestTrainer.className
        <$> seq 0 (RandomForestTrainer.numClassesOf
                     (RandomForestTrainer.labels Sample.twoImages))
  ∧ ∃ m, RandomForestTrainer.model Sample.trained = Some m
         ∧ length (RandomForestTrainer.trees m)
           = RandomForestTrainer.numTrees RandomForestTrainer.new
         ∧ Forall (λ tr, (RandomForestTrainer.height tr ≤ 10)%nat)
                  (RandomForestTrainer.trees m)
         ∧ Sample.result
           = {| RandomForestTrainer.r_accuracy := RandomForestTrainer.accuracy m;
                RandomForestTrainer.r_trees :=
                  RandomForestTrainer.numTrees RandomForestTrainer.new |}.
Proof.
  apply (train_forest_shape (H := exactNumber) Sample.getImageData Sample.randomIndex
           100 RandomForestTrainer.new Sample.trained Sample.twoImages 0%nat
           Sample.finalState Sample.result).
  vm_compute. reflexivity.
Defined.

Lemma evaluate_after_train_witness :
  ∃ correct,
    0 ≤ correct ≤ Z.of_nat (length ["blue"; "no such image"])
    ∧ RandomForestTrainer.evaluate (H := exactNumber) Sample.getImageData
        Sample.trained ["blue"; "no such image"] [1%nat]
      = Return {| RandomForestTrainer.e_accuracy :=
                    Some (jsdiv (H := exactNumber) correct
                            (Z.of_nat (length ["blue"; "no such image"])));
                  RandomForestTrainer.e_trees :=
                    RandomForestTrainer.numTrees RandomForestTrainer.new |}.
Proof.
  apply (evaluate_after_train (H := exactNumber) Sample.getImageData Sample.randomIndex
           100 RandomForestTrainer.new Sample.trained Sample.twoImages 0%nat
           Sample.finalState Sample.result ["blue"; "no such image"] [1%nat]).
  vm_compute. reflexivity.
Defined.

Lemma evaluate_training_data_witness :
  RandomForestTrainer.evaluate (H := exactNumber) Sample.getImageData Sample.trained
    (RandomForestTrainer.images Sample.twoImages)
    (RandomForestTrainer.labels Sample.twoImages)
  = Return {| RandomForestTrainer.e_accuracy :=
                Some (RandomForestTrainer.r_accuracy Sample.result);
              RandomForestTrainer.e_trees :=
                RandomForestTrainer.r_trees Sample.result |}.
Proof.
  apply (evaluate_training_data (H := exactNumber) Sample.getImageData
           Sample.randomIndex 100 RandomForestTrainer.new Sample.trained
           Sample.twoImages 0%nat Sample.finalState Sample.result).
  - reflexivity.
  - vm_compute. reflexivity.
Defined.

(** ** Evaluation metrics, continued *)

Section MetricsMore.
Context `{JsNumber}.
Import Metrics.

Lemma classStep_out (m : matrix) (a : acc) (i : nat) :
  out (classStep m (length m) a i)
  = {| accuracy := accuracy (out a);
       precision := precision (out a) ++ [precision_formula m i];
       recall := recall (out a) ++ [recall_formula m i];
       f1Score := f1Score (out a) ++ [f1_formula m i];
       support := support (out a) ++ [TP m i + FN m i] |}.
Proof. unfold classStep. rewrite countErrors_sums. reflexivity. Qed.

Lemma loop_out (m : matrix) (l : list nat) :
  ∀ a : acc,
    precision (out (foldl (classStep m (length m)) a l))
    = precision (out a) ++ (precision_formula m <$> l)
    ∧ recall (out (foldl (classStep m (length m)) a l))
      = recall (out a) ++ (recall_formula m <$> l)
    ∧ f1Score (out (foldl (classStep m (length m)) a l))
      = f1Score (out a) ++ (f1_formula m <$> l)
    ∧ support (out (foldl (classStep m (length m)) a l))
      = support (out a) ++ ((λ i, TP m i + FN m i) <$> l).
Proof.
  induction l as [|i l IH]; intros a.
  - simpl. by rewrite !app_nil_r.
  - cbn [foldl]. destruct (IH (classStep m (length m) a i)) as (-> & -> & -> & ->).
    rewrite classStep_out. cbn [precision recall f1Score support].
    rewrite !fmap_cons, <- !app_assoc. done.
Qed.

(** X29. The per-class arrays of [calculateMetrics] have one entry per row of the
    matrix: precision TP/(TP+FP) and recall TP/(TP+FN), each 0 when its
    denominator is not positive, their rounded harmonic mean (0 when their
    sum is not positive), and the support TP+FN. *)
Theorem calculateMetrics_per_class (m : matrix) :
  let r := calculateMetrics m in
  precision r = precision_formula m <$> seq 0 (length m)
  ∧ recall r = recall_formula m <$> seq 0 (length m)
  ∧ f1Score r = f1_formula m <$> seq 0 (length m)
  ∧ support r = (λ i, TP m i + FN m i) <$> seq 0 (length m).
Proof.
  unfold calculateMetrics. cbn [precision recall f1Score support].
  match goal with |- context [foldl ?f ?a ?l] =>
    destruct (loop_out m l a) as (-> & -> & -> & ->) end.
  done.
Qed.

Lemma sumZ_split (f : nat → Z) (i : nat) (l : list nat) :
  NoDup l → i ∈ l →
  sumZ (f <$> l) = f i + sumZ (f <$> filter (λ j, j ≠ i) l).
Proof.
  induction l as [|j l IH]; intros Hdup Hin; [by apply elem_of_nil in Hin|].
  apply NoDup_cons in Hdup as [Hj Hdup]. rewrite fmap_cons.
  change (sumZ (f j :: (f <$> l))) with (f j + sumZ (f <$> l)).
  destruct (decide (j = i)) as [->|Hne].
  - rewrite filter_cons_False by (intros Hc; by apply Hc).
    rewrite filter_all; [reflexivity|].
    apply Forall_forall. intros k Hk ->. contradiction.
  - rewrite filter_cons_True by done. rewrite fmap_cons.
    change (sumZ (f j :: (f <$> filter (λ j, j ≠ i) l)))
      with (f j + sumZ (f <$> filter (λ j, j ≠ i) l)).
    apply elem_of_cons in Hin as [->|Hin]; [done|]. rewrite IH by done. lia.
Qed.

Lemma lookup_default_seq (row : list Z) :
  (λ j, default 0 (row !! j)) <$> seq 0 (length row) = row.
Proof.
  induction row as [|x row IH]; [reflexivity|].
  cbn [length]. rewrite <- cons_seq, fmap_cons, <- fmap_S_seq, <- list_fmap_compose.
  simpl. f_equal. exact IH.
Qed.

(** X30. On a square matrix the support of a class is the total of its row: the
    number of samples whose actual class it is. *)
Theorem calculateMetrics_support (m : matrix) :
  square m → support (calculateMetrics m) = sumZ <$> m.
Proof.
  intros Hsquare. unfold calculateMetrics. cbn [support].
  match goal with |- context [foldl ?f ?a ?l] =>
    destruct (loop_out m l a) as (_ & _ & _ & ->) end.
  cbn [support out app]. unfold matrix in *.
  apply list_eq. intros i. rewrite !list_lookup_fmap.
  destruct (m !! i) as [row|] eqn:Hrow.
  - assert (Hi : (i < length m)%nat) by (by eapply lookup_lt_Some).
    rewrite lookup_seq_lt by exact Hi. simpl. f_equal.
    unfold TP, FN. rewrite <- (sumZ_split (λ j, cell m i j));
      [|apply NoDup_seq | apply elem_of_seq; lia].
    eapply Forall_lookup_1 in Hsquare; [|exact Hrow]. simpl in Hsquare.
    rewrite <- Hsquare. rewrite <- (lookup_default_seq row) at 2.
    f_equal. apply list_fmap_ext. intros j k _. unfold cell, matrix. by rewrite Hrow.
  - apply lookup_ge_None in Hrow. by rewrite lookup_seq_ge.
Qed.

End MetricsMore.

Lemma calculateMetrics_support_witness :
  Metrics.support (Metrics.calculateMetrics (H := exactNumber) [[5; 0]; [1; 4]])
  = Metrics.sumZ <$> [[5; 0]; [1; 4]].
Proof.
  apply (calculateMetrics_support (H := exactNumber) [[5; 0]; [1; 4]]).
  repeat constructor.
Defined.

Lemma train_leaf_counts_witness :
  ∃ m, RandomForestTrainer.model Sample.trained = Some m
       ∧ Forall (λ tr, RandomForestTrainer.leafCount tr
                       = length (RandomForestTrainer.images Sample.twoImages))
                (RandomForestTrainer.trees m).
Proof.
  apply (train_leaf_counts (H := exactNumber) Sample.getImageData Sample.randomIndex
           100 RandomForestTrainer.new Sample.trained Sample.twoImages 0%nat
           Sample.finalState Sample.result).
  vm_compute. reflexivity.
Defined.

Lemma histograms_count_pixels_witness :
  match RandomForestTrainer.histograms [255; 0; 0; 255; 0; 0; 255; 255]
          [0; 0; 0; 0] [0; 0; 0; 0] [0; 0; 0; 0] with
  | (rHist, gHist, bHist) =>
      Metrics.sumZ rHist = Z.of_nat 2
      ∧ Metrics.sumZ gHist = Z.of_nat 2
      ∧ Metrics.sumZ bHist = Z.of_nat 2
  end.
Proof.
  apply (histograms_count_pixels [255; 0; 0; 255; 0; 0; 255; 255] 2).
  - reflexivity.
  - repeat constructor; lia.
Defined.
